(** * malloc_4.cpp: the level-4 allocator (bins, split, coalesce, mmap, alignment)

    A shallow embedding of [src/malloc_4.cpp].  Block headers live in a finite
    map from addresses to [MallocMetadata] records; the three globals
    ([metadata_head], [mmap_metadata_head], [free_block_bin]) are fields of the
    allocator state, next to the payload bytes and the part of the operating
    system the code talks to ([sbrk], [mmap], [munmap]).  Every function of the
    source is a computation in a state-and-fault monad: dereferencing a null
    or unmapped header, indexing [free_block_bin] outside its 128 entries and
    a list walk that never ends are faults, not results. *)

From Stdlib Require Import ZArith Lia Bool Sorted.
From stdpp Require Import base option list gmap.

Local Open Scope Z_scope.

(** ** Machine arithmetic (LP64) *)

Module Word.

(** [size_t] is 64 bits wide: every [size_t] operation is taken modulo 2^64. *)
Definition wrap64 (z : Z) : Z := z mod 2 ^ 64.

(** A [size_t] value reinterpreted as [intptr_t] (the argument of [sbrk]). *)
Definition to_intptr (z : Z) : Z :=
  let w := wrap64 z in if w <? 2 ^ 63 then w else w - 2 ^ 64.

(** A [size_t] value stored in an [int]: the low 32 bits, read as signed. *)
Definition to_int (z : Z) : Z :=
  let w := z mod 2 ^ 32 in if w <? 2 ^ 31 then w else w - 2 ^ 32.

End Word.

Import Word.

(** ** Constants and macros *)

(** Addresses are integers; [nullptr] is address 0. *)
Abbreviation ptr := Z (only parsing).
Definition nullptr : ptr := 0.

(** [sizeof(void* )] and [sizeof(malloc_metadata_t)] on LP64: the header is a
    [size_t], a padded [bool] and four pointers. *)
Definition ADDRESS_SIZE : Z := 8.
Definition sizeof_metadata : Z := 48.

Definition MAX_MALLOC_4_SIZE : Z := 100000000.
Definition SBRK_FAIL : Z := -1.
Definition MAP_FAILED : Z := -1.
Definition BIN_SIZE : Z := 128.
Definition KB : Z := 1024.
Definition MIN_KB_BLOCK : Z := 128 * KB.

Definition GET_SIZE_WITH_ALIGNMENT (address : Z) : Z :=
  wrap64 (address + wrap64 (ADDRESS_SIZE - address mod ADDRESS_SIZE) mod ADDRESS_SIZE).

Definition MMIN (a b : Z) : Z := if a <? b then a else b.

Definition GET_METADATA_FROM_PTR (alloc_ptr : ptr) : ptr := alloc_ptr - sizeof_metadata.
Definition GET_PTR_FROM_METADATA (metadata : ptr) : ptr := metadata + sizeof_metadata.

Definition GET_BIN_ENTRY (size : Z) : Z := size / KB.

Definition IS_LARGE_ENOUGH (entire_block_size needed_size : Z) : bool :=
  wrap64 (needed_size + sizeof_metadata + 128) <=? entire_block_size.

(** ** Data model *)

Record MallocMetadata := mkMeta {
  size : Z;
  is_free : bool;
  next : ptr;
  prev : ptr;
  bin_next : ptr;
  bin_prev : ptr
}.

Definition with_size (v : Z) (m : MallocMetadata) : MallocMetadata :=
  mkMeta v (is_free m) (next m) (prev m) (bin_next m) (bin_prev m).
Definition with_is_free (v : bool) (m : MallocMetadata) : MallocMetadata :=
  mkMeta (size m) v (next m) (prev m) (bin_next m) (bin_prev m).
Definition with_next (v : ptr) (m : MallocMetadata) : MallocMetadata :=
  mkMeta (size m) (is_free m) v (prev m) (bin_next m) (bin_prev m).
Definition with_prev (v : ptr) (m : MallocMetadata) : MallocMetadata :=
  mkMeta (size m) (is_free m) (next m) v (bin_next m) (bin_prev m).
Definition with_bin_next (v : ptr) (m : MallocMetadata) : MallocMetadata :=
  mkMeta (size m) (is_free m) (next m) (prev m) v (bin_prev m).
Definition with_bin_prev (v : ptr) (m : MallocMetadata) : MallocMetadata :=
  mkMeta (size m) (is_free m) (next m) (prev m) (bin_next m) v.

(** The allocator's globals, the headers and payload bytes it can reach, and
    the operating system's side: the current program break, the highest
    break the kernel will grant, and the answers the kernel will give to the
    coming [mmap] calls (an address, or [MAP_FAILED]; none left is a
    failure).

    Headers and payload bytes are kept in two stores: [heap] holds the
    header records by address, [mem] the payload bytes by address.  A write
    through a header pointer changes [heap] only; [memset], [memmove] and
    the writes of the program change [mem] only.  A header that a merge or
    an extension has left behind inside a block stays in [heap]; in the C
    memory its 48 bytes are payload bytes of the enclosing block.  The two
    stores describe the C memory exactly as long as no header that is read
    or written lies inside the payload of a block in use. *)
Record state := mkState {
  heap : gmap Z MallocMetadata;
  metadata_head : ptr;
  mmap_metadata_head : ptr;
  free_block_bin : list ptr;
  mem : Z -> Z;
  brk : Z;
  brk_limit : Z;
  mmap_answers : list Z
}.

Definition with_heap (h : gmap Z MallocMetadata) (s : state) : state :=
  mkState h (metadata_head s) (mmap_metadata_head s) (free_block_bin s)
          (mem s) (brk s) (brk_limit s) (mmap_answers s).
Definition with_metadata_head (p : ptr) (s : state) : state :=
  mkState (heap s) p (mmap_metadata_head s) (free_block_bin s)
          (mem s) (brk s) (brk_limit s) (mmap_answers s).
Definition with_mmap_metadata_head (p : ptr) (s : state) : state :=
  mkState (heap s) (metadata_head s) p (free_block_bin s)
          (mem s) (brk s) (brk_limit s) (mmap_answers s).
Definition with_free_block_bin (b : list ptr) (s : state) : state :=
  mkState (heap s) (metadata_head s) (mmap_metadata_head s) b
          (mem s) (brk s) (brk_limit s) (mmap_answers s).
Definition with_mem (f : Z -> Z) (s : state) : state :=
  mkState (heap s) (metadata_head s) (mmap_metadata_head s) (free_block_bin s)
          f (brk s) (brk_limit s) (mmap_answers s).
Definition with_brk (b : Z) (s : state) : state :=
  mkState (heap s) (metadata_head s) (mmap_metadata_head s) (free_block_bin s)
          (mem s) b (brk_limit s) (mmap_answers s).
Definition with_mmap_answers (l : list Z) (s : state) : state :=
  mkState (heap s) (metadata_head s) (mmap_metadata_head s) (free_block_bin s)
          (mem s) (brk s) (brk_limit s) l.

(** Before the first call: no block, 128 empty buckets, all-zero memory. *)
Definition initial_state (brk0 limit : Z) (answers : list Z) : state :=
  mkState ∅ nullptr nullptr (replicate (Z.to_nat BIN_SIZE) nullptr)
          (fun _ => 0) brk0 limit answers.

(** ** The monad of the embedding *)

Inductive fault :=
| NullDeref                  (* a field of [nullptr] is read or written *)
| WildDeref (a : ptr)        (* ... of an address that holds no header *)
| BinOutOfBounds (i : Z)     (* [free_block_bin[i]] with [i] outside 0..127 *)
| Diverge.                   (* a list walk ran around a cycle *)

Inductive result (A : Type) :=
| Ok (a : A)
| Fault (f : fault).
Arguments Ok {A} a.
Arguments Fault {A} f.

Definition M (A : Type) : Type := state -> result (A * state).

Definition ret {A} (a : A) : M A := fun s => Ok (a, s).
Definition bind {A B} (m : M A) (k : A -> M B) : M B :=
  fun s => match m s with
           | Ok (a, s') => k a s'
           | Fault f => Fault f
           end.
Definition raise {A} (f : fault) : M A := fun _ => Fault f.
Definition gets {A} (f : state -> A) : M A := fun s => Ok (f s, s).
Definition modify (f : state -> state) : M unit := fun s => Ok (tt, f s).

Declare Scope alloc_scope.
Delimit Scope alloc_scope with alloc.
Notation "'let*' x ':=' m 'in' k" := (bind m (fun x => k))
  (at level 10, x name, m at level 100, k at level 200) : alloc_scope.
Notation "m ';;' k" := (bind m (fun _ => k))
  (at level 100, k at level 200, right associativity) : alloc_scope.
Notation "'when' c 'then' m" := (if c then m else ret tt)
  (at level 99, c at level 98, m at level 98) : alloc_scope.
Local Open Scope alloc_scope.

(** *** Header access *)

(** [p->field] needs a header at [p]. *)
Definition load (p : ptr) : M MallocMetadata :=
  fun s => if p =? nullptr then Fault NullDeref
           else match heap s !! p with
                | Some m => Ok (m, s)
                | None => Fault (WildDeref p)
                end.

Definition update (p : ptr) (f : MallocMetadata -> MallocMetadata) : M unit :=
  let* m := load p in
  modify (fun s => with_heap (<[p := f m]> (heap s)) s).

Definition set_size (p : ptr) (v : Z) : M unit := update p (with_size v).
Definition set_is_free (p : ptr) (v : bool) : M unit := update p (with_is_free v).
Definition set_next (p : ptr) (v : ptr) : M unit := update p (with_next v).
Definition set_prev (p : ptr) (v : ptr) : M unit := update p (with_prev v).
Definition set_bin_next (p : ptr) (v : ptr) : M unit := update p (with_bin_next v).
Definition set_bin_prev (p : ptr) (v : ptr) : M unit := update p (with_bin_prev v).

(** [INIT_METADATA]: the six fields are written to fresh memory. *)
Definition INIT_METADATA (metadata : ptr) (_size : Z) (_is_free : bool)
    (_next _prev _bin_next _bin_prev : ptr) : M unit :=
  if metadata =? nullptr then raise NullDeref
  else modify (fun s =>
    with_heap (<[metadata := mkMeta _size _is_free _next _prev _bin_next _bin_prev]> (heap s)) s).

(** [p && p->is_free] *)
Definition is_free_at (p : ptr) : M bool :=
  if p =? nullptr then ret false else let* m := load p in ret (is_free m).

(** *** The bin array *)

Definition get_bin (i : Z) : M ptr :=
  fun s => if (0 <=? i) && (i <? BIN_SIZE)
           then match free_block_bin s !! Z.to_nat i with
                | Some p => Ok (p, s)
                | None => Fault (BinOutOfBounds i)
                end
           else Fault (BinOutOfBounds i).

Definition set_bin (i : Z) (p : ptr) : M unit :=
  fun s => if (0 <=? i) && (i <? BIN_SIZE) && (Z.to_nat i <? length (free_block_bin s))%nat
           then Ok (tt, with_free_block_bin (<[Z.to_nat i := p]> (free_block_bin s)) s)
           else Fault (BinOutOfBounds i).

(** *** The two chain heads, passed by address in the source *)

Inductive list_ref := brk_list | mmap_list.

Definition get_head (l : list_ref) : M ptr :=
  match l with
  | brk_list => gets metadata_head
  | mmap_list => gets mmap_metadata_head
  end.

Definition set_head (l : list_ref) (p : ptr) : M unit :=
  match l with
  | brk_list => modify (with_metadata_head p)
  | mmap_list => modify (with_mmap_metadata_head p)
  end.

(** A walk over a linked list visits at most as many headers as exist before
    it repeats one: this bound is the fuel of every loop below, and a loop
    that uses it up is on a cycle. *)
Definition walk_fuel : M nat := gets (fun s => S (base.size (heap s))).

(** *** Operating system *)

(** [sbrk(incr)]: the old break, or [SBRK_FAIL] when the kernel refuses. *)
Definition sbrk (incr : Z) : M Z :=
  fun s => let new_brk := brk s + to_intptr incr in
           if brk_limit s <? new_brk then Ok (SBRK_FAIL, s)
           else Ok (brk s, with_brk new_brk s).

(** [mmap(nullptr, len, ...)]: the kernel's next answer. *)
Definition mmap (len : Z) : M Z :=
  fun s => match mmap_answers s with
           | [] => Ok (MAP_FAILED, s)
           | a :: rest => Ok (a, with_mmap_answers rest s)
           end.

(** [munmap(addr, len)]: the header at [addr] is gone with its pages. *)
Definition munmap (addr : ptr) (len : Z) : M unit :=
  modify (fun s => with_heap (delete addr (heap s)) s).

(** [memset(p, 0, n)] and [memmove(dst, src, n)] on the payload bytes. *)
Definition in_range (p n a : Z) : bool := (p <=? a) && (a <? p + n).

Definition memset (p : ptr) (c : Z) (n : Z) : M unit :=
  if p =? nullptr then raise NullDeref
  else modify (fun s =>
    with_mem (fun a => if in_range p n a then c else mem s a) s).

Definition memmove (dst src : ptr) (n : Z) : M unit :=
  if (dst =? nullptr) || (src =? nullptr) then raise NullDeref
  else modify (fun s =>
    with_mem (fun a => if in_range dst n a then mem s (a - dst + src) else mem s a) s).

(** ** Lists of blocks *)

(** [get_last_metadata_block]: the loop leaves by [return block] at the node
    whose [next] is null; the statement after the loop returns [list]. *)
Fixpoint get_last_loop (fuel : nat) (list block : ptr) : M ptr :=
  match fuel with
  | O => raise Diverge
  | S fuel' =>
      if block =? nullptr then ret list
      else
        let* m := load block in
        if next m =? nullptr then ret block
        else get_last_loop fuel' list (next m)
  end.

Definition get_last_metadata_block (list : ptr) : M ptr :=
  if list =? nullptr then ret nullptr
  else
    let* fuel := walk_fuel in
    get_last_loop fuel list list.

Definition remove_from_list (to_del : ptr) (list : list_ref) : M unit :=
  let* m := load to_del in
  (if (next m =? nullptr) && (prev m =? nullptr) then
     set_head list nullptr
   else if prev m =? nullptr then
     set_head list (next m) ;;
     set_prev (next m) nullptr
   else if next m =? nullptr then
     set_next (prev m) nullptr
   else
     set_prev (next m) (prev m) ;;
     let* m' := load to_del in
     set_next (prev m') (next m')) ;;
  set_next to_del nullptr ;;
  set_prev to_del nullptr.

(** [list] is the address of the bucket's entry; the entry itself is only
    written in the first two branches. *)
Definition remove_from_bin (to_del : ptr) : M unit :=
  let* m := load to_del in
  let list := GET_BIN_ENTRY (size m) in
  (if (bin_next m =? nullptr) && (bin_prev m =? nullptr) then
     set_bin list nullptr
   else if bin_prev m =? nullptr then
     set_bin list (bin_next m) ;;
     set_bin_prev (bin_next m) nullptr
   else
     set_bin_next (bin_prev m) nullptr) ;;
  set_bin_next to_del nullptr ;;
  set_bin_prev to_del nullptr.

Definition insert_to_metadata_list (new_block : ptr) (list : list_ref) : M unit :=
  let* head := get_head list in
  if head =? nullptr then
    set_prev new_block nullptr ;;
    set_next new_block nullptr ;;
    set_head list new_block
  else
    let* after := get_last_metadata_block head in
    set_next after new_block ;;
    set_prev new_block after ;;
    set_next new_block nullptr.

(** The loop of [insert_block_to_bin]; [last] is the node of the previous
    round, the one the block is appended to when the loop runs out. *)
Fixpoint insert_bin_loop (fuel : nat) (new_block block last : ptr) : M unit :=
  match fuel with
  | O => raise Diverge
  | S fuel' =>
      if block =? nullptr then
        set_bin_next new_block nullptr ;;
        set_bin_prev new_block last ;;
        set_bin_next last new_block ;;
        set_is_free new_block true
      else
        let* b := load block in
        let* n := load new_block in
        if size n <=? size b then
          let prev := bin_prev b in
          if prev =? nullptr then
            set_bin_prev block new_block ;;
            set_bin_next new_block block ;;
            set_bin_prev new_block nullptr ;;
            let* n' := load new_block in
            set_bin (GET_BIN_ENTRY (size n')) new_block
          else
            set_bin_next prev new_block ;;
            set_bin_prev new_block prev ;;
            set_bin_next new_block block ;;
            set_bin_prev block new_block
        else
          insert_bin_loop fuel' new_block (bin_next b) block
  end.

Definition insert_block_to_bin (new_block : ptr) : M unit :=
  let* n := load new_block in
  let* head := get_bin (GET_BIN_ENTRY (size n)) in
  if head =? nullptr then
    set_bin_prev new_block nullptr ;;
    set_bin_next new_block nullptr ;;
    let* n' := load new_block in
    set_bin (GET_BIN_ENTRY (size n')) new_block
  else
    let* fuel := walk_fuel in
    insert_bin_loop fuel new_block head nullptr.

Definition cut_block (block : ptr) (size_ : Z) (remove_bin : bool) : M unit :=
  (when remove_bin then remove_from_bin block) ;;
  let* b := load block in
  let new_block_size := to_int (wrap64 (size b - size_)) in
  let new_block := block + size_ + sizeof_metadata in
  INIT_METADATA new_block (wrap64 (new_block_size - sizeof_metadata)) true
                (next b) block nullptr nullptr ;;
  insert_block_to_bin new_block ;;
  let* b1 := load block in
  (when negb (next b1 =? nullptr) then set_prev (next b1) new_block) ;;
  set_next block new_block ;;
  set_is_free block false ;;
  set_size block size_ ;;
  set_bin_next block nullptr ;;
  set_bin_prev block nullptr.

(** What [get_free_metadata_block] does with the block its search stops at
    (lines 398-406): split it when it is large enough, else unlink it whole;
    mark it used. *)
Definition take_block (block : ptr) (size_ : Z) : M unit :=
  let* b := load block in
  if IS_LARGE_ENOUGH (size b) size_ then
    cut_block block size_ true ;;
    set_is_free block false
  else
    remove_from_bin block ;;
    set_is_free block false.

(** The inner loop of [get_free_metadata_block]: [METADATA_FOR_EACH] steps
    through [block->next].  [None] is the loop running out; [Some b] is the
    [return b] inside. *)
Fixpoint scan_chain (fuel : nat) (size_ : Z) (block : ptr) : M (option ptr) :=
  match fuel with
  | O => raise Diverge
  | S fuel' =>
      if block =? nullptr then ret None
      else
        let* b := load block in
        if size_ <=? size b then
          take_block block size_ ;;
          ret (Some block)
        else scan_chain fuel' size_ (next b)
  end.

(** The outer loop: [n] buckets are left to visit, starting at [i]. *)
Fixpoint scan_bins (n : nat) (size_ : Z) (i : Z) : M ptr :=
  match n with
  | O => ret nullptr
  | S n' =>
      let* head := get_bin i in
      if head =? nullptr then scan_bins n' size_ (i + 1)
      else
        let* fuel := walk_fuel in
        let* found := scan_chain fuel size_ head in
        match found with
        | Some b => ret b
        | None => scan_bins n' size_ (i + 1)
        end
  end.

Definition get_free_metadata_block (size_ : Z) : M ptr :=
  let i := to_int (GET_BIN_ENTRY size_) in
  scan_bins (Z.to_nat (BIN_SIZE - i)) size_ i.

(** ** Public operations *)

Definition smalloc (size_ : Z) : M ptr :=
  if (MAX_MALLOC_4_SIZE <? size_) || (size_ =? 0) then ret nullptr
  else
    let size_ := GET_SIZE_WITH_ALIGNMENT size_ in
    if MIN_KB_BLOCK <=? size_ then
      (* too big for sbrk, use mmap *)
      let* r := mmap (wrap64 (size_ + sizeof_metadata)) in
      if r =? MAP_FAILED then ret nullptr
      else
        INIT_METADATA r size_ false nullptr nullptr nullptr nullptr ;;
        insert_to_metadata_list r mmap_list ;;
        ret (GET_PTR_FROM_METADATA r)
    else
      (* try to use a freed block *)
      let* freed := get_free_metadata_block size_ in
      if negb (freed =? nullptr) then ret (GET_PTR_FROM_METADATA freed)
      else
        (* try to expand the last block *)
        let* head := gets metadata_head in
        let* last := get_last_metadata_block head in
        let* last_free := is_free_at last in
        if last_free then
          let* l := load last in
          let* r := sbrk (wrap64 (GET_SIZE_WITH_ALIGNMENT size_ - size l)) in
          if r =? SBRK_FAIL then ret nullptr
          else
            (if bin_prev l =? nullptr then
               set_bin (GET_BIN_ENTRY (size l)) (bin_next l)
             else
               set_bin_next (bin_prev l) (bin_next l) ;;
               let* l' := load last in
               when negb (bin_next l' =? nullptr) then
                 set_bin_prev (bin_next l') (bin_prev l')) ;;
            set_is_free last false ;;
            set_size last size_ ;;
            ret (GET_PTR_FROM_METADATA last)
        else
          let* r := sbrk (wrap64 (size_ + sizeof_metadata)) in
          if r =? SBRK_FAIL then ret nullptr
          else
            INIT_METADATA r size_ false nullptr nullptr nullptr nullptr ;;
            insert_to_metadata_list r brk_list ;;
            ret (GET_PTR_FROM_METADATA r).

Definition scalloc (num size_ : Z) : M ptr :=
  let* res := smalloc (wrap64 (num * size_)) in
  if negb (res =? nullptr) then
    memset res 0 (wrap64 (num * size_)) ;;
    ret res
  else ret nullptr.

Definition sfree (p : ptr) : M unit :=
  if p =? nullptr then ret tt
  else
    let to_free := GET_METADATA_FROM_PTR p in
    let* m := load to_free in
    if MIN_KB_BLOCK <=? size m then
      (* mmap block *)
      remove_from_list to_free mmap_list ;;
      let* m' := load to_free in
      munmap to_free (wrap64 (size m' + sizeof_metadata))
    else
      (* sbrk block *)
      insert_block_to_bin to_free ;;
      (* try to merge with next *)
      (let* m1 := load to_free in
       let* next_free := is_free_at (next m1) in
       when next_free then
         let temp := next m1 in
         let* t := load temp in
         set_next to_free (next t) ;;
         (when negb (next t =? nullptr) then set_prev (next t) to_free) ;;
         remove_from_bin temp ;;
         remove_from_bin to_free ;;
         let* m2 := load to_free in
         let* t2 := load temp in
         set_size to_free (wrap64 (size m2 + wrap64 (size t2 + sizeof_metadata))) ;;
         insert_block_to_bin to_free) ;;
      (* try to merge with prev *)
      (let* m3 := load to_free in
       let* prev_free := is_free_at (prev m3) in
       when prev_free then
         let temp := prev m3 in
         set_next temp (next m3) ;;
         (let* m4 := load to_free in
          when negb (next m4 =? nullptr) then set_prev (next m4) temp) ;;
         remove_from_bin temp ;;
         remove_from_bin to_free ;;
         let* t5 := load temp in
         let* m5 := load to_free in
         set_size temp (wrap64 (size t5 + wrap64 (size m5 + sizeof_metadata))) ;;
         insert_block_to_bin temp) ;;
      set_is_free to_free true.

(** The block that follows each [cut_block] of [srealloc] (lines 658-671,
    694-707, 729-742 and 767-780 of the source, the same statements four
    times): when the block after [p] and the one after that are both free,
    the first absorbs the second. *)
Definition merge_after_cut (p : ptr) : M unit :=
  let* m := load p in
  let* f1 := is_free_at (next m) in
  let* f2 := (if f1 then let* b := load (next m) in is_free_at (next b) else ret false) in
  when f2 then
    let base := next m in
    let* b := load base in
    let base_next := next b in
    remove_from_bin base ;;
    remove_from_bin base_next ;;
    let* bn := load base_next in
    set_next base (next bn) ;;
    (when negb (next bn =? nullptr) then set_prev (next bn) base) ;;
    let* b' := load base in
    let* bn' := load base_next in
    set_size base (wrap64 (size b' + wrap64 (sizeof_metadata + size bn'))) ;;
    insert_block_to_bin base.

(** The conditions of the three merging branches, with the source's
    short-circuit evaluation. *)
Definition can_merge_prev (old_ptr : ptr) (size_ : Z) : M bool :=
  let* o := load old_ptr in
  let* f := is_free_at (prev o) in
  if f then let* p := load (prev o) in ret (size_ <=? wrap64 (size p + size o))
  else ret false.

Definition can_merge_next (old_ptr : ptr) (size_ : Z) : M bool :=
  let* o := load old_ptr in
  let* f := is_free_at (next o) in
  if f then let* n := load (next o) in ret (size_ <=? wrap64 (size n + size o))
  else ret false.

Definition can_merge_both (old_ptr : ptr) (size_ : Z) : M bool :=
  let* o := load old_ptr in
  let* fp := is_free_at (prev o) in
  if fp then
    let* fn := is_free_at (next o) in
    if fn then
      let* p := load (prev o) in
      let* n := load (next o) in
      ret (size_ <=? wrap64 (wrap64 (size p + size n) + size o))
    else ret false
  else ret false.

Definition srealloc (oldp : ptr) (size_ : Z) : M ptr :=
  if (MAX_MALLOC_4_SIZE <? size_) || (size_ =? 0) then ret nullptr
  else
    let size_ := GET_SIZE_WITH_ALIGNMENT size_ in
    if oldp =? nullptr then smalloc size_
    else
      let old_ptr := GET_METADATA_FROM_PTR oldp in
      let* o := load old_ptr in
      if MIN_KB_BLOCK <=? size o then
        (* oldp is mmap *)
        let* r := smalloc size_ in
        if r =? nullptr then ret nullptr
        else
          let* o1 := load old_ptr in
          memmove r oldp (MMIN (size o1) size_) ;;
          sfree oldp ;;
          ret r
      else if size_ <=? size o then
        (* reuse the current block without any merging *)
        (when IS_LARGE_ENOUGH (size o) size_ then
           (cut_block old_ptr size_ true ;;
            merge_after_cut old_ptr)) ;;
        ret oldp
      else
        let* c1 := can_merge_prev old_ptr size_ in
        if c1 then
          (* merge with the adjacent block with the lower address *)
          let r := prev o in
          remove_from_bin r ;;
          set_is_free r false ;;
          let* o1 := load old_ptr in
          set_next r (next o1) ;;
          (let* o2 := load old_ptr in
           when negb (next o2 =? nullptr) then set_prev (next o2) r) ;;
          let* rm := load r in
          let* o3 := load old_ptr in
          set_size r (wrap64 (size rm + wrap64 (size o3 + sizeof_metadata))) ;;
          let* o4 := load old_ptr in
          memmove (GET_PTR_FROM_METADATA r) oldp (MMIN size_ (size o4)) ;;
          let* rm' := load r in
          (when IS_LARGE_ENOUGH (size rm') size_ then
             (cut_block r size_ false ;;
              merge_after_cut r)) ;;
          ret (GET_PTR_FROM_METADATA r)
        else
        let* c2 := can_merge_next old_ptr size_ in
        if c2 then
          (* merge with the adjacent block with the higher address *)
          let to_merge := next o in
          remove_from_bin to_merge ;;
          set_is_free old_ptr false ;;
          let* t := load to_merge in
          set_next old_ptr (next t) ;;
          (let* t1 := load to_merge in
           when negb (next t1 =? nullptr) then set_prev (next t1) old_ptr) ;;
          let* o1 := load old_ptr in
          let* t2 := load to_merge in
          set_size old_ptr (wrap64 (size o1 + wrap64 (size t2 + sizeof_metadata))) ;;
          let* o2 := load old_ptr in
          (when IS_LARGE_ENOUGH (size o2) size_ then
             (cut_block old_ptr size_ false ;;
              merge_after_cut old_ptr)) ;;
          ret (GET_PTR_FROM_METADATA old_ptr)
        else
        let* c3 := can_merge_both old_ptr size_ in
        if c3 then
          (* merge all three adjacent blocks *)
          let prev_ := prev o in
          let next_ := next o in
          remove_from_bin prev_ ;;
          remove_from_bin next_ ;;
          set_is_free prev_ false ;;
          let* n := load next_ in
          set_next prev_ (next n) ;;
          (let* n1 := load next_ in
           when negb (next n1 =? nullptr) then set_prev (next n1) prev_) ;;
          let* p1 := load prev_ in
          let* o1 := load old_ptr in
          let* n2 := load next_ in
          set_size prev_ (wrap64 (size p1 +
             wrap64 (wrap64 (size o1 + size n2) + wrap64 (2 * sizeof_metadata)))) ;;
          let* o2 := load old_ptr in
          memmove (GET_PTR_FROM_METADATA prev_) oldp (MMIN size_ (size o2)) ;;
          let* p2 := load prev_ in
          (when IS_LARGE_ENOUGH (size p2) size_ then
             (cut_block prev_ size_ false ;;
              merge_after_cut prev_)) ;;
          ret (GET_PTR_FROM_METADATA prev_)
        else if next o =? nullptr then
          (* expand the last block *)
          let* pf := is_free_at (prev o) in
          if pf then
            (* take the free space before also *)
            let r := prev o in
            remove_from_bin r ;;
            set_is_free r false ;;
            let* o1 := load old_ptr in
            set_next r (next o1) ;;
            (let* o2 := load old_ptr in
             when negb (next o2 =? nullptr) then set_prev (next o2) r) ;;
            let* rm := load r in
            let* o3 := load old_ptr in
            set_size r (wrap64 (size rm + wrap64 (size o3 + sizeof_metadata))) ;;
            let* rm' := load r in
            let* m := sbrk (wrap64 (size_ - size rm')) in
            if m =? SBRK_FAIL then ret nullptr
            else
              set_size r size_ ;;
              let* o4 := load old_ptr in
              memmove (GET_PTR_FROM_METADATA r) oldp (size o4) ;;
              ret (GET_PTR_FROM_METADATA r)
          else
            let* r := sbrk (wrap64 (size_ - size o)) in
            if r =? SBRK_FAIL then ret nullptr
            else
              set_size old_ptr size_ ;;
              ret oldp
        else
          (* allocate a new block *)
          let* r := smalloc size_ in
          let* o1 := load old_ptr in
          memmove r oldp (MMIN size_ (size o1)) ;;
          sfree oldp ;;
          ret r.

(** ** Introspection counters *)

(** One [METADATA_FOR_EACH] loop adding [step block] to a [size_t] total. *)
Fixpoint count_loop (fuel : nat) (step : MallocMetadata -> Z) (block : ptr) (result : Z) : M Z :=
  match fuel with
  | O => raise Diverge
  | S fuel' =>
      if block =? nullptr then ret result
      else
        let* b := load block in
        count_loop fuel' step (next b) (wrap64 (result + step b))
  end.

Definition METADATA_FOR_EACH (step : MallocMetadata -> Z) (mt_head : ptr) (result : Z) : M Z :=
  let* fuel := walk_fuel in
  count_loop fuel step mt_head result.

Definition _size_meta_data : M Z := ret sizeof_metadata.

Definition _num_free_blocks : M Z :=
  let* head := gets metadata_head in
  METADATA_FOR_EACH (fun b => if is_free b then 1 else 0) head 0.

Definition _num_free_bytes : M Z :=
  let* head := gets metadata_head in
  METADATA_FOR_EACH (fun b => if is_free b then size b else 0) head 0.

Definition _num_allocated_blocks : M Z :=
  let* head := gets metadata_head in
  let* result := METADATA_FOR_EACH (fun _ => 1) head 0 in
  let* mhead := gets mmap_metadata_head in
  METADATA_FOR_EACH (fun _ => 1) mhead result.

Definition _num_allocated_bytes : M Z :=
  let* head := gets metadata_head in
  let* result := METADATA_FOR_EACH (fun b => size b) head 0 in
  let* mhead := gets mmap_metadata_head in
  METADATA_FOR_EACH (fun b => size b) mhead result.

Definition _num_meta_data_bytes : M Z :=
  let* head := gets metadata_head in
  let* result := METADATA_FOR_EACH (fun _ => sizeof_metadata) head 0 in
  let* mhead := gets mmap_metadata_head in
  METADATA_FOR_EACH (fun _ => sizeof_metadata) mhead result.

(** ** Client programs

    A program is a sequence of calls.  It may free or reallocate only what an
    earlier call handed to it and it has not given back, and it writes only
    into payloads it holds: [owned] is the list of those payload pointers. *)

Inductive call :=
| Smalloc (size_ : Z)
| Scalloc (num size_ : Z)
| Srealloc (oldp : ptr) (size_ : Z)
| Sfree (p : ptr)
| Poke (p : ptr) (offset byte : Z).   (* [((char* )p)[offset] = byte] *)

Definition holds (owned : list ptr) (p : ptr) : bool :=
  bool_decide (p ∈ owned).

Fixpoint release (p : ptr) (owned : list ptr) : list ptr :=
  match owned with
  | [] => []
  | q :: rest => if p =? q then rest else q :: release p rest
  end.

Definition payload_size (s : state) (p : ptr) : Z :=
  match heap s !! GET_METADATA_FROM_PTR p with
  | Some m => size m
  | None => 0
  end.

(** May the program make this call now?  Sizes are [size_t] values. *)
Definition permitted (s : state) (owned : list ptr) (c : call) : bool :=
  match c with
  | Smalloc n => (0 <=? n) && (n <? 2 ^ 64)
  | Scalloc k n => (0 <=? k) && (k <? 2 ^ 64) && (0 <=? n) && (n <? 2 ^ 64)
  | Srealloc p n => ((p =? nullptr) || holds owned p) && (0 <=? n) && (n <? 2 ^ 64)
  | Sfree p => (p =? nullptr) || holds owned p
  | Poke p off b =>
      holds owned p && (0 <=? off) && (off <? payload_size s p) && (0 <=? b) && (b <? 256)
  end.

(** The call itself, and the pointer it returns ([nullptr] for [void]). *)
Definition exec (c : call) : M ptr :=
  match c with
  | Smalloc n => smalloc n
  | Scalloc k n => scalloc k n
  | Srealloc p n => srealloc p n
  | Sfree p => sfree p ;; ret nullptr
  | Poke p off b =>
      modify (fun s => with_mem (fun a => if a =? p + off then b else mem s a) s) ;;
      ret nullptr
  end.

Definition owned_after (c : call) (r : ptr) (owned : list ptr) : list ptr :=
  match c with
  | Smalloc _ | Scalloc _ _ => if r =? nullptr then owned else r :: owned
  | Srealloc p _ => if r =? nullptr then owned else r :: release p owned
  | Sfree p => release p owned
  | Poke _ _ _ => owned
  end.

Inductive outcome :=
| Finished (returned : list ptr) (s : state) (owned : list ptr)
| Crashed (returned : list ptr) (f : fault)
| Misused (returned : list ptr).

(** Runs a program; [returned] collects what the calls returned, latest first. *)
Fixpoint run (prog : list call) (returned : list ptr) (s : state) (owned : list ptr) : outcome :=
  match prog with
  | [] => Finished returned s owned
  | c :: rest =>
      if permitted s owned c then
        match exec c s with
        | Ok (r, s') => run rest (r :: returned) s' (owned_after c r owned)
        | Fault f => Crashed returned f
        end
      else Misused returned
  end.

(** States a well-behaved program can bring the allocator to. *)
Inductive reachable : state -> list ptr -> Prop :=
| reachable_initial brk0 limit answers :
    0 < brk0 -> brk0 mod ADDRESS_SIZE = 0 ->
    reachable (initial_state brk0 limit answers) []
| reachable_step s owned c r s' :
    reachable s owned ->
    permitted s owned c = true ->
    exec c s = Ok (r, s') ->
    reachable s' (owned_after c r owned).

Definition final_state (o : outcome) : state :=
  match o with
  | Finished _ s _ => s
  | _ => initial_state 0 0 []
  end.

Definition final_owned (o : outcome) : list ptr :=
  match o with
  | Finished _ _ owned => owned
  | _ => []
  end.

Definition finished (o : outcome) : bool :=
  match o with
  | Finished _ _ _ => true
  | _ => false
  end.

(** ** Observations on a state *)

(** The blocks met from [p] by following [link] down to [nullptr]; [None]
    when the links lead to an address without a header or never end. *)
Fixpoint walk (link : MallocMetadata -> ptr) (fuel : nat) (h : gmap Z MallocMetadata)
    (p : ptr) : option (list ptr) :=
  match fuel with
  | O => None
  | S fuel' =>
      if p =? nullptr then Some []
      else match h !! p with
           | Some m => cons p <$> walk link fuel' h (link m)
           | None => None
           end
  end.

(** The same walk through [bin_next], which also checks that every block's
    [bin_prev] is the block met before it ([pv] for the first). *)
Fixpoint walk_bin (fuel : nat) (h : gmap Z MallocMetadata) (pv p : ptr) : option (list ptr) :=
  match fuel with
  | O => None
  | S fuel' =>
      if p =? nullptr then Some []
      else match h !! p with
           | Some m => if bin_prev m =? pv then cons p <$> walk_bin fuel' h p (bin_next m)
                       else None
           | None => None
           end
  end.

Definition fuel_of (s : state) : nat := S (base.size (heap s)).

Definition bin_head (s : state) (i : nat) : ptr := default nullptr (free_block_bin s !! i).

(** The blocks linked in bucket [i] (none when the list is broken). *)
Definition bucket (s : state) (i : nat) : list ptr :=
  default [] (walk bin_next (fuel_of s) (heap s) (bin_head s i)).

(** Bucket [i] as a sound doubly linked list. *)
Definition bucket_dll (s : state) (i : nat) : option (list ptr) :=
  walk_bin (fuel_of s) (heap s) nullptr (bin_head s i).

Definition brk_chain (s : state) : option (list ptr) :=
  walk next (fuel_of s) (heap s) (metadata_head s).

Definition mmap_chain (s : state) : option (list ptr) :=
  walk next (fuel_of s) (heap s) (mmap_metadata_head s).

Definition brk_blocks (s : state) : list ptr := default [] (brk_chain s).
Definition mmap_blocks (s : state) : list ptr := default [] (mmap_chain s).

(** In how many buckets is [b] linked? *)
Definition buckets_holding (s : state) (b : ptr) : nat :=
  length (filter (fun i => b ∈ bucket s i) (seq 0 (Z.to_nat BIN_SIZE))).

Definition free_at (s : state) (b : ptr) : bool :=
  match heap s !! b with
  | Some m => is_free m
  | None => false
  end.

(** Invariant 4 of the data model: a block of the brk chain is linked in
    exactly one bucket when it is free and in none when it is in use; a
    mapped block is in none. *)
Definition bin_invariant (s : state) : bool :=
  forallb (fun b => Bool.eqb (Nat.eqb (buckets_holding s b) 1) (free_at s b)) (brk_blocks s)
  && forallb (fun b => Nat.eqb (buckets_holding s b) 0) (mmap_blocks s).

(** Invariant 3: no block of the brk chain is free together with its
    successor. *)
Definition no_adjacent_free (s : state) : bool :=
  forallb (fun b => match heap s !! b with
                    | Some m => negb (is_free m && free_at s (next m))
                    | None => true
                    end) (brk_blocks s).

(** A stretch of a bucket: the blocks of [l] are linked from [p] to [q]
    through [bin_next], [bin_prev] points back along the same way, and the
    first block's [bin_prev] is [pv].  [walk_bin] computes the stretch from
    the bucket head to [nullptr]. *)
Inductive dseg (h : gmap Z MallocMetadata) : ptr -> ptr -> list ptr -> ptr -> Prop :=
| dseg_nil pv p : dseg h pv p [] p
| dseg_cons pv p m l q :
    p <> nullptr -> h !! p = Some m -> bin_prev m = pv ->
    dseg h p (bin_next m) l q ->
    dseg h pv p (p :: l) q.

(** The last block of a stretch, [pv] for an empty one. *)
Definition lastp (pv : Z) (l : list Z) : Z := default pv (last l).

(** The fields of a header that the address chain and the caller see; the
    bin links are the rest. *)
Definition addr_fields (m : MallocMetadata) : Z * bool * ptr * ptr :=
  (size m, is_free m, next m, prev m).

(** Two heaps that differ in bin links only. *)
Definition bin_only (h h' : gmap Z MallocMetadata) : Prop :=
  forall p, addr_fields <$> (h !! p) = addr_fields <$> (h' !! p).

(** All blocks linked in some bucket, bucket by bucket. *)
Definition binned (s : state) : list ptr :=
  concat (map (bucket s) (seq 0 (Z.to_nat BIN_SIZE))).

(** The bin array is sound when it has its 128 entries, every bucket is a
    doubly linked list that ends, and no block is linked twice. *)
Definition bins_sound (s : state) : bool :=
  Nat.eqb (length (free_block_bin s)) (Z.to_nat BIN_SIZE)
  && forallb (fun j => bool_decide (is_Some (bucket_dll s j))) (seq 0 (Z.to_nat BIN_SIZE))
  && bool_decide (NoDup (binned s)).

(** What inserting the block [nb] into bucket [k], whose blocks were [l],
    leaves: the bucket is sound and holds [nb] somewhere among the old
    blocks, in their old order; only bin links and that bucket's head have
    changed. *)
Definition inserted_at (nb : ptr) (k : nat) (s s' : state) (l : list ptr) : Prop :=
  (exists la lb, l = la ++ lb /\
     dseg (heap s') nullptr (bin_head s' k) (la ++ nb :: lb) nullptr) /\
  bin_only (heap s) (heap s') /\
  (forall x, x ∉ nb :: l -> heap s' !! x = heap s !! x) /\
  (forall j, j <> k -> free_block_bin s' !! j = free_block_bin s !! j) /\
  length (free_block_bin s') = Z.to_nat BIN_SIZE.

(** What the fresh-growth path of [smalloc] makes of a state: a new block of
    [size_] bytes at the old break, linked after the old last block [b] of
    the brk chain, or made the head when there is none ([b] null). *)
Definition grown (s : state) (size_ : Z) (b : ptr) : state :=
  let r := brk s in
  let h := match heap s !! b with
           | Some mb => if b =? nullptr then heap s else <[b := with_next r mb]> (heap s)
           | None => heap s
           end in
  mkState (<[r := mkMeta size_ false nullptr b nullptr nullptr]> h)
          (if b =? nullptr then r else metadata_head s)
          (mmap_metadata_head s) (free_block_bin s) (mem s)
          (brk s + (size_ + sizeof_metadata)) (brk_limit s) (mmap_answers s).

(** ** Scenarios *)

Module Scenario.

(** The break starts at 4096; the kernel grants it up to [limit]. *)
Definition boot (limit : Z) : state := initial_state 4096 limit [].

Definition after (limit : Z) (prog : list call) : outcome := run prog [] (boot limit) [].

(** Three free blocks of 16, 24 and 32 bytes at 4096, 4216 and 4344, kept
    apart by blocks in use: bucket 0 links them in this order. *)
Definition three_free : list call :=
  [Smalloc 16; Smalloc 8; Smalloc 24; Smalloc 8; Smalloc 32; Smalloc 8;
   Sfree 4144; Sfree 4264; Sfree 4392].

(** A free block of 16 bytes at 4096 before a block in use of 24 bytes at
    4160 (payload 4208). *)
Definition free_then_used : list call :=
  [Smalloc 16; Smalloc 24; Sfree 4144].

(** Two blocks of 16 bytes, the first one free. *)
Definition tail_after_free : list call :=
  [Smalloc 16; Smalloc 16; Sfree 4144].

(** Two blocks of 16 bytes in use. *)
Definition two_used : list call :=
  [Smalloc 16; Smalloc 16].

(** Two neighbours of 100000 bytes, the first one free. *)
Definition two_big : list call :=
  [Smalloc 100000; Smalloc 100000; Sfree 4144].

(** A free block of 16 bytes, a block in use of 1000 bytes (payload 4208)
    and a free block of 24 bytes at 5208. *)
Definition used_between_free : list call :=
  [Smalloc 16; Smalloc 1000; Smalloc 24; Sfree 4144; Sfree 5256].


(** A free block of 1000 bytes at 4096 before a block in use. *)
Definition big_free : list call :=
  [Smalloc 1000; Smalloc 8; Sfree 4144].

(** A free block of 1272 bytes at 4096 before two blocks in use, with a
    bucket head left behind: the block of 200 bytes at 5168 was linked in
    bucket 0 behind the last block of the heap, [smalloc(2000)] extended
    that last block in place, and [sfree(4144)] merged the block at 5168
    into the one at 4096; [free_block_bin[0]] still points at 5168. *)
Definition stale_bucket_head : list call :=
  [Smalloc 1024; Smalloc 200; Smalloc 8; Smalloc 100; Sfree 5216; Sfree 5520;
   Smalloc 2000; Sfree 4144].

(** The state a call leaves (the boot state when it faults). *)
Definition state_of {A} (r : result (A * state)) : state :=
  match r with
  | Ok (_, s) => s
  | Fault _ => boot 0
  end.

(** Two blocks of 16 bytes in use, at 4096 and 4160; the break is 4224. *)
Definition two_in_use : state := final_state (after 1000000 two_used).

(** A free block of 1000 bytes at 4096, head of bucket 0, before a block
    in use at 5144. *)
Definition one_big_free : state := final_state (after 1000000 big_free).

(** A fresh allocator whose kernel will map at 1048576. *)
Definition mapping_granted : state := initial_state 4096 1000000 [1048576].

(** A fresh allocator whose kernel will map at 1048576 and then at
    2097152. *)
Definition two_mappings_granted : state := initial_state 4096 1000000 [1048576; 2097152].

End Scenario.
(** * What the properties below are stated with *)

(** The head of either list of blocks, and the blocks that following [next]
    from it gives. *)
Definition head_of (ls : list_ref) (s : state) : ptr :=
  match ls with
  | brk_list => metadata_head s
  | mmap_list => mmap_metadata_head s
  end.

Definition chain_of (ls : list_ref) (s : state) : option (list ptr) :=
  walk next (fuel_of s) (heap s) (head_of ls s).

Definition other_list (ls : list_ref) : list_ref :=
  match ls with
  | brk_list => mmap_list
  | mmap_list => brk_list
  end.

(** Two blocks in use and a header at 5000 that is in no list yet, with
    stale links. *)
Definition two_and_a_loose_block : state :=
  with_heap (<[5000 := mkMeta 8 false 77 78 0 0]> (heap Scenario.two_in_use)) Scenario.two_in_use.

(** The payload size of a block, the sum over a list of blocks, and the free
    blocks of a list. *)
Definition block_size (s : state) (b : ptr) : Z :=
  match heap s !! b with
  | Some m => size m
  | None => 0
  end.

Definition total_size (s : state) (l : list ptr) : Z :=
  foldr (fun b acc => block_size s b + acc) 0 l.

Definition free_blocks (s : state) (l : list ptr) : list ptr :=
  filter (fun b => free_at s b = true) l.

(** The address chain as a doubly linked list: the walk through [next] that
    also checks every block's [prev] ([pv] for the first block). *)
Fixpoint walk_chain (fuel : nat) (h : gmap Z MallocMetadata) (pv p : ptr) : option (list ptr) :=
  match fuel with
  | O => None
  | S fuel' =>
      if p =? nullptr then Some []
      else match h !! p with
           | Some m => if prev m =? pv then cons p <$> walk_chain fuel' h p (next m)
                       else None
           | None => None
           end
  end.

Definition chain_dll (ls : list_ref) (s : state) : option (list ptr) :=
  walk_chain (fuel_of s) (heap s) nullptr (head_of ls s).

(** A stretch of an address chain, as [dseg] is a stretch of a bucket. *)
Inductive cseg (h : gmap Z MallocMetadata) : ptr -> ptr -> list ptr -> ptr -> Prop :=
| cseg_nil pv p : cseg h pv p [] p
| cseg_cons pv p m l q :
    p <> nullptr -> h !! p = Some m -> prev m = pv ->
    cseg h p (next m) l q ->
    cseg h pv p (p :: l) q.

(** The fields of a header that are not links of the address chain. *)
Definition other_fields (m : MallocMetadata) : Z * bool * ptr * ptr :=
  (size m, is_free m, bin_next m, bin_prev m).

(** A mapped chain of three blocks; the middle one goes. *)
Definition three_mapped : state :=
  mkState {[ 1048576 := mkMeta 200000 false 2097152 0 0 0;
             2097152 := mkMeta 300000 false 3145728 1048576 0 0;
             3145728 := mkMeta 400000 false 0 2097152 0 0 ]}
          nullptr 1048576 (replicate (Z.to_nat BIN_SIZE) nullptr)
          (fun _ => 0) 4096 1000000 [].

(** What [insert_block_to_bin] makes of bucket [k] when it is given the block
    [nb] with header [mn]: the blocks [la] before it are smaller, the block
    after it (the first of [lb]) is at least as large; of [nb]'s other
    fields only [is_free] can change, and it does when [nb] is appended
    after the last block; of the other blocks only bin links change. *)
Definition placed_at (nb : ptr) (mn : MallocMetadata) (k : nat) (s s' : state)
    (la lb : list ptr) : Prop :=
  dseg (heap s') nullptr (bin_head s' k) (la ++ nb :: lb) nullptr /\
  (forall x, x ∈ la -> block_size s x < size mn) /\
  (forall b, head lb = Some b -> size mn <= block_size s b) /\
  (exists m', heap s' !! nb = Some m' /\
     size m' = size mn /\ next m' = next mn /\ prev m' = prev mn /\
     is_free m' = is_free mn || (bool_decide (lb = []) && negb (bool_decide (la = [])))) /\
  (forall x, x <> nb -> addr_fields <$> (heap s' !! x) = addr_fields <$> (heap s !! x)) /\
  (forall x, x ∉ nb :: la ++ lb -> heap s' !! x = heap s !! x) /\
  (forall j, j <> k -> free_block_bin s' !! j = free_block_bin s !! j) /\
  length (free_block_bin s') = Z.to_nat BIN_SIZE /\
  metadata_head s' = metadata_head s /\ mmap_metadata_head s' = mmap_metadata_head s /\
  mem s' = mem s /\ brk s' = brk s /\ brk_limit s' = brk_limit s /\
  mmap_answers s' = mmap_answers s.

(** Ascending payload sizes. *)
Definition sorted_by_size (s : state) (l : list ptr) : Prop :=
  StronglySorted (fun x y => block_size s x <= block_size s y) l.

(** Heaps that agree on the address fields of every block but [nb]. *)
Definition same_but (nb : ptr) (h h' : gmap Z MallocMetadata) : Prop :=
  forall x, x <> nb -> addr_fields <$> (h' !! x) = addr_fields <$> (h !! x).


(** A computation keeps a relation between the state it starts in and the
    state it returns in. *)
Definition keeps (R : state -> state -> Prop) {A} (m : M A) : Prop :=
  forall s a s', m s = Ok (a, s') -> R s s'.

(** What the calls that take no memory from the system leave alone. *)
Definition same_system (s s' : state) : Prop :=
  brk s' = brk s /\ brk_limit s' = brk_limit s /\
  mmap_answers s' = mmap_answers s /\ metadata_head s' = metadata_head s /\
  length (free_block_bin s') = length (free_block_bin s).

(** The head of the brk chain, once set, stays. *)
Definition head_stays (s s' : state) : Prop :=
  metadata_head s <> nullptr -> metadata_head s' = metadata_head s.

(** The allocator's own state: everything but the answers the kernel has
    still to give. *)
Definition same_allocator (s s' : state) : Prop :=
  heap s' = heap s /\ metadata_head s' = metadata_head s /\
  mmap_metadata_head s' = mmap_metadata_head s /\
  free_block_bin s' = free_block_bin s /\ mem s' = mem s /\
  brk s' = brk s /\ brk_limit s' = brk_limit s.

(** The kernel refuses to move the break past 4224. *)
Definition break_exhausted : state :=
  final_state (Scenario.after 4224 Scenario.two_used).

(** A multiple of the pointer width. *)
Definition aligned (z : Z) : Prop := z mod ADDRESS_SIZE = 0.

(** Every header sits at an aligned address and holds an aligned size, the
    break is aligned, and so is every address the kernel will map at. *)
Definition aligned_state (s : state) : Prop :=
  (forall p m, heap s !! p = Some m -> aligned p /\ aligned (size m)) /\
  aligned (brk s) /\
  (forall a, a ∈ mmap_answers s -> a = MAP_FAILED \/ aligned a).

(** A computation started in an aligned state returns in one, with a result
    that satisfies [Q]. *)
Definition preserves {A} (m : M A) (Q : A -> Prop) : Prop :=
  forall s a s', aligned_state s -> m s = Ok (a, s') -> aligned_state s' /\ Q a.

(** Two blocks of 16 bytes, the last one free. *)
Definition free_at_the_break : state :=
  final_state (Scenario.after 1000000 [Smalloc 16; Smalloc 16; Sfree 4208]).

(** A free block of 16 bytes at 4096, the head of bucket 0, before a block
    in use of 100 bytes. *)
Definition freed_once : state :=
  final_state (Scenario.after 1000000 [Smalloc 16; Smalloc 100; Sfree 4144]).

(** A mapped block of 200000 bytes at 1048576; the kernel will map at
    2097152 next. *)
Definition one_mapped : state :=
  Scenario.state_of (smalloc 200000 Scenario.two_mappings_granted).

(** Two blocks of 16 bytes in use at 4096 and 4160; the kernel will map at
    1048576. *)
Definition two_in_use_and_a_mapping : state :=
  final_state (run Scenario.two_used [] (initial_state 4096 1000000 [1048576]) []).

(** Two blocks of 16 bytes in use at 4096 and 4160; the break may rise to
    200000000. *)
Definition two_in_use_and_room : state :=
  final_state (Scenario.after 200000000 Scenario.two_used).



(** * Properties *)

(** ** Machine arithmetic *)

Lemma wrap64_small z : 0 <= z < 2 ^ 64 -> wrap64 z = z.
Proof. intros H. unfold wrap64. now apply Z.mod_small. Qed.

Lemma wrap64_range z : 0 <= wrap64 z < 2 ^ 64.
Proof. unfold wrap64. apply Z.mod_pos_bound. lia. Qed.

Lemma to_int_small z : 0 <= z < 2 ^ 31 -> to_int z = z.
Proof.
  intros H. unfold to_int.
  rewrite Z.mod_small by lia.
  destruct (Z.ltb_spec z (2 ^ 31)); lia.
Qed.

Lemma to_intptr_small z : 0 <= z < 2 ^ 63 -> to_intptr z = z.
Proof.
  intros H. unfold to_intptr. rewrite wrap64_small by lia.
  destruct (Z.ltb_spec z (2 ^ 63)); lia.
Qed.

(** Rounding up to the pointer width, without the modular noise. *)
Lemma aligned_spec n :
  0 <= n <= MAX_MALLOC_4_SIZE ->
  GET_SIZE_WITH_ALIGNMENT n = 8 * ((n + 7) / 8).
Proof.
  intros H. unfold GET_SIZE_WITH_ALIGNMENT, ADDRESS_SIZE, MAX_MALLOC_4_SIZE in *.
  assert (Hm : 0 <= n mod 8 < 8) by (apply Z.mod_pos_bound; lia).
  rewrite (wrap64_small (8 - n mod 8)) by lia.
  assert (Hm' : 0 <= (8 - n mod 8) mod 8 < 8) by (apply Z.mod_pos_bound; lia).
  rewrite wrap64_small by lia.
  pose proof (Z.div_mod n 8 ltac:(lia)) as Hn.
  destruct (Z.eq_dec (n mod 8) 0) as [E|E].
  - rewrite E in *. change ((8 - 0) mod 8) with 0.
    replace (n + 7) with (7 + (n / 8) * 8) by lia.
    rewrite Z.div_add by lia. change (7 / 8) with 0. lia.
  - rewrite (Z.mod_small (8 - n mod 8)) by lia.
    replace (n + 7) with ((n mod 8 - 1) + (n / 8 + 1) * 8) by lia.
    rewrite Z.div_add by lia. rewrite (Z.div_small (n mod 8 - 1)) by lia. lia.
Qed.

Lemma aligned_bounds n :
  0 <= n <= MAX_MALLOC_4_SIZE ->
  n <= GET_SIZE_WITH_ALIGNMENT n < n + 8 /\ GET_SIZE_WITH_ALIGNMENT n mod 8 = 0.
Proof.
  intros H. rewrite aligned_spec by exact H.
  pose proof (Z.div_mod (n + 7) 8 ltac:(lia)) as Hd.
  pose proof (Z.mod_pos_bound (n + 7) 8 ltac:(lia)) as Hm.
  split; [lia|]. rewrite Z.mul_comm. apply Z.mod_mul. lia.
Qed.

Lemma aligned_idempotent n :
  0 <= n <= MAX_MALLOC_4_SIZE ->
  GET_SIZE_WITH_ALIGNMENT (GET_SIZE_WITH_ALIGNMENT n) = GET_SIZE_WITH_ALIGNMENT n.
Proof.
  intros H. destruct (aligned_bounds n H) as [Hb Hm].
  set (a := GET_SIZE_WITH_ALIGNMENT n) in *.
  unfold GET_SIZE_WITH_ALIGNMENT at 1. unfold ADDRESS_SIZE, MAX_MALLOC_4_SIZE in *.
  rewrite Hm. change (wrap64 (8 - 0) mod 8) with 0.
  rewrite Z.add_0_r. apply wrap64_small. lia.
Qed.

(** ** Programs and reachable states *)

Lemma run_reachable prog : forall returned s owned returned' s' owned',
  reachable s owned ->
  run prog returned s owned = Finished returned' s' owned' ->
  reachable s' owned'.
Proof.
  induction prog as [|c rest IH]; simpl; intros returned s owned returned' s' owned' Hr Hrun.
  - now inversion Hrun; subst.
  - destruct (permitted s owned c) eqn:Hp; [|discriminate].
    destruct (exec c s) as [[r s1]|f] eqn:He; [|discriminate].
    eapply IH; [|exact Hrun].
    eapply reachable_step; eauto.
Qed.

Lemma finished_reachable prog brk0 limit answers :
  0 < brk0 -> brk0 mod ADDRESS_SIZE = 0 ->
  finished (run prog [] (initial_state brk0 limit answers) []) = true ->
  reachable (final_state (run prog [] (initial_state brk0 limit answers) []))
            (final_owned (run prog [] (initial_state brk0 limit answers) [])).
Proof.
  intros Hpos Hal Hfin.
  destruct (run prog [] (initial_state brk0 limit answers) []) as [r s o|r f|r] eqn:E;
    try discriminate.
  simpl. eapply run_reachable; [|exact E]. now constructor.
Qed.

Lemma after_reachable limit prog :
  finished (Scenario.after limit prog) = true ->
  reachable (final_state (Scenario.after limit prog)) (final_owned (Scenario.after limit prog)).
Proof. intros H. apply finished_reachable; [lia|reflexivity|exact H]. Qed.

Ltac by_running := vm_compute; repeat split; try reflexivity; try discriminate.

(** ** The defects, each at a state a well-behaved program reaches *)

Section Defects.
Import Scenario.

(** C1 (the code breaks the claim).  With three free blocks linked in
    bucket 0, a request for 24 bytes takes the middle one; [remove_from_bin]
    cuts the list after its predecessor, so the free block of 32 bytes at
    4344 stays in the address chain, stays free, and is linked in no bucket
    any more: the bin invariant held before the call and fails after it. *)
Theorem C1_remove_from_bin_drops_bucket_tail :
  let s := final_state (after 1000000 three_free) in
  let owned := final_owned (after 1000000 three_free) in
  reachable s owned /\
  permitted s owned (Smalloc 24) = true /\
  bin_invariant s = true /\
  bucket s 0 = [4096; 4216; 4344] /\
  match smalloc 24 s with
  | Ok (p, s') =>
      p = 4264 /\
      brk_chain s' = Some [4096; 4160; 4216; 4288; 4344; 4424] /\
      free_at s' 4344 = true /\
      bucket s' 0 = [4096] /\
      buckets_holding s' 4344 = 0%nat /\
      bin_invariant s' = false
  | Fault _ => False
  end.
Proof.
  cbv zeta. split; [apply after_reachable; reflexivity|]. by_running.
Qed.

(** The tail-extension path of [smalloc] unlinks by hand and leaves the
    block it hands out with its old [bin_prev]. *)
Lemma tail_extension_keeps_bin_links :
  let s := final_state (after 1000000 [Smalloc 16; Smalloc 8; Smalloc 24; Sfree 4144; Sfree 4264]) in
  bucket s 0 = [4096; 4216] /\
  match smalloc 200 s with
  | Ok (p, s') =>
      p = 4264 /\ heap s' !! 4216 = Some (mkMeta 200 false 0 4160 0 4096)
  | Fault _ => False
  end.
Proof. by_running. Qed.

(** C2 (the code breaks the claim).  The search of a bucket steps through
    [next], the address chain, and never looks at [is_free]: with a free
    block of 16 bytes at the head of bucket 0 and a block in use of 24 bytes
    after it in memory, a request for 24 bytes returns the payload the
    program already holds. *)
Theorem C2_search_returns_block_in_use :
  let s := final_state (after 1000000 free_then_used) in
  let owned := final_owned (after 1000000 free_then_used) in
  reachable s owned /\
  permitted s owned (Smalloc 24) = true /\
  holds owned 4208 = true /\
  free_at s 4160 = false /\
  bucket s 0 = [4096] /\
  buckets_holding s 4160 = 0%nat /\
  match smalloc 24 s with
  | Ok (p, s') => p = 4208 /\ GET_METADATA_FROM_PTR p = 4160
  | Fault _ => False
  end.
Proof.
  cbv zeta. split; [apply after_reachable; reflexivity|]. by_running.
Qed.

(** C3 (the code breaks the claim).  The break cannot grow.  Reallocating
    the last block, whose predecessor is free, merges the two, marks the
    result used and unlinks it from its bucket before [sbrk] is asked; the
    call then returns null and leaves all of that behind.  In the fallback
    branch the null that [smalloc] returns goes straight to [memmove]. *)
Theorem C3_failed_srealloc_changes_state :
  let s := final_state (after 4224 tail_after_free) in
  let owned := final_owned (after 4224 tail_after_free) in
  reachable s owned /\
  permitted s owned (Srealloc 4208 1000) = true /\
  brk s = brk_limit s /\
  heap s !! 4096 = Some (mkMeta 16 true 4160 0 0 0) /\
  brk_chain s = Some [4096; 4160] /\
  bucket s 0 = [4096] /\
  match srealloc 4208 1000 s with
  | Ok (p, s') =>
      p = nullptr /\
      brk s' = brk s /\
      heap s' !! 4096 = Some (mkMeta 80 false 0 0 0 0) /\
      brk_chain s' = Some [4096] /\
      bucket s' 0 = []
  | Fault _ => False
  end /\
  let t := final_state (after 4224 two_used) in
  reachable t (final_owned (after 4224 two_used)) /\
  permitted t (final_owned (after 4224 two_used)) (Srealloc 4144 1000) = true /\
  srealloc 4144 1000 t = Fault NullDeref.
Proof.
  cbv zeta. split; [apply after_reachable; reflexivity|].
  do 6 (split; [by_running|]).
  split; [apply after_reachable; reflexivity|]. by_running.
Qed.

(** C4 (the code breaks the claim).  [GET_BIN_ENTRY] divides and does not
    clamp.  Freeing the second of two neighbours of 100000 bytes merges it
    into the first, and the merged block of 200048 bytes is put into
    [free_block_bin[195]]. *)
Theorem C4_bin_index_past_the_array :
  let s := final_state (after 1000000 two_big) in
  let owned := final_owned (after 1000000 two_big) in
  reachable s owned /\
  permitted s owned (Sfree 104192) = true /\
  heap s !! 4096 = Some (mkMeta 100000 true 104144 0 0 0) /\
  heap s !! 104144 = Some (mkMeta 100000 false 0 4096 0 0) /\
  GET_BIN_ENTRY (100000 + (100000 + sizeof_metadata)) = 195 /\
  length (free_block_bin s) = Z.to_nat BIN_SIZE /\
  BIN_SIZE = 128 /\
  sfree 104192 s = Fault (BinOutOfBounds 195).
Proof.
  cbv zeta. split; [apply after_reachable; reflexivity|]. by_running.
Qed.

(** C5 (the code breaks the claim).  The search of C2 reaches the block in
    use of 1000 bytes and splits it; the remainder it creates is free and so
    is the block after it. *)
Theorem C5_split_of_used_block_leaves_free_neighbours :
  let s := final_state (after 1000000 used_between_free) in
  let owned := final_owned (after 1000000 used_between_free) in
  reachable s owned /\
  permitted s owned (Smalloc 104) = true /\
  no_adjacent_free s = true /\
  brk_chain s = Some [4096; 4160; 5208] /\
  match smalloc 104 s with
  | Ok (p, s') =>
      p = 4208 /\
      brk_chain s' = Some [4096; 4160; 4312; 5208] /\
      heap s' !! 4312 = Some (mkMeta 848 true 5208 4160 0 0) /\
      free_at s' 5208 = true /\
      no_adjacent_free s' = false
  | Fault _ => False
  end.
Proof.
  cbv zeta. split; [apply after_reachable; reflexivity|]. by_running.
Qed.

(** C6 (the code breaks the claim).  The bins are sound, the free block of
    1272 bytes at 4096 is the one block of bucket 1, and a request for 1024
    bytes leaves it 248 bytes, more than a header and 128: [smalloc(1024)]
    chooses it and splits it.  The winner keeps 1024 bytes and is in use,
    the remainder at 5168 has 200 bytes, is free and stands in the address
    chain between 4096 and 5416.  But [free_block_bin[0]] pointed at 5168
    already, so [insert_block_to_bin] finds the new header as the head of
    its bucket, compares it with itself and links it in front of itself:
    its [bin_next] is 5168, and bucket 0 is no list any more. *)
Theorem C6_split_links_remainder_to_itself :
  let s := final_state (after 1000000 stale_bucket_head) in
  let owned := final_owned (after 1000000 stale_bucket_head) in
  reachable s owned /\
  permitted s owned (Smalloc 1024) = true /\
  bins_sound s = true /\
  bin_invariant s = true /\
  no_adjacent_free s = true /\
  brk_chain s = Some [4096; 5416; 5472] /\
  heap s !! 4096 = Some (mkMeta 1272 true 5416 0 0 0) /\
  bucket s 1 = [4096] /\
  IS_LARGE_ENOUGH 1272 (GET_SIZE_WITH_ALIGNMENT 1024) = true /\
  bin_head s 0 = 5168 /\
  match smalloc 1024 s with
  | Ok (p, s') =>
      p = 4144 /\
      heap s' !! 4096 = Some (mkMeta 1024 false 5168 0 0 0) /\
      heap s' !! 5168 = Some (mkMeta 200 true 5416 4096 5168 0) /\
      brk_chain s' = Some [4096; 5168; 5416; 5472] /\
      bin_head s' 0 = 5168 /\
      bucket_dll s' 0 = None /\
      bins_sound s' = false
  | Fault _ => False
  end.
Proof.
  cbv zeta. split; [apply after_reachable; reflexivity|]. by_running.
Qed.

End Defects.

(** ** Running monadic code by hand *)

Lemma bind_ok {A B} (m : M A) (k : A -> M B) s a s1 :
  m s = Ok (a, s1) -> bind m k s = k a s1.
Proof. intros H. unfold bind. now rewrite H. Qed.

Lemma bind_inv {A B} (m : M A) (k : A -> M B) s b s2 :
  bind m k s = Ok (b, s2) -> exists a s1, m s = Ok (a, s1) /\ k a s1 = Ok (b, s2).
Proof.
  unfold bind. destruct (m s) as [[a s1]|f]; [|discriminate].
  intros H. now exists a, s1.
Qed.

Lemma bind_ret {A B} (a : A) (k : A -> M B) s : bind (ret a) k s = k a s.
Proof. reflexivity. Qed.

Lemma bind_gets {A B} (f : state -> A) (k : A -> M B) s : bind (gets f) k s = k (f s) s.
Proof. reflexivity. Qed.

Lemma bind_modify {B} (f : state -> state) (k : unit -> M B) s :
  bind (modify f) k s = k tt (f s).
Proof. reflexivity. Qed.

Ltac unfold_state :=
  unfold with_heap, with_metadata_head, with_mmap_metadata_head, with_free_block_bin,
         with_mem, with_brk, with_mmap_answers in *;
  cbn [heap metadata_head mmap_metadata_head free_block_bin mem brk brk_limit
       mmap_answers] in *.

Lemma load_ok p m s :
  p <> nullptr -> heap s !! p = Some m -> load p s = Ok (m, s).
Proof.
  intros Hp Hm. unfold load.
  destruct (Z.eqb_spec p nullptr); [contradiction|]. now rewrite Hm.
Qed.

Lemma load_inv p m s s' :
  load p s = Ok (m, s') -> s' = s /\ p <> nullptr /\ heap s !! p = Some m.
Proof.
  unfold load. destruct (Z.eqb_spec p nullptr); [discriminate|].
  destruct (heap s !! p) eqn:E; [|discriminate].
  intros H. inversion H; subst. auto.
Qed.

Lemma update_ok p f m s :
  p <> nullptr -> heap s !! p = Some m ->
  update p f s = Ok (tt, with_heap (<[p := f m]> (heap s)) s).
Proof.
  intros Hp Hm. unfold update. now rewrite (bind_ok _ _ _ _ _ (load_ok _ _ _ Hp Hm)).
Qed.

Lemma is_free_at_null s : is_free_at nullptr s = Ok (false, s).
Proof. reflexivity. Qed.

Lemma is_free_at_ok p m s :
  p <> nullptr -> heap s !! p = Some m -> is_free_at p s = Ok (is_free m, s).
Proof.
  intros Hp Hm. unfold is_free_at.
  destruct (Z.eqb_spec p nullptr); [contradiction|].
  now rewrite (bind_ok _ _ _ _ _ (load_ok _ _ _ Hp Hm)).
Qed.

Lemma get_bin_ok i p s :
  free_block_bin s !! i = Some p -> (i < Z.to_nat BIN_SIZE)%nat ->
  get_bin (Z.of_nat i) s = Ok (p, s).
Proof.
  intros Hl Hi. unfold get_bin, BIN_SIZE in *.
  destruct (Z.leb_spec 0 (Z.of_nat i)); [|lia].
  destruct (Z.ltb_spec (Z.of_nat i) 128); [|lia].
  simpl. now rewrite Nat2Z.id, Hl.
Qed.

Lemma set_bin_ok i p s :
  (i < Z.to_nat BIN_SIZE)%nat -> (i < length (free_block_bin s))%nat ->
  set_bin (Z.of_nat i) p s = Ok (tt, with_free_block_bin (<[i := p]> (free_block_bin s)) s).
Proof.
  intros Hi Hl. unfold set_bin, BIN_SIZE in *.
  destruct (Z.leb_spec 0 (Z.of_nat i)); [|lia].
  destruct (Z.ltb_spec (Z.of_nat i) 128); [|lia].
  rewrite Nat2Z.id.
  destruct (Nat.ltb_spec i (length (free_block_bin s))); [|lia].
  reflexivity.
Qed.

(** ** C10: the header counters *)

Lemma count_loop_state fuel step : forall p r s n s',
  count_loop fuel step p r s = Ok (n, s') -> s' = s.
Proof.
  induction fuel as [|fuel IH]; intros p r s n s' H; simpl in H; [discriminate|].
  destruct (p =? nullptr); [now inversion H|].
  apply bind_inv in H as (m & s1 & Hl & H).
  apply load_inv in Hl as (-> & _ & _). eauto.
Qed.

Lemma wrap64_scale_step r :
  wrap64 (wrap64 (r * sizeof_metadata) + sizeof_metadata) =
  wrap64 (wrap64 (r + 1) * sizeof_metadata).
Proof.
  unfold wrap64.
  rewrite Zplus_mod_idemp_l, Zmult_mod_idemp_l. f_equal. lia.
Qed.

(** Counting 48 per block is counting the blocks and scaling the total. *)
Lemma count_loop_scale fuel : forall p r s,
  count_loop fuel (fun _ => sizeof_metadata) p (wrap64 (r * sizeof_metadata)) s =
  match count_loop fuel (fun _ => 1) p r s with
  | Ok (n, s1) => Ok (wrap64 (n * sizeof_metadata), s1)
  | Fault f => Fault f
  end.
Proof.
  induction fuel as [|fuel IH]; intros p r s; simpl; [reflexivity|].
  destruct (p =? nullptr); [reflexivity|].
  unfold bind. destruct (load p s) as [[m s1]|f]; [|reflexivity].
  rewrite wrap64_scale_step. apply IH.
Qed.

(** C10.  In every state, reachable or not, [_size_meta_data] returns the
    header size and leaves the state alone, and [_num_meta_data_bytes]
    returns what [_num_allocated_blocks] returns multiplied by it (in
    [size_t]); where one of the two walks faults, so does the other.
    [num_allocated_blocks_total] below shows that the walks do return on
    chains that end. *)
Theorem C10_meta_data_bytes_is_blocks_times_header (s : state) :
  _size_meta_data s = Ok (sizeof_metadata, s) /\
  match _num_allocated_blocks s with
  | Ok (n, s1) =>
      s1 = s /\ _num_meta_data_bytes s = Ok (wrap64 (n * sizeof_metadata), s)
  | Fault f => _num_meta_data_bytes s = Fault f
  end.
Proof.
  split; [reflexivity|].
  unfold _num_meta_data_bytes, _num_allocated_blocks, METADATA_FOR_EACH, walk_fuel, gets, bind.
  pose proof (count_loop_scale (S (base.size (heap s))) (metadata_head s) 0 s) as H0.
  change (wrap64 (0 * sizeof_metadata)) with 0 in H0. rewrite H0. clear H0.
  destruct (count_loop _ (fun _ => 1) (metadata_head s) 0 s) as [[n1 s1]|f] eqn:E1; [|reflexivity].
  apply count_loop_state in E1 as Hs; subst s1.
  rewrite count_loop_scale.
  destruct (count_loop _ (fun _ => 1) (mmap_metadata_head s) n1 s) as [[n2 s2]|f] eqn:E2;
    [|reflexivity].
  apply count_loop_state in E2 as Hs; subst s2. auto.
Qed.

(** ** C8: [scalloc] *)





(** ** Walks over the linked lists *)

Section Walk.
Variable link : MallocMetadata -> ptr.

Lemma walk_cons fuel h p m l :
  p <> nullptr -> h !! p = Some m ->
  walk link fuel h (link m) = Some l ->
  walk link (S fuel) h p = Some (p :: l).
Proof.
  intros Hp Hm Hl. simpl.
  destruct (Z.eqb_spec p nullptr); [contradiction|].
  now rewrite Hm, Hl.
Qed.

Lemma walk_inv fuel h p l :
  walk link fuel h p = Some l ->
  exists fuel', fuel = S fuel' /\
    ((p = nullptr /\ l = []) \/
     (p <> nullptr /\ exists m l', h !! p = Some m /\ l = p :: l' /\
                                    walk link fuel' h (link m) = Some l')).
Proof.
  destruct fuel as [|fuel]; simpl; [discriminate|].
  intros H. exists fuel. split; [reflexivity|].
  destruct (Z.eqb_spec p nullptr) as [->|Hp].
  - left. now inversion H.
  - right. split; [assumption|].
    destruct (h !! p) as [m|]; [|discriminate].
    destruct (walk link fuel h (link m)) as [l'|] eqn:E; [|discriminate].
    simpl in H. inversion H; subst. exists m, l'. auto.
Qed.

Lemma walk_mono fuel : forall fuel' h p l,
  walk link fuel h p = Some l -> (fuel <= fuel')%nat ->
  walk link fuel' h p = Some l.
Proof.
  induction fuel as [|fuel IH]; intros fuel' h p l H Hle.
  - discriminate.
  - destruct fuel' as [|fuel']; [lia|].
    apply walk_inv in H as (f' & [= <-] & [(-> & ->)|(Hp & m & l' & Hm & -> & Hw)]).
    + reflexivity.
    + eapply walk_cons; eauto. apply IH; [assumption|lia].
Qed.

(** Every block of a walk has a header, and none is the null pointer. *)
Lemma walk_elem fuel : forall h p l q,
  walk link fuel h p = Some l -> q ∈ l -> q <> nullptr /\ is_Some (h !! q).
Proof.
  induction fuel as [|fuel IH]; intros h p l q H Hq.
  - discriminate.
  - apply walk_inv in H as (f' & [= <-] & [(-> & ->)|(Hp & m & l' & Hm & -> & Hw)]).
    + inversion Hq.
    + apply elem_of_cons in Hq as [->|Hq]; [eauto|]. eapply IH; eauto.
Qed.

(** A walk only reads the [link] field of the blocks it meets: a heap that
    agrees on those gives the same walk. *)
Lemma walk_agree fuel : forall h h' p l,
  walk link fuel h p = Some l ->
  (forall q m, q ∈ l -> h !! q = Some m ->
               exists m', h' !! q = Some m' /\ link m' = link m) ->
  walk link fuel h' p = Some l.
Proof.
  induction fuel as [|fuel IH]; intros h h' p l H Hag.
  - discriminate.
  - apply walk_inv in H as (f' & [= <-] & [(-> & ->)|(Hp & m & l' & Hm & -> & Hw)]).
    + reflexivity.
    + destruct (Hag p m) as (m' & Hm' & Hlink); [left|assumption|].
      eapply walk_cons; eauto. rewrite Hlink.
      eapply IH; eauto. intros q mq Hq. apply Hag. now right.
Qed.

Lemma walk_insert_fresh fuel h p l r m :
  walk link fuel h p = Some l -> h !! r = None ->
  walk link fuel (<[r := m]> h) p = Some l.
Proof.
  intros H Hr. eapply walk_agree; [exact H|].
  intros q mq Hq Hmq. exists mq. split; [|reflexivity].
  rewrite lookup_insert_ne; [assumption|]. intros E. subst q. congruence.
Qed.

Lemma walk_fresh_not_in fuel h p l r :
  walk link fuel h p = Some l -> h !! r = None -> r ∉ l.
Proof.
  intros H Hr Hin. destruct (walk_elem _ _ _ _ _ H Hin) as [_ [m Hm]]. congruence.
Qed.

(** Where a walk passes, the rest of it is the walk from there. *)
Lemma walk_suffix fuel : forall h p l1 q l2,
  walk link fuel h p = Some (l1 ++ q :: l2) ->
  exists fuel', (fuel' <= fuel)%nat /\ walk link fuel' h q = Some (q :: l2).
Proof.
  induction fuel as [|fuel IH]; intros h p l1 q l2 H.
  - discriminate.
  - destruct l1 as [|x l1].
    + exists (S fuel). split; [lia|].
      apply walk_inv in H as Hi.
      destruct Hi as (f' & _ & [(_ & [=])|(Hp & m & l' & Hm & [= <- <-] & Hw)]).
      exact H.
    + apply walk_inv in H as (f' & [= <-] & [(_ & [=])|(Hp & m & l' & Hm & [= <- <-] & Hw)]).
      apply IH in Hw as (f1 & Hle & Hw). exists f1. split; [lia|assumption].
Qed.

Lemma walk_functional fuel : forall fuel' h p l l',
  walk link fuel h p = Some l -> walk link fuel' h p = Some l' -> l = l'.
Proof.
  induction fuel as [|fuel IH]; intros fuel' h p l l' H H'.
  - discriminate.
  - apply walk_inv in H as (f1 & [= <-] & [(-> & ->)|(Hp & m & l1 & Hm & -> & Hw)]);
    apply walk_inv in H' as (f2 & -> & [(E & ->)|(Hp' & m' & l2 & Hm' & -> & Hw')]);
      try congruence.
    rewrite Hm in Hm'. inversion Hm'; subst. f_equal. eapply IH; eauto.
Qed.

(** A walk that reaches the null pointer meets no block twice. *)
Lemma walk_NoDup fuel : forall h p l,
  walk link fuel h p = Some l -> NoDup l.
Proof.
  induction fuel as [|fuel IH]; intros h p l H.
  - discriminate.
  - apply walk_inv in H as Hi.
    destruct Hi as (f' & [= <-] & [(-> & ->)|(Hp & m & l' & Hm & -> & Hw)]).
    + constructor.
    + constructor; [|eapply IH; eauto].
      intros Hin. apply list_elem_of_split in Hin as (l1 & l2 & ->).
      apply walk_suffix in Hw as (f1 & _ & Hw1).
      pose proof (walk_functional _ _ _ _ _ _ H Hw1) as E.
      apply (f_equal length) in E. simpl in E. rewrite length_app in E. simpl in E. lia.
Qed.

End Walk.

(** The doubly linked walk is a walk through [bin_next]. *)
Lemma walk_bin_walk fuel : forall h pv p l,
  walk_bin fuel h pv p = Some l -> walk bin_next fuel h p = Some l.
Proof.
  induction fuel as [|fuel IH]; intros h pv p l H; simpl in *; [discriminate|].
  destruct (p =? nullptr); [assumption|].
  destruct (h !! p) as [m|]; [|discriminate].
  destruct (bin_prev m =? pv); [|discriminate].
  destruct (walk_bin fuel h p (bin_next m)) as [l'|] eqn:E; [|discriminate].
  now rewrite (IH _ _ _ _ E).
Qed.

(** ** [get_last_metadata_block] on a sound chain *)

Lemma get_last_loop_walk fuel : forall s list p l,
  p <> nullptr ->
  walk next fuel (heap s) p = Some l ->
  get_last_loop fuel list p s = Ok (default nullptr (last l), s).
Proof.
  induction fuel as [|fuel IH]; intros s list p l Hp H.
  - discriminate.
  - apply walk_inv in H as (f' & [= <-] & [(-> & _)|(_ & m & l' & Hm & -> & Hw)]);
      [contradiction|].
    simpl. destruct (Z.eqb_spec p nullptr); [contradiction|].
    rewrite (bind_ok _ _ _ _ _ (load_ok _ _ _ Hp Hm)).
    destruct (Z.eqb_spec (next m) nullptr) as [E|E].
    + rewrite E in Hw. apply walk_inv in Hw as (f1 & _ & [(_ & ->)|(Hn & _)]);
        [reflexivity|contradiction].
    + rewrite (IH s list (next m) l' E Hw).
      apply walk_inv in Hw as (f1 & _ & [(Hn & _)|(_ & m1 & l1 & _ & -> & _)]);
        [contradiction|reflexivity].
Qed.

Lemma get_last_metadata_block_walk s p l :
  walk next (fuel_of s) (heap s) p = Some l ->
  get_last_metadata_block p s = Ok (default nullptr (last l), s).
Proof.
  intros H. unfold get_last_metadata_block.
  destruct (Z.eqb_spec p nullptr) as [->|Hp].
  - apply walk_inv in H as (f1 & _ & [(_ & ->)|(Hn & _)]); [reflexivity|contradiction].
  - unfold bind, walk_fuel, gets. now apply get_last_loop_walk.
Qed.

(** ** The counters on sound chains *)

Lemma count_loop_walk fuel : forall s p l r,
  walk next fuel (heap s) p = Some l ->
  0 <= r < 2 ^ 64 ->
  count_loop fuel (fun _ => 1) p r s = Ok (wrap64 (r + Z.of_nat (length l)), s).
Proof.
  induction fuel as [|fuel IH]; intros s p l r H Hr.
  - discriminate.
  - apply walk_inv in H as (f' & [= <-] & [(-> & ->)|(Hp & m & l' & Hm & -> & Hw)]).
    + simpl. rewrite Z.add_0_r, wrap64_small by assumption. reflexivity.
    + simpl. destruct (Z.eqb_spec p nullptr); [contradiction|].
      rewrite (bind_ok _ _ _ _ _ (load_ok _ _ _ Hp Hm)).
      rewrite (IH s (next m) l' _ Hw (wrap64_range _)).
      do 2 f_equal. unfold wrap64. rewrite Zplus_mod_idemp_l. f_equal. lia.
Qed.

(** When both chains can be walked to their ends, [_num_allocated_blocks]
    returns: it is the number of blocks met. *)
Lemma num_allocated_blocks_total s l1 l2 :
  brk_chain s = Some l1 -> mmap_chain s = Some l2 ->
  _num_allocated_blocks s = Ok (wrap64 (Z.of_nat (length l1 + length l2)), s).
Proof.
  unfold brk_chain, mmap_chain, fuel_of. intros H1 H2.
  unfold _num_allocated_blocks, METADATA_FOR_EACH, walk_fuel, gets, bind.
  rewrite (count_loop_walk _ _ _ _ 0 H1) by lia.
  rewrite (count_loop_walk _ _ _ _ _ H2 (wrap64_range _)).
  do 2 f_equal. unfold wrap64. rewrite Zplus_mod_idemp_l. f_equal. lia.
Qed.

(** ** Pieces of [smalloc] *)

(** A scan over empty buckets finds nothing and changes nothing. *)
Lemma scan_bins_empty n : forall size_ i s,
  0 <= i -> i + Z.of_nat n <= BIN_SIZE ->
  (forall j, (Z.to_nat i <= j < Z.to_nat i + n)%nat -> free_block_bin s !! j = Some nullptr) ->
  scan_bins n size_ i s = Ok (nullptr, s).
Proof.
  induction n as [|n IH]; intros size_ i s Hi Hn Hempty; [reflexivity|].
  simpl. unfold BIN_SIZE in *.
  assert (Hget : get_bin i s = Ok (nullptr, s)).
  { rewrite <- (Z2Nat.id i Hi). apply get_bin_ok; [|unfold BIN_SIZE; lia].
    apply Hempty. lia. }
  rewrite (bind_ok _ _ _ _ _ Hget). change (nullptr =? nullptr) with true. cbv iota.
  apply IH; [lia|lia|]. intros j Hj. apply Hempty. lia.
Qed.

Lemma get_free_metadata_block_none size_ s :
  0 <= size_ < MIN_KB_BLOCK ->
  (forall j, (Z.to_nat (GET_BIN_ENTRY size_) <= j < Z.to_nat BIN_SIZE)%nat ->
             free_block_bin s !! j = Some nullptr) ->
  get_free_metadata_block size_ s = Ok (nullptr, s).
Proof.
  intros Hsz Hempty. unfold get_free_metadata_block.
  assert (Hi : 0 <= GET_BIN_ENTRY size_ < 128).
  { unfold GET_BIN_ENTRY, MIN_KB_BLOCK, KB in *. split.
    - apply Z.div_pos; lia.
    - apply Z.div_lt_upper_bound; lia. }
  rewrite to_int_small by lia.
  apply scan_bins_empty; unfold BIN_SIZE in *; [lia|lia|].
  intros j Hj. apply Hempty. lia.
Qed.

Lemma sbrk_ok incr s :
  0 <= incr < 2 ^ 63 -> brk s + incr <= brk_limit s ->
  sbrk (wrap64 incr) s = Ok (brk s, with_brk (brk s + incr) s).
Proof.
  intros Hi Hl. unfold sbrk.
  rewrite (wrap64_small incr) by lia. rewrite to_intptr_small by lia.
  destruct (Z.ltb_spec (brk_limit s) (brk s + incr)); [lia|reflexivity].
Qed.

Lemma last_elem {A} (l : list A) b : last l = Some b -> b ∈ l.
Proof.
  intros H. apply last_Some in H as [l' ->]. apply elem_of_app. right. now left.
Qed.

Lemma size_insert_fresh (h : gmap Z MallocMetadata) r m :
  h !! r = None -> base.size (<[r := m]> h) = S (base.size h).
Proof. apply map_size_insert_None. Qed.

(** Appending a block that is not yet in the brk chain. *)
Lemma insert_to_brk_list s r init l :
  brk_chain s = Some l -> r <> nullptr -> heap s !! r = Some init -> r ∉ l ->
  insert_to_metadata_list r brk_list s =
    Ok (tt,
        let b := default nullptr (last l) in
        with_metadata_head (if b =? nullptr then r else metadata_head s)
          (with_heap (<[r := with_next nullptr (with_prev b init)]>
                        (match heap s !! b with
                         | Some mb => if b =? nullptr then heap s
                                      else <[b := with_next r mb]> (heap s)
                         | None => heap s
                         end)) s)).
Proof.
  unfold brk_chain. intros Hchain Hr Hinit Hnotin.
  unfold insert_to_metadata_list, get_head. rewrite bind_gets.
  destruct (Z.eqb_spec (metadata_head s) nullptr) as [Eh|Hh].
  - (* the chain is empty *)
    rewrite Eh in Hchain. apply walk_inv in Hchain as (f1 & _ & [(_ & ->)|(Hx & _)]);
      [|contradiction].
    unfold set_prev, set_next, set_head.
    erewrite bind_ok; [|apply update_ok; [assumption|exact Hinit]].
    erewrite bind_ok; [|apply update_ok; [assumption|cbn; apply lookup_insert_eq]].
    cbn. unfold modify. do 2 f_equal.
    destruct s; unfold_state. f_equal.
    rewrite insert_insert_eq. destruct (heap0 !! nullptr); reflexivity.
  - (* the chain has a last block [b] *)
    destruct (last l) as [b|] eqn:El.
    2:{ apply walk_inv in Hchain as (f1 & _ & [(Hx & _)|(_ & m1 & l1 & _ & -> & _)]);
          [contradiction|]. now rewrite last_cons in El; destruct (last l1). }
    destruct (walk_elem _ _ _ _ _ b Hchain (last_elem _ _ El)) as [Hb [mb Hmb]].
    assert (Hbr : b <> r) by (intros ->; apply Hnotin; eapply last_elem; eauto).
    rewrite (bind_ok _ _ _ _ _ (get_last_metadata_block_walk s _ l Hchain)).
    rewrite El. cbn [default]. unfold id.
    unfold set_prev, set_next.
    erewrite bind_ok; [|apply update_ok; [assumption|exact Hmb]].
    erewrite bind_ok; [|apply update_ok; [assumption|cbn;
          rewrite lookup_insert_ne by congruence; exact Hinit]].
    erewrite update_ok; [|assumption|cbn; apply lookup_insert_eq].
    cbv zeta. cbn [default]. unfold id. rewrite Hmb.
    destruct (Z.eqb_spec b nullptr); [contradiction|].
    do 2 f_equal. destruct s; unfold_state. f_equal.
    now rewrite insert_insert_eq.
Qed.

(** The fresh-growth path: buckets from the request's bucket up are empty,
    the last block of the chain (if any) is in use, the kernel grants the
    break. *)
Lemma smalloc_grows s n l :
  0 < n <= MAX_MALLOC_4_SIZE ->
  GET_SIZE_WITH_ALIGNMENT n < MIN_KB_BLOCK ->
  (forall j, (Z.to_nat (GET_BIN_ENTRY (GET_SIZE_WITH_ALIGNMENT n)) <= j < Z.to_nat BIN_SIZE)%nat ->
             free_block_bin s !! j = Some nullptr) ->
  brk_chain s = Some l ->
  (forall b, last l = Some b -> free_at s b = false) ->
  0 < brk s ->
  brk s + (GET_SIZE_WITH_ALIGNMENT n + sizeof_metadata) <= brk_limit s ->
  heap s !! brk s = None ->
  smalloc n s =
    Ok (GET_PTR_FROM_METADATA (brk s),
        grown s (GET_SIZE_WITH_ALIGNMENT n) (default nullptr (last l))).
Proof.
  intros Hn Hsmall Hbins Hchain Hlast Hbrk Hlimit Hfresh.
  destruct (aligned_bounds n ltac:(lia)) as [Hsz Hmod].
  pose proof (aligned_idempotent n ltac:(lia)) as Hidem.
  set (sz := GET_SIZE_WITH_ALIGNMENT n) in *.
  unfold smalloc. fold sz.
  destruct (Z.ltb_spec MAX_MALLOC_4_SIZE n); [lia|].
  destruct (Z.eqb_spec n 0); [lia|]. cbn [orb].
  destruct (Z.leb_spec MIN_KB_BLOCK sz); [lia|].
  rewrite (bind_ok _ _ _ _ _ (get_free_metadata_block_none sz s ltac:(lia) Hbins)).
  change (negb (nullptr =? nullptr)) with false. cbv iota.
  rewrite bind_gets.
  rewrite (bind_ok _ _ _ _ _ (get_last_metadata_block_walk s _ l Hchain)).
  assert (Hfree : is_free_at (default nullptr (last l)) s = Ok (false, s)).
  { destruct (last l) as [b|] eqn:El; [|reflexivity]. cbn.
    destruct (walk_elem _ _ _ _ _ b Hchain (last_elem _ _ El)) as [Hb [mb Hmb]].
    rewrite (is_free_at_ok b mb s Hb Hmb). specialize (Hlast b eq_refl).
    unfold free_at in Hlast. rewrite Hmb in Hlast. now rewrite Hlast. }
  rewrite (bind_ok _ _ _ _ _ Hfree). cbv iota.
  unfold MIN_KB_BLOCK, KB, sizeof_metadata in *.
  rewrite (bind_ok _ _ _ _ _ (sbrk_ok (sz + 48) s ltac:(lia) Hlimit)).
  unfold SBRK_FAIL. destruct (Z.eqb_spec (brk s) (-1)); [lia|].
  unfold INIT_METADATA.
  destruct (Z.eqb_spec (brk s) nullptr) as [E|Hr]; [unfold nullptr in E; lia|].
  rewrite bind_modify.
  set (init := mkMeta sz false nullptr nullptr nullptr nullptr).
  erewrite bind_ok.
  2:{ apply (insert_to_brk_list _ (brk s) init l).
      - unfold brk_chain, fuel_of in *. unfold_state.
        apply walk_insert_fresh; [|assumption].
        eapply walk_mono; [exact Hchain|].
        rewrite size_insert_fresh by assumption. lia.
      - assumption.
      - cbn. apply lookup_insert_eq.
      - eapply walk_fresh_not_in; eauto. }
  unfold ret. do 2 f_equal. unfold grown. unfold_state.
  f_equal.
  destruct (last l) as [b|] eqn:El; cbn [default]; unfold id.
  - destruct (walk_elem _ _ _ _ _ b Hchain (last_elem _ _ El)) as [Hb [mb Hmb]].
    assert (Hbr : b <> brk s) by (intros ->; congruence).
    rewrite lookup_insert_ne by congruence. rewrite Hmb.
    destruct (Z.eqb_spec b nullptr); [contradiction|].
    apply map_eq. intros k.
    destruct (decide (k = brk s)) as [->|Hk1].
    + now rewrite !lookup_insert_eq.
    + rewrite !(lookup_insert_ne _ (brk s)) by congruence.
      destruct (decide (k = b)) as [->|Hk2].
      * now rewrite !lookup_insert_eq.
      * rewrite !(lookup_insert_ne _ b) by congruence.
        now rewrite lookup_insert_ne by congruence.
  - change (nullptr =? nullptr) with true. cbv iota.
    destruct (<[brk s:=init]> (heap s) !! nullptr), (heap s !! nullptr);
      now rewrite insert_insert_eq.
Qed.

Lemma bin_entry_range size_ :
  0 <= size_ < MIN_KB_BLOCK -> 0 <= GET_BIN_ENTRY size_ < BIN_SIZE.
Proof.
  unfold GET_BIN_ENTRY, MIN_KB_BLOCK, BIN_SIZE, KB. intros H. split.
  - apply Z.div_pos; lia.
  - apply Z.div_lt_upper_bound; lia.
Qed.

Lemma get_bin_at size_ p s :
  0 <= size_ < MIN_KB_BLOCK ->
  free_block_bin s !! Z.to_nat (GET_BIN_ENTRY size_) = Some p ->
  get_bin (GET_BIN_ENTRY size_) s = Ok (p, s).
Proof.
  intros Hs Hl. pose proof (bin_entry_range _ Hs) as Hi.
  rewrite <- (Z2Nat.id (GET_BIN_ENTRY size_)) by lia.
  apply get_bin_ok; [assumption|lia].
Qed.

Lemma set_bin_at size_ p q s :
  0 <= size_ < MIN_KB_BLOCK ->
  free_block_bin s !! Z.to_nat (GET_BIN_ENTRY size_) = Some q ->
  set_bin (GET_BIN_ENTRY size_) p s =
    Ok (tt, with_free_block_bin (<[Z.to_nat (GET_BIN_ENTRY size_) := p]> (free_block_bin s)) s).
Proof.
  intros Hs Hl. pose proof (bin_entry_range _ Hs) as Hi.
  rewrite <- (Z2Nat.id (GET_BIN_ENTRY size_)) at 1 by lia.
  apply set_bin_ok; [lia|]. eapply lookup_lt_Some; eauto.
Qed.

(** Freeing a block whose bucket is empty and which has no free neighbour:
    it becomes the head of its bucket. *)
Lemma sfree_alone s r m :
  0 < r ->
  heap s !! r = Some m ->
  0 <= size m < MIN_KB_BLOCK ->
  free_block_bin s !! Z.to_nat (GET_BIN_ENTRY (size m)) = Some nullptr ->
  next m = nullptr ->
  (prev m <> r) ->
  (prev m = nullptr \/
   prev m <> nullptr /\ exists mb, heap s !! prev m = Some mb /\ is_free mb = false) ->
  sfree (GET_PTR_FROM_METADATA r) s =
    Ok (tt,
        with_heap (<[r := with_is_free true (with_bin_next nullptr (with_bin_prev nullptr m))]>
                     (heap s))
          (with_free_block_bin (<[Z.to_nat (GET_BIN_ENTRY (size m)) := r]> (free_block_bin s)) s)).
Proof.
  intros Hpos Hm Hsz Hbin Hnext Hpr Hprev.
  assert (Hr : r <> nullptr) by (unfold nullptr; lia).
  unfold sfree, GET_PTR_FROM_METADATA, GET_METADATA_FROM_PTR, sizeof_metadata.
  destruct (Z.eqb_spec (r + 48) nullptr) as [E|_]; [unfold nullptr in E; lia|].
  replace (r + 48 - 48) with r by lia.
  rewrite (bind_ok _ _ _ _ _ (load_ok _ _ _ Hr Hm)).
  destruct (Z.leb_spec MIN_KB_BLOCK (size m)); [lia|].
  (* insert_block_to_bin *)
  erewrite bind_ok.
  2:{ unfold insert_block_to_bin.
      rewrite (bind_ok _ _ _ _ _ (load_ok _ _ _ Hr Hm)).
      rewrite (bind_ok _ _ _ _ _ (get_bin_at _ _ _ Hsz Hbin)).
      change (nullptr =? nullptr) with true. cbv iota.
      unfold set_bin_prev, set_bin_next.
      erewrite bind_ok; [|apply update_ok; [assumption|exact Hm]].
      erewrite bind_ok; [|apply update_ok; [assumption|unfold_state; apply lookup_insert_eq]].
      erewrite bind_ok; [|apply load_ok; [assumption|unfold_state; apply lookup_insert_eq]].
      cbn [size with_bin_next with_bin_prev].
      eapply set_bin_at; [assumption|unfold_state; exact Hbin]. }
  unfold_state.
  (* no free successor *)
  erewrite bind_ok.
  2:{ erewrite bind_ok; [|apply load_ok; [assumption|unfold_state; apply lookup_insert_eq]].
      cbn [next with_bin_next with_bin_prev]. rewrite Hnext.
      rewrite (bind_ok _ _ _ _ _ (is_free_at_null _)). reflexivity. }
  (* no free predecessor *)
  erewrite bind_ok.
  2:{ erewrite bind_ok; [|apply load_ok; [assumption|unfold_state; apply lookup_insert_eq]].
      cbn [prev with_bin_next with_bin_prev].
      destruct Hprev as [E|(Hpn & mb & Hmb & Hused)].
      - rewrite E. rewrite (bind_ok _ _ _ _ _ (is_free_at_null _)). reflexivity.
      - erewrite bind_ok; [|apply is_free_at_ok; [assumption|unfold_state;
          rewrite !lookup_insert_ne by congruence; exact Hmb]].
        rewrite Hused. reflexivity. }
  unfold set_is_free.
  erewrite update_ok; [|assumption|unfold_state; apply lookup_insert_eq].
  unfold_state. do 3 f_equal. now rewrite !insert_insert_eq.
Qed.

Lemma not_large_enough_exact size_ :
  0 <= size_ < MIN_KB_BLOCK -> IS_LARGE_ENOUGH size_ size_ = false.
Proof.
  unfold IS_LARGE_ENOUGH, MIN_KB_BLOCK, KB, sizeof_metadata. intros H.
  rewrite wrap64_small by lia. apply Z.leb_gt. lia.
Qed.

(** A request that fits the head of its own bucket exactly takes that
    block whole. *)
Lemma smalloc_takes_exact_head s n r m :
  0 < n <= MAX_MALLOC_4_SIZE ->
  GET_SIZE_WITH_ALIGNMENT n < MIN_KB_BLOCK ->
  0 < r ->
  heap s !! r = Some m ->
  size m = GET_SIZE_WITH_ALIGNMENT n ->
  bin_next m = nullptr -> bin_prev m = nullptr ->
  free_block_bin s !! Z.to_nat (GET_BIN_ENTRY (size m)) = Some r ->
  smalloc n s =
    Ok (GET_PTR_FROM_METADATA r,
        with_heap (<[r := with_is_free false m]> (heap s))
          (with_free_block_bin
             (<[Z.to_nat (GET_BIN_ENTRY (size m)) := nullptr]> (free_block_bin s)) s)).
Proof.
  intros Hn Hsmall Hpos Hm Hsize Hbn Hbp Hbin.
  destruct (aligned_bounds n ltac:(lia)) as [Hsz _].
  assert (Hr : r <> nullptr) by (unfold nullptr; lia).
  assert (Hrange : 0 <= size m < MIN_KB_BLOCK) by lia.
  pose proof (bin_entry_range _ Hrange) as Hi. unfold BIN_SIZE in Hi.
  unfold smalloc. rewrite <- Hsize.
  destruct (Z.ltb_spec MAX_MALLOC_4_SIZE n); [lia|].
  destruct (Z.eqb_spec n 0); [lia|]. cbn [orb].
  destruct (Z.leb_spec MIN_KB_BLOCK (size m)); [lia|].
  erewrite bind_ok.
  2:{ unfold get_free_metadata_block. rewrite to_int_small by lia.
      replace (Z.to_nat (BIN_SIZE - GET_BIN_ENTRY (size m)))
        with (S (Z.to_nat (BIN_SIZE - GET_BIN_ENTRY (size m) - 1)))
        by (unfold BIN_SIZE; lia).
      cbn [scan_bins].
      rewrite (bind_ok _ _ _ _ _ (get_bin_at _ _ _ Hrange Hbin)).
      destruct (Z.eqb_spec r nullptr); [contradiction|].
      unfold walk_fuel. rewrite bind_gets.
      erewrite bind_ok.
      2:{ cbn [scan_chain].
          destruct (Z.eqb_spec r nullptr); [contradiction|].
          rewrite (bind_ok _ _ _ _ _ (load_ok _ _ _ Hr Hm)).
          rewrite Z.leb_refl.
          erewrite bind_ok.
          2:{ unfold take_block.
              rewrite (bind_ok _ _ _ _ _ (load_ok _ _ _ Hr Hm)).
              rewrite (not_large_enough_exact _ Hrange).
              erewrite bind_ok.
              2:{ unfold remove_from_bin.
                  rewrite (bind_ok _ _ _ _ _ (load_ok _ _ _ Hr Hm)).
                  rewrite Hbn, Hbp. change (nullptr =? nullptr) with true. cbn [andb].
                  erewrite bind_ok; [|eapply set_bin_at; [assumption|exact Hbin]].
                  unfold set_bin_next, set_bin_prev.
                  erewrite bind_ok; [|apply update_ok; [assumption|unfold_state; exact Hm]].
                  apply update_ok; [assumption|unfold_state; apply lookup_insert_eq]. }
              unfold set_is_free.
              apply update_ok; [assumption|unfold_state; apply lookup_insert_eq]. }
          reflexivity. }
      reflexivity. }
  destruct (Z.eqb_spec r nullptr); [contradiction|]. cbn [negb].
  unfold ret. do 2 f_equal. unfold_state. f_equal.
  rewrite !insert_insert_eq. do 2 f_equal.
  destruct m; cbn in *; subst; reflexivity.
Qed.

(** ** C9: free, then allocate the same size again *)


(** The case of a fresh block, from the state before the first call.  Take
    a request [n] that stays below the mapping threshold after rounding, and
    a state in which the buckets from the request's bucket upward are empty,
    the brk chain can be walked to its end, its last block (if any) is in
    use, and the kernel grants the break.  Then [smalloc(n)] appends a fresh
    block of exactly the rounded size, [sfree] makes it the head of its
    bucket with its size unchanged, and the second [smalloc(n)] returns the
    same pointer and puts the allocator back into the state the first call
    left: no split, no other block touched. *)
Lemma fresh_block_is_recycled_as_is (s : state) (n : Z) (l : list Z)
    (Hn : 0 < n <= MAX_MALLOC_4_SIZE)
    (Hsmall : GET_SIZE_WITH_ALIGNMENT n < MIN_KB_BLOCK)
    (Hempty : drop (Z.to_nat (GET_BIN_ENTRY (GET_SIZE_WITH_ALIGNMENT n))) (free_block_bin s) =
              replicate (Z.to_nat (BIN_SIZE - GET_BIN_ENTRY (GET_SIZE_WITH_ALIGNMENT n))) nullptr)
    (Hchain : brk_chain s = Some l)
    (Hused : match last l with Some b => free_at s b = false | None => True end)
    (Hbrk : 0 < brk s)
    (Hlimit : brk s + (GET_SIZE_WITH_ALIGNMENT n + sizeof_metadata) <= brk_limit s)
    (Hfresh : heap s !! brk s = None) :
  let p := GET_PTR_FROM_METADATA (brk s) in
  let s1 := grown s (GET_SIZE_WITH_ALIGNMENT n) (default nullptr (last l)) in
  exists s2,
    smalloc n s = Ok (p, s1) /\
    sfree p s1 = Ok (tt, s2) /\
    free_at s2 (brk s) = true /\
    payload_size s2 p = GET_SIZE_WITH_ALIGNMENT n /\
    bucket_dll s2 (Z.to_nat (GET_BIN_ENTRY (GET_SIZE_WITH_ALIGNMENT n))) = Some [brk s] /\
    smalloc n s2 = Ok (p, s1).
Proof.
  cbv zeta.
  destruct (aligned_bounds n ltac:(lia)) as [Hsz _].
  assert (Hlast : forall b, last l = Some b -> free_at s b = false).
  { intros b Hb. now rewrite Hb in Hused. }
  clear Hused.
  set (sz := GET_SIZE_WITH_ALIGNMENT n) in *.
  set (r := brk s) in *.
  set (b := default nullptr (last l)).
  set (i := Z.to_nat (GET_BIN_ENTRY sz)) in *.
  pose proof (bin_entry_range sz ltac:(lia)) as Hi. unfold BIN_SIZE in *.
  assert (Hbins : forall j, (i <= j < Z.to_nat 128)%nat -> free_block_bin s !! j = Some nullptr).
  { intros j Hj. replace j with (i + (j - i))%nat by lia.
    rewrite <- lookup_drop, Hempty. apply lookup_replicate_2. lia. }
  assert (Hbi : free_block_bin s !! i = Some nullptr) by (apply Hbins; lia).
  assert (Hr : r <> nullptr) by (unfold nullptr; lia).
  set (m1 := mkMeta sz false nullptr b nullptr nullptr).
  assert (Hb : b = nullptr /\ last l = None \/
               b <> nullptr /\ b <> r /\ exists mb, heap s !! b = Some mb /\ is_free mb = false).
  { subst b. destruct (last l) as [b|] eqn:El; [right|left; auto]. cbn.
    destruct (walk_elem _ _ _ _ _ b Hchain (last_elem _ _ El)) as [Hb0 [mb Hmb]].
    split; [assumption|]. split; [intros ->; fold r in Hmb; congruence|].
    exists mb. split; [assumption|].
    specialize (Hlast b eq_refl). unfold free_at in Hlast. now rewrite Hmb in Hlast. }
  assert (Hh1 : heap (grown s sz b) !! r = Some m1).
  { unfold grown. cbn. apply lookup_insert_eq. }
  assert (Hb1 : free_block_bin (grown s sz b) = free_block_bin s) by reflexivity.
  set (m2 := with_is_free true (with_bin_next nullptr (with_bin_prev nullptr m1))).
  set (s2 := with_heap (<[r := m2]> (heap (grown s sz b)))
               (with_free_block_bin (<[i := r]> (free_block_bin (grown s sz b)))
                  (grown s sz b))).
  exists s2.
  split; [apply smalloc_grows; assumption|].
  split.
  { apply (sfree_alone (grown s sz b) r m1).
    - exact Hbrk.
    - exact Hh1.
    - cbn. lia.
    - exact Hbi.
    - reflexivity.
    - cbn. destruct Hb as [[-> _]|(_ & Hbr & _)]; congruence.
    - cbn [prev m1]. destruct Hb as [[Hb0 _]|(Hb0 & Hbr & mb & Hmb & Hused)]; [now left|right].
      split; [assumption|]. exists (with_next r mb). split; [|exact Hused].
      unfold grown. cbn. fold r. rewrite lookup_insert_ne by congruence.
      rewrite Hmb. destruct (Z.eqb_spec b nullptr); [contradiction|].
      apply lookup_insert_eq. }
  assert (Hh2 : heap s2 !! r = Some m2) by (subst s2; unfold_state; apply lookup_insert_eq).
  assert (Hb2 : free_block_bin s2 !! i = Some r).
  { subst s2. unfold_state. apply list_lookup_insert_eq. rewrite Hb1.
    eapply lookup_lt_Some; eauto. }
  split; [unfold free_at; now rewrite Hh2|].
  split.
  { unfold payload_size, GET_METADATA_FROM_PTR, GET_PTR_FROM_METADATA.
    replace (r + sizeof_metadata - sizeof_metadata) with r by lia. now rewrite Hh2. }
  split.
  { unfold bucket_dll, bin_head, fuel_of. rewrite Hb2. cbn [default]. unfold id.
    assert (Hs : exists k, base.size (heap s2) = S k).
    { destruct (base.size (heap s2)) eqn:E; [|eauto].
      apply map_size_empty_iff in E. rewrite E, lookup_empty in Hh2. discriminate. }
    destruct Hs as [k ->]. cbn [walk_bin].
    destruct (Z.eqb_spec r nullptr); [contradiction|]. rewrite Hh2.
    reflexivity. }
  rewrite (smalloc_takes_exact_head s2 n r m2 Hn Hsmall Hbrk Hh2 eq_refl eq_refl eq_refl Hb2).
  - do 2 f_equal. subst s2. unfold_state. cbn [size m2 m1 with_is_free with_bin_next with_bin_prev].
    fold i. rewrite insert_insert_eq. rewrite (insert_id _ r m1) by exact Hh1.
    rewrite list_insert_insert_eq. rewrite list_insert_id by (rewrite Hb1; exact Hbi).
    unfold grown. reflexivity.
Qed.


(** ** Buckets as doubly linked lists *)

Lemma lastp_nil pv : lastp pv [] = pv.
Proof. reflexivity. Qed.

Lemma lastp_snoc pv l x : lastp pv (l ++ [x]) = x.
Proof. unfold lastp. now rewrite last_snoc. Qed.

Lemma lastp_cons pv x l : lastp pv (x :: l) = lastp x l.
Proof.
  unfold lastp. rewrite last_cons. now destruct (last l).
Qed.

Lemma walk_bin_dseg fuel : forall h pv p l,
  walk_bin fuel h pv p = Some l -> dseg h pv p l nullptr.
Proof.
  induction fuel as [|fuel IH]; intros h pv p l H; simpl in H; [discriminate|].
  destruct (Z.eqb_spec p nullptr) as [->|Hp].
  - inversion H. constructor.
  - destruct (h !! p) as [m|] eqn:Hm; [|discriminate].
    destruct (Z.eqb_spec (bin_prev m) pv) as [Hpv|]; [|discriminate].
    destruct (walk_bin fuel h p (bin_next m)) as [l'|] eqn:E; [|discriminate].
    simpl in H. inversion H; subst. econstructor; eauto.
Qed.

Lemma dseg_walk_bin h pv p l q :
  dseg h pv p l q -> q = nullptr ->
  forall fuel, (length l < fuel)%nat -> walk_bin fuel h pv p = Some l.
Proof.
  induction 1 as [pv p|pv p m l q Hp Hm Hpv Hseg IH]; intros Hq fuel Hfuel.
  - subst. destruct fuel; [simpl in Hfuel; lia|]. reflexivity.
  - destruct fuel as [|fuel]; [lia|]. simpl in *.
    destruct (Z.eqb_spec p nullptr); [contradiction|]. rewrite Hm.
    destruct (Z.eqb_spec (bin_prev m) pv); [|contradiction].
    rewrite (IH Hq fuel) by lia. reflexivity.
Qed.

Lemma dseg_elem h pv p l q x :
  dseg h pv p l q -> x ∈ l -> x <> nullptr /\ is_Some (h !! x).
Proof.
  induction 1 as [|pv p m l q Hp Hm Hpv Hseg IH]; intros Hx.
  - inversion Hx.
  - apply elem_of_cons in Hx as [->|Hx]; eauto.
Qed.

(** A stretch reads the bin links of its own blocks only. *)
Lemma dseg_agree h h' pv p l q :
  dseg h pv p l q ->
  (forall x m, x ∈ l -> h !! x = Some m ->
     exists m', h' !! x = Some m' /\ bin_prev m' = bin_prev m /\ bin_next m' = bin_next m) ->
  dseg h' pv p l q.
Proof.
  induction 1 as [|pv p m l q Hp Hm Hpv Hseg IH]; intros Hag.
  - constructor.
  - destruct (Hag p m) as (m' & Hm' & Hbp & Hbn); [left|assumption|].
    econstructor; eauto; [congruence|]. rewrite Hbn. apply IH.
    intros x mx Hx. apply Hag. now right.
Qed.

Lemma dseg_app h pv p l1 q l2 r :
  dseg h pv p l1 q -> dseg h (lastp pv l1) q l2 r -> dseg h pv p (l1 ++ l2) r.
Proof.
  induction 1 as [|pv p m l q Hp Hm Hpv Hseg IH]; intros H2.
  - exact H2.
  - simpl. econstructor; eauto. apply IH. now rewrite lastp_cons in H2.
Qed.

Lemma dseg_split h l1 : forall pv p l2 r,
  dseg h pv p (l1 ++ l2) r ->
  exists q, dseg h pv p l1 q /\ dseg h (lastp pv l1) q l2 r.
Proof.
  induction l1 as [|x l1 IH]; intros pv p l2 r H.
  - exists p. split; [constructor|exact H].
  - simpl in H. inversion H as [|pv' p' m l q Hp Hm Hpv Hseg]; subst.
    apply IH in Hseg as (q & H1 & H2). exists q. split.
    + econstructor; eauto.
    + now rewrite lastp_cons.
Qed.

Lemma dseg_head h pv p x l q :
  dseg h pv p (x :: l) q ->
  p = x /\ x <> nullptr /\
  exists m, h !! x = Some m /\ bin_prev m = pv /\ dseg h x (bin_next m) l q.
Proof.
  intros H. inversion H; subst. eauto 10.
Qed.

Lemma dseg_nil_inv h pv p q : dseg h pv p [] q -> p = q.
Proof. now inversion 1. Qed.

(** ** Heaps that differ in bin links only *)

Lemma bin_only_refl h : bin_only h h.
Proof. now intros p. Qed.

Lemma bin_only_trans h1 h2 h3 : bin_only h1 h2 -> bin_only h2 h3 -> bin_only h1 h3.
Proof. intros H1 H2 p. now rewrite H1. Qed.

Lemma bin_only_update h p m m' :
  h !! p = Some m -> addr_fields m' = addr_fields m -> bin_only h (<[p := m']> h).
Proof.
  intros Hm Hf q. destruct (decide (q = p)) as [->|Hq].
  - rewrite lookup_insert_eq, Hm. simpl. now rewrite Hf.
  - now rewrite lookup_insert_ne by congruence.
Qed.

Lemma bin_only_lookup h h' p m :
  bin_only h h' -> h !! p = Some m ->
  exists m', h' !! p = Some m' /\ addr_fields m' = addr_fields m.
Proof.
  intros Hb Hm. specialize (Hb p). rewrite Hm in Hb.
  destruct (h' !! p) as [m'|]; [|discriminate].
  exists m'. split; [reflexivity|]. simpl in Hb. congruence.
Qed.

Lemma bin_only_none h h' p : bin_only h h' -> h !! p = None -> h' !! p = None.
Proof.
  intros Hb Hm. specialize (Hb p). rewrite Hm in Hb.
  destruct (h' !! p); [discriminate|reflexivity].
Qed.


Ltac lk :=
  unfold_state;
  repeat (rewrite lookup_insert_eq || rewrite lookup_insert_ne by congruence);
  try eassumption; try reflexivity.

Ltac in_list :=
  solve [simpl;
         repeat (rewrite elem_of_app || rewrite elem_of_cons || rewrite list_elem_of_singleton);
         auto 8].

Ltac step_update :=
  erewrite bind_ok; [|apply update_ok; [assumption|lk]].

Ltac step_load :=
  erewrite bind_ok; [|apply load_ok; [assumption|lk]].

(** ** [remove_from_bin] on a sound bucket *)

(** The block [w] sits in the bucket of its size between the stretches [A]
    and [B].  After [remove_from_bin] the bucket is sound again and [w] is
    out of it; what is left of it is [B] when [w] was the head, and [A]
    otherwise (the blocks of [B] are then no longer reached from the head).
    Only bin links of blocks of the bucket and the bucket's head change. *)
Lemma remove_from_bin_dll s w hw A B :
  w <> nullptr ->
  heap s !! w = Some hw ->
  0 <= size hw < MIN_KB_BLOCK ->
  length (free_block_bin s) = Z.to_nat BIN_SIZE ->
  dseg (heap s) nullptr (bin_head s (Z.to_nat (GET_BIN_ENTRY (size hw)))) (A ++ w :: B) nullptr ->
  NoDup (A ++ w :: B) ->
  exists s' L',
    remove_from_bin w s = Ok (tt, s') /\
    bin_only (heap s) (heap s') /\
    heap s' !! w = Some (with_bin_prev nullptr (with_bin_next nullptr hw)) /\
    (forall x, x ∉ A ++ w :: B -> heap s' !! x = heap s !! x) /\
    (forall j, j <> Z.to_nat (GET_BIN_ENTRY (size hw)) ->
               free_block_bin s' !! j = free_block_bin s !! j) /\
    length (free_block_bin s') = Z.to_nat BIN_SIZE /\
    dseg (heap s') nullptr (bin_head s' (Z.to_nat (GET_BIN_ENTRY (size hw)))) L' nullptr /\
    (forall x, x ∈ L' -> x ∈ A ++ B) /\
    NoDup L' /\
    L' = match A with [] => B | _ => A end.
Proof.
  intros Hw Hhw Hsz Hlen Hseg Hnd.
  set (i := Z.to_nat (GET_BIN_ENTRY (size hw))) in *.
  pose proof (bin_entry_range _ Hsz) as Hi.
  assert (Hil : (i < length (free_block_bin s))%nat) by (rewrite Hlen; unfold BIN_SIZE in *; lia).
  assert (Hbin : exists q, free_block_bin s !! i = Some q) by (apply lookup_lt_is_Some; lia).
  destruct Hbin as [q0 Hq0].
  apply dseg_split in Hseg as (q & HA & HwB).
  apply dseg_head in HwB as (-> & _ & m & Hm & Hbp & HB).
  rewrite Hhw in Hm. inversion Hm; subst m; clear Hm.
  apply NoDup_app in Hnd as (HndA & HAw & HndwB).
  apply NoDup_cons in HndwB as (HwB & HndB).
  unfold remove_from_bin. rewrite (bind_ok _ _ _ _ _ (load_ok _ _ _ Hw Hhw)).
  fold i.
  destruct A as [|a0 A0] using rev_ind; [|clear IHA0].
  - (* [w] is the head *)
    apply dseg_nil_inv in HA. rewrite lastp_nil in Hbp. rewrite Hbp.
    change (nullptr =? nullptr) with true. rewrite andb_true_r.
    destruct B as [|b B'].
    + (* ... and the only block *)
      apply dseg_nil_inv in HB. rewrite HB.
      change (nullptr =? nullptr) with true. cbv iota.
      erewrite bind_ok; [|eapply set_bin_at; [exact Hsz|exact Hq0]].
      unfold set_bin_next, set_bin_prev. fold i.
      step_update.
      erewrite update_ok; [|assumption|lk].
      eexists _, []. split; [reflexivity|]. unfold_state.
      rewrite insert_insert_eq.
      split; [apply bin_only_update with (m := hw); [assumption|reflexivity]|].
      split; [apply lookup_insert_eq|].
      split.
      { intros x Hx. rewrite lookup_insert_ne; [reflexivity|].
        intros E; subst x. apply Hx. now left. }
      split; [intros j Hj; now rewrite list_lookup_insert_ne by congruence|].
      split; [now rewrite length_insert|].
      split; [|split; [intros x Hx; inversion Hx|split; [constructor|reflexivity]]].
      unfold bin_head. unfold_state. rewrite list_lookup_insert_eq by assumption.
      constructor.
    + (* ... followed by [b] *)
      apply dseg_head in HB as (Hbn & Hb & mb & Hmb & Hbpb & HB').
      rewrite Hbn.
      destruct (Z.eqb_spec b nullptr); [contradiction|]. cbv iota.
      assert (Hbw : b <> w) by (intros E; apply HwB; rewrite <- E; now left).
      apply NoDup_cons in HndB as (HbB' & HndB').
      erewrite bind_ok.
      2:{ erewrite bind_ok; [|eapply set_bin_at; [exact Hsz|exact Hq0]].
          unfold set_bin_prev. apply update_ok; [assumption|lk]. }
      unfold set_bin_next, set_bin_prev. fold i.
      step_update.
      erewrite update_ok; [|assumption|lk].
      eexists _, (b :: B'). split; [reflexivity|]. unfold_state.
      rewrite insert_insert_eq.
      split.
      { eapply bin_only_trans.
        - apply bin_only_update with (p := b) (m := mb) (m' := with_bin_prev nullptr mb);
            [assumption|reflexivity].
        - apply bin_only_update with (m := hw); [lk|reflexivity]. }
      split; [apply lookup_insert_eq|].
      split.
      { intros x Hx. rewrite !lookup_insert_ne; [reflexivity| |];
          intros E; subst x; apply Hx; in_list. }
      split; [intros j Hj; now rewrite list_lookup_insert_ne by congruence|].
      split; [now rewrite length_insert|].
      split; [|split; [intros x Hx; exact Hx|split; [now apply NoDup_cons|reflexivity]]].
      unfold bin_head. unfold_state. rewrite list_lookup_insert_eq by assumption.
      cbn [default]. unfold id.
      econstructor; [assumption|lk|reflexivity|]. cbn [bin_next with_bin_prev].
      eapply dseg_agree; [exact HB'|].
      intros x mx Hx Hmx. exists mx. split; [|auto].
      rewrite !lookup_insert_ne; [assumption| |]; intros E; subst x;
        first [contradiction | apply HwB; now right].
  - (* [w] has a predecessor [a0] in the bucket *)
    rewrite lastp_snoc in Hbp.
    apply dseg_split in HA as (qa & HA0 & Ha0).
    apply dseg_head in Ha0 as (-> & Ha & ma & Hma & Hbpa & Hend).
    apply dseg_nil_inv in Hend.
    assert (Haw : a0 <> w).
    { intros E. apply (HAw w); [apply elem_of_app; right; rewrite <- E; now left|now left]. }
    apply NoDup_app in HndA as (HndA0 & HA0a & _).
    rewrite Hbp. destruct (Z.eqb_spec a0 nullptr); [contradiction|].
    rewrite andb_false_r. cbv iota.
    unfold set_bin_next, set_bin_prev.
    step_update. step_update.
    erewrite update_ok; [|assumption|lk].
    eexists _, (A0 ++ [a0]). split; [reflexivity|]. unfold_state.
    rewrite insert_insert_eq.
    split.
    { eapply bin_only_trans.
      - apply bin_only_update with (p := a0) (m := ma) (m' := with_bin_next nullptr ma);
          [assumption|reflexivity].
      - apply bin_only_update with (m := hw); [lk|reflexivity]. }
    split; [apply lookup_insert_eq|].
    split.
    { intros x Hx. rewrite !lookup_insert_ne; [reflexivity| |];
        intros E; subst x; apply Hx; in_list. }
    split; [reflexivity|]. split; [assumption|].
    split; [|split; [intros x Hx; apply elem_of_app; now left|split]].
    2:{ apply NoDup_app. split; [assumption|]. split; [assumption|]. apply NoDup_singleton. }
    2:{ now destruct A0. }
    eapply dseg_app.
    + eapply dseg_agree; [exact HA0|].
      intros x mx Hx Hmx. exists mx. split; [|auto].
      rewrite !lookup_insert_ne; [assumption| |]; intros E; subst x;
        first [ apply (HAw w); [apply elem_of_app; now left|now left]
              | apply (HA0a a0); [assumption|now left] ].
    + econstructor; [assumption|lk|exact Hbpa|]. cbn [bin_next with_bin_next].
      constructor.
Qed.

Lemma dseg_frame h h' pv p l q :
  dseg h pv p l q -> (forall x, x ∈ l -> h' !! x = h !! x) -> dseg h' pv p l q.
Proof.
  intros H Hf. eapply dseg_agree; [exact H|].
  intros x m Hx Hm. exists m. rewrite Hf by assumption. auto.
Qed.

Lemma bin_only_insert_r h h1 p m m' :
  bin_only h h1 -> h1 !! p = Some m -> addr_fields m' = addr_fields m ->
  bin_only h (<[p := m']> h1).
Proof.
  intros H Hm Hf. eapply bin_only_trans; [exact H|]. eapply bin_only_update; eauto.
Qed.

(** The heap after some updates of bin links against the heap before. *)
Ltac bin_only_updates :=
  repeat (eapply bin_only_insert_r;
          [ | solve [lk]
            | solve [reflexivity | unfold addr_fields; cbn; congruence] ]);
  apply bin_only_refl.

(** A lookup of [x] under updates of other blocks; [tac] refutes [x] being
    one of them. *)
Ltac frame_at x tac :=
  rewrite !lookup_insert_ne by (let E := fresh "E" in intros E; subst x; tac);
  try reflexivity.

(** ** [insert_block_to_bin] on a sound bucket *)

Section Insert.
Variable nb : Z.
Variable mn : MallocMetadata.
Hypothesis Hnb : nb <> nullptr.
Hypothesis Hfree : is_free mn = true.
Hypothesis Hsize : 0 <= size mn < MIN_KB_BLOCK.

Local Abbreviation k := (Z.to_nat (GET_BIN_ENTRY (size mn))).
Local Abbreviation inserted := (inserted_at nb (Z.to_nat (GET_BIN_ENTRY (size mn)))).

Lemma insert_bin_loop_dll l2 : forall l1 fuel s block,
  heap s !! nb = Some mn ->
  length (free_block_bin s) = Z.to_nat BIN_SIZE ->
  dseg (heap s) nullptr (bin_head s k) l1 block ->
  dseg (heap s) (lastp nullptr l1) block l2 nullptr ->
  NoDup (l1 ++ l2) -> nb ∉ l1 ++ l2 -> (l1 = [] -> l2 <> []) ->
  (length l2 < fuel)%nat ->
  exists s', insert_bin_loop fuel nb block (lastp nullptr l1) s = Ok (tt, s') /\
             inserted s s' (l1 ++ l2).
Proof.
  pose proof (bin_entry_range _ Hsize) as Hk.
  induction l2 as [|b l2 IH]; intros l1 fuel s block Hmn Hlen H1 H2 Hnd Hnotin Hne Hfuel.
  - (* the loop ran off the end: append after the last block *)
    apply dseg_nil_inv in H2. subst block.
    destruct l1 as [|a l1] using rev_ind; [now specialize (Hne eq_refl)|clear IHl1].
    rewrite app_nil_r in *. rewrite lastp_snoc.
    apply dseg_split in H1 as (qa & H1 & Ha).
    apply dseg_head in Ha as (-> & Ha & ma & Hma & Hbpa & Hend).
    apply dseg_nil_inv in Hend.
    assert (Han : a <> nb) by (intros E; apply Hnotin; rewrite <- E; in_list).
    apply NoDup_app in Hnd as (Hnd1 & H1a & _).
    destruct fuel as [|fuel]; [lia|]. cbn [insert_bin_loop].
    change (nullptr =? nullptr) with true. cbv iota.
    unfold set_bin_next, set_bin_prev, set_is_free.
    step_update. step_update. step_update.
    erewrite update_ok; [|assumption|lk].
    eexists. split; [reflexivity|]. unfold inserted_at. unfold_state.
    rewrite !insert_insert_eq.
    split.
    { exists (l1 ++ [a]), []. split; [now rewrite app_nil_r|].
      rewrite <- app_assoc. eapply dseg_app.
      - eapply dseg_frame; [exact H1|]. intros x Hx.
        frame_at x ltac:(first [ apply Hnotin; in_list
                               | apply (H1a a); [assumption|now left] ]).
      - econstructor; [assumption|lk|exact Hbpa|]. cbn [bin_next with_bin_next].
        econstructor; [assumption|lk|reflexivity|]. cbn [bin_next with_bin_next with_is_free
          with_bin_prev]. constructor. }
    split.
    { bin_only_updates. }
    split.
    { intros x Hx. frame_at x ltac:(apply Hx; in_list). }
    split; [reflexivity|assumption].
  - (* the loop stands at [b] *)
    apply dseg_head in H2 as (-> & Hb & mb & Hmb & Hbpb & H2).
    assert (Hbn : b <> nb) by (intros E; apply Hnotin; rewrite <- E; in_list).
    destruct fuel as [|fuel]; [simpl in Hfuel; lia|]. cbn [insert_bin_loop].
    destruct (Z.eqb_spec b nullptr); [contradiction|].
    rewrite (bind_ok _ _ _ _ _ (load_ok _ _ _ Hb Hmb)).
    rewrite (bind_ok _ _ _ _ _ (load_ok _ _ _ Hnb Hmn)).
    destruct (Z.leb_spec (size mn) (size mb)) as [Hle|Hgt].
    + (* insert before [b] *)
      rewrite Hbpb.
      assert (Hil : (k < length (free_block_bin s))%nat)
        by (rewrite Hlen; unfold BIN_SIZE in *; lia).
      destruct (lookup_lt_is_Some_2 _ _ Hil) as [q0 Hq0].
      destruct l1 as [|a l1] using rev_ind; [|clear IHl1].
      * (* ... as the new head *)
        apply dseg_nil_inv in H1. rewrite lastp_nil in *.
        change (nullptr =? nullptr) with true. cbv iota.
        apply NoDup_cons in Hnd as (Hbl2 & Hnd2).
        unfold set_bin_next, set_bin_prev.
        step_update. step_update. step_update. step_load.
        cbn [size with_bin_prev with_bin_next].
        erewrite set_bin_at; [|exact Hsize|lk; exact Hq0].
        eexists. split; [reflexivity|]. unfold inserted_at. unfold_state.
        rewrite !insert_insert_eq.
        split.
        { exists [], (b :: l2). split; [reflexivity|].
          unfold bin_head. unfold_state.
          rewrite list_lookup_insert_eq by assumption. cbn [default app]. unfold id.
          econstructor; [assumption|lk|reflexivity|].
          cbn [bin_next with_bin_next with_bin_prev].
          econstructor; [assumption|lk|reflexivity|]. cbn [bin_next with_bin_prev].
          eapply dseg_frame; [exact H2|]. intros x Hx.
          frame_at x ltac:(first [ apply Hnotin; in_list | contradiction ]). }
        split.
        { bin_only_updates. }
        split.
        { intros x Hx. frame_at x ltac:(apply Hx; in_list). }
        split; [intros j Hj; now rewrite list_lookup_insert_ne by congruence|].
        now rewrite length_insert.
      * (* ... between [a] and [b] *)
        rewrite lastp_snoc in *.
        apply dseg_split in H1 as (qa & H1 & Ha).
        apply dseg_head in Ha as (-> & Ha & ma & Hma & Hbpa & Hend).
        apply dseg_nil_inv in Hend.
        assert (Han : a <> nb) by (intros E; apply Hnotin; rewrite <- E; in_list).
        destruct (Z.eqb_spec a nullptr); [contradiction|].
        rewrite <- app_assoc in Hnd. cbn [app] in Hnd.
        apply NoDup_app in Hnd as (Hnd1 & H1ab & Hndab).
        apply NoDup_cons in Hndab as (Hab & Hndb).
        apply NoDup_cons in Hndb as (Hbl2 & Hnd2).
        assert (Hab' : a <> b) by (intros E; apply Hab; rewrite E; now left).
        unfold set_bin_next, set_bin_prev.
        step_update. step_update. step_update.
        erewrite update_ok; [|assumption|lk].
        eexists. split; [reflexivity|]. unfold inserted_at. unfold_state.
        rewrite !insert_insert_eq.
        split.
        { exists (l1 ++ [a]), (b :: l2). split; [reflexivity|].
          rewrite <- app_assoc. eapply dseg_app.
          - eapply dseg_frame; [exact H1|]. intros x Hx.
            frame_at x ltac:(first [ apply Hnotin; in_list
                                   | apply (H1ab a); [assumption|now left]
                                   | apply (H1ab b); [assumption|right; now left] ]).
          - econstructor; [assumption|lk|exact Hbpa|]. cbn [bin_next with_bin_next].
            econstructor; [assumption|lk|reflexivity|].
            cbn [bin_next with_bin_next with_bin_prev].
            econstructor; [assumption|lk|reflexivity|]. cbn [bin_next with_bin_prev].
            eapply dseg_frame; [exact H2|]. intros x Hx.
            frame_at x ltac:(first [ apply Hnotin; in_list
                                   | contradiction
                                   | apply Hab; now right ]). }
        split.
        { bin_only_updates. }
        split.
        { intros x Hx. frame_at x ltac:(apply Hx; in_list). }
        split; [reflexivity|assumption].
    + (* go on after [b] *)
      destruct (IH (l1 ++ [b]) fuel s (bin_next mb)) as (s' & Hrun & Hins).
      * assumption.
      * assumption.
      * eapply dseg_app; [exact H1|]. econstructor; eauto. constructor.
      * now rewrite lastp_snoc.
      * now rewrite <- app_assoc.
      * now rewrite <- app_assoc.
      * intros E. destruct l1; discriminate.
      * simpl in Hfuel. lia.
      * rewrite lastp_snoc in Hrun. exists s'. split; [exact Hrun|].
        now rewrite <- app_assoc in Hins.
Qed.

Lemma insert_block_to_bin_dll s l :
  heap s !! nb = Some mn ->
  length (free_block_bin s) = Z.to_nat BIN_SIZE ->
  dseg (heap s) nullptr (bin_head s k) l nullptr ->
  NoDup l -> nb ∉ l -> (length l < fuel_of s)%nat ->
  exists s', insert_block_to_bin nb s = Ok (tt, s') /\ inserted s s' l.
Proof.
  intros Hmn Hlen Hseg Hnd Hnotin Hfuel.
  pose proof (bin_entry_range _ Hsize) as Hk.
  assert (Hil : (k < length (free_block_bin s))%nat)
    by (rewrite Hlen; unfold BIN_SIZE in *; lia).
  destruct (lookup_lt_is_Some_2 _ _ Hil) as [q0 Hq0].
  assert (Hhead : bin_head s k = q0) by (unfold bin_head; now rewrite Hq0).
  unfold insert_block_to_bin.
  rewrite (bind_ok _ _ _ _ _ (load_ok _ _ _ Hnb Hmn)).
  rewrite (bind_ok _ _ _ _ _ (get_bin_at _ _ _ Hsize Hq0)).
  destruct l as [|b l].
  - (* the bucket is empty *)
    apply dseg_nil_inv in Hseg. rewrite Hhead in Hseg. subst q0.
    change (nullptr =? nullptr) with true. cbv iota.
    unfold set_bin_next, set_bin_prev.
    step_update. step_update. step_load.
    cbn [size with_bin_prev with_bin_next].
    erewrite set_bin_at; [|exact Hsize|lk; exact Hq0].
    eexists. split; [reflexivity|]. unfold inserted_at. unfold_state.
    rewrite !insert_insert_eq.
    split.
    { exists [], []. split; [reflexivity|].
      unfold bin_head. unfold_state.
      rewrite list_lookup_insert_eq by assumption. cbn [default app]. unfold id.
      econstructor; [assumption|lk|reflexivity|]. constructor. }
    split; [bin_only_updates|].
    split.
    { intros x Hx. frame_at x ltac:(apply Hx; in_list). }
    split; [intros j Hj; now rewrite list_lookup_insert_ne by congruence|].
    now rewrite length_insert.
  - (* the loop *)
    pose proof (dseg_head _ _ _ _ _ _ Hseg) as (Hq & Hb & _).
    assert (Eq : q0 = b) by congruence. rewrite Eq in *. clear Eq.
    destruct (Z.eqb_spec b nullptr); [contradiction|].
    destruct (insert_bin_loop_dll (b :: l) [] (fuel_of s) s b) as (s' & Hrun & Hins);
      try assumption.
    + rewrite Hhead. constructor.
    + rewrite lastp_nil. rewrite Hhead in Hseg. exact Hseg.
    + discriminate.
    + exists s'. split; [|exact Hins].
      unfold walk_fuel. rewrite bind_gets. exact Hrun.
Qed.

End Insert.

(** ** Sound bins *)

Lemma NoDup_length_heap (h : gmap Z MallocMetadata) (l : list Z) :
  NoDup l -> (forall x, x ∈ l -> is_Some (h !! x)) -> (length l <= base.size h)%nat.
Proof.
  intros Hnd Hin. rewrite <- size_dom. unfold base.size at 1, set_size. simpl.
  apply submseteq_length, NoDup_submseteq; [assumption|].
  intros x Hx. apply elem_of_elements, elem_of_dom. auto.
Qed.

Lemma dseg_fuel s pv p l q :
  dseg (heap s) pv p l q -> NoDup l -> (length l < fuel_of s)%nat.
Proof.
  intros H Hnd. unfold fuel_of.
  assert (length l <= base.size (heap s))%nat; [|lia].
  apply NoDup_length_heap; [assumption|].
  intros x Hx. eapply dseg_elem; eauto.
Qed.

Lemma bucket_dll_bucket s j l : bucket_dll s j = Some l -> bucket s j = l.
Proof.
  unfold bucket_dll, bucket. intros H. now rewrite (walk_bin_walk _ _ _ _ _ H).
Qed.

Lemma bucket_dll_dseg s j l :
  bucket_dll s j = Some l ->
  dseg (heap s) nullptr (bin_head s j) l nullptr /\ NoDup l.
Proof.
  unfold bucket_dll. intros H. split.
  - eapply walk_bin_dseg; eauto.
  - eapply walk_NoDup, walk_bin_walk; eauto.
Qed.

Lemma dseg_bucket_dll s j l :
  dseg (heap s) nullptr (bin_head s j) l nullptr -> NoDup l -> bucket_dll s j = Some l.
Proof.
  intros H Hnd. unfold bucket_dll.
  eapply dseg_walk_bin; [exact H|reflexivity|]. eapply dseg_fuel; eauto.
Qed.

Lemma NoDup_concat_disjoint {A B} (f : A -> list B) (l : list A) :
  NoDup l -> NoDup (concat (map f l)) ->
  forall a b x, a ∈ l -> b ∈ l -> a <> b -> x ∈ f a -> x ∉ f b.
Proof.
  induction l as [|c l IH]; intros Hl Hnd a b x Ha Hb Hab Hxa Hxb; [inversion Ha|].
  simpl in Hnd. apply NoDup_app in Hnd as (Hc & Hdis & Hrest).
  apply NoDup_cons in Hl as (Hcl & Hl).
  assert (Hin : forall d y, d ∈ l -> y ∈ f d -> y ∈ concat (map f l)).
  { intros d y Hd Hy. apply list_elem_of_In, in_concat. exists (f d).
    split; [apply in_map; now apply list_elem_of_In|now apply list_elem_of_In]. }
  apply elem_of_cons in Ha as [Ea|Ha]; apply elem_of_cons in Hb as [Eb|Hb].
  - congruence.
  - subst a. apply (Hdis x Hxa). eapply Hin; eauto.
  - subst b. apply (Hdis x Hxb). eapply Hin; eauto.
  - exact (IH Hl Hrest a b x Ha Hb Hab Hxa Hxb).
Qed.

Lemma bins_sound_spec s :
  bins_sound s = true ->
  length (free_block_bin s) = Z.to_nat BIN_SIZE /\
  (forall j, (j < Z.to_nat BIN_SIZE)%nat -> exists l, bucket_dll s j = Some l) /\
  (forall i j x, (i < Z.to_nat BIN_SIZE)%nat -> (j < Z.to_nat BIN_SIZE)%nat -> i <> j ->
                 x ∈ bucket s i -> x ∉ bucket s j).
Proof.
  unfold bins_sound. rewrite !andb_true_iff.
  intros [[Hlen Hall] Hnd]. apply Nat.eqb_eq in Hlen.
  rewrite forallb_forall in Hall. apply bool_decide_eq_true in Hnd.
  split; [assumption|]. split.
  - intros j Hj. specialize (Hall j). rewrite in_seq in Hall.
    apply bool_decide_eq_true in Hall; [|lia]. destruct Hall as [l Hl]. eauto.
  - intros i j x Hi Hj Hij. unfold binned in Hnd.
    eapply NoDup_concat_disjoint; [apply NoDup_seq|exact Hnd| | |assumption];
      apply elem_of_seq; lia.
Qed.

(** ** What the search returns *)

Lemma get_bin_inv i p s s' : get_bin i s = Ok (p, s') -> s' = s.
Proof.
  unfold get_bin. destruct ((0 <=? i) && (i <? BIN_SIZE)); [|discriminate].
  destruct (free_block_bin s !! Z.to_nat i); [|discriminate].
  now intros [= _ <-].
Qed.

(** A search that returns a block has taken it, from the state the search
    started in; one that returns none has changed nothing. *)
Lemma scan_chain_result fuel : forall size_ p s r s',
  scan_chain fuel size_ p s = Ok (r, s') ->
  match r with
  | Some w => w <> nullptr /\ take_block w size_ s = Ok (tt, s')
  | None => s' = s
  end.
Proof.
  induction fuel as [|fuel IH]; intros size_ p s r s' H; simpl in H; [discriminate|].
  destruct (Z.eqb_spec p nullptr) as [->|Hp]; [now inversion H|].
  apply bind_inv in H as (b & s1 & Hl & H).
  apply load_inv in Hl as (-> & _ & Hb).
  destruct (size_ <=? size b); [|now apply IH in H].
  apply bind_inv in H as ([] & s2 & Htake & H). inversion H; subst. auto.
Qed.

Lemma scan_bins_result n : forall size_ i s w s',
  scan_bins n size_ i s = Ok (w, s') -> w <> nullptr ->
  take_block w size_ s = Ok (tt, s').
Proof.
  induction n as [|n IH]; intros size_ i s w s' H Hw; simpl in H.
  - inversion H; subst; contradiction.
  - apply bind_inv in H as (head & s1 & Hg & H).
    apply get_bin_inv in Hg as ->.
    destruct (head =? nullptr); [now apply IH in H|].
    unfold walk_fuel in H. rewrite bind_gets in H.
    apply bind_inv in H as (r & s2 & Hscan & H).
    apply scan_chain_result in Hscan.
    destruct r as [b|].
    + inversion H; subst. tauto.
    + subst s2. now apply IH in H.
Qed.

Lemma get_free_metadata_block_result size_ s w s' :
  get_free_metadata_block size_ s = Ok (w, s') -> w <> nullptr ->
  take_block w size_ s = Ok (tt, s').
Proof. unfold get_free_metadata_block. apply scan_bins_result. Qed.

(** ** The defect of [remove_from_bin], in general *)

(** Whenever the block removed from a sound bucket has a predecessor there,
    the bucket ends at that predecessor afterwards: every block that
    followed the removed one is still free (if it was) and is no longer
    linked from the bucket's head. *)
Lemma remove_from_bin_drops_successors s w hw A B :
  w <> nullptr ->
  heap s !! w = Some hw ->
  0 <= size hw < MIN_KB_BLOCK ->
  length (free_block_bin s) = Z.to_nat BIN_SIZE ->
  bucket_dll s (Z.to_nat (GET_BIN_ENTRY (size hw))) = Some (A ++ w :: B) ->
  A <> [] ->
  exists s',
    remove_from_bin w s = Ok (tt, s') /\
    bucket s' (Z.to_nat (GET_BIN_ENTRY (size hw))) = A /\
    forall x, x ∈ B ->
      (x ∉ bucket s' (Z.to_nat (GET_BIN_ENTRY (size hw)))) /\ free_at s' x = free_at s x.
Proof.
  intros Hw Hhw Hsz Hlen Hdll HA.
  apply bucket_dll_dseg in Hdll as (Hseg & Hnd).
  destruct (remove_from_bin_dll s w hw A B Hw Hhw Hsz Hlen Hseg Hnd)
    as (s' & L' & Hrm & Hbo & _ & _ & _ & _ & Hseg' & _ & Hnd' & HL').
  assert (EL : L' = A) by (destruct A; [contradiction|exact HL']).
  clear HL'. rewrite EL in *. clear EL.
  exists s'. split; [exact Hrm|].
  rewrite (bucket_dll_bucket _ _ _ (dseg_bucket_dll _ _ _ Hseg' Hnd')).
  split; [reflexivity|]. intros x Hx. split.
  - intros HxA. apply NoDup_app in Hnd as (_ & Hdis & _).
    apply (Hdis x HxA). now right.
  - unfold free_at. specialize (Hbo x). unfold addr_fields in Hbo.
    destruct (heap s !! x), (heap s' !! x); simpl in Hbo; congruence.
Qed.

(** ** [cut_block] on sound bins *)

Ltac tidy_state :=
  unfold with_heap, with_metadata_head, with_mmap_metadata_head, with_free_block_bin,
         with_mem, with_brk, with_mmap_answers;
  cbn [heap metadata_head mmap_metadata_head free_block_bin mem brk brk_limit
       mmap_answers];
  rewrite ?insert_insert_eq.

Ltac step_update_tidy := step_update; tidy_state.

Lemma large_enough_spec e n_ :
  0 <= n_ <= e -> e < MIN_KB_BLOCK ->
  IS_LARGE_ENOUGH e n_ = true -> n_ + sizeof_metadata + 128 <= e.
Proof.
  unfold IS_LARGE_ENOUGH, MIN_KB_BLOCK, KB, sizeof_metadata. intros H1 H2 H.
  rewrite wrap64_small in H by lia. now apply Z.leb_le.
Qed.

(** [IS_LARGE_ENOUGH] is the threshold [needed + header + 128] wherever the
    sum does not wrap around. *)
Lemma large_enough_threshold e n_ :
  0 <= n_ < 2 ^ 63 ->
  IS_LARGE_ENOUGH e n_ = (n_ + sizeof_metadata + 128 <=? e).
Proof.
  unfold IS_LARGE_ENOUGH, sizeof_metadata. intros H. now rewrite wrap64_small by lia.
Qed.

Lemma remainder_size e n_ :
  0 <= n_ -> n_ + sizeof_metadata + 128 <= e -> e < MIN_KB_BLOCK ->
  wrap64 (to_int (wrap64 (e - n_)) - sizeof_metadata) = e - n_ - sizeof_metadata.
Proof.
  unfold MIN_KB_BLOCK, KB, sizeof_metadata. intros H1 H2 H3.
  rewrite (wrap64_small (e - n_)) by lia.
  rewrite to_int_small by lia. apply wrap64_small. lia.
Qed.

(** Setting a field to the value it has changes nothing. *)
Lemma with_heap_id s : with_heap (heap s) s = s.
Proof. now destruct s. Qed.

(** The bucket [k] of a state with sound bins, once [w] has been removed
    from its own bucket [i]: still a sound list, without [w]. *)
Lemma bucket_after_remove s w hw A B sa L' k :
  bins_sound s = true ->
  (k < Z.to_nat BIN_SIZE)%nat ->
  bucket s (Z.to_nat (GET_BIN_ENTRY (size hw))) = A ++ w :: B ->
  NoDup (A ++ w :: B) ->
  bin_only (heap s) (heap sa) ->
  (forall x, x ∉ A ++ w :: B -> heap sa !! x = heap s !! x) ->
  (forall j, j <> Z.to_nat (GET_BIN_ENTRY (size hw)) ->
             free_block_bin sa !! j = free_block_bin s !! j) ->
  dseg (heap sa) nullptr (bin_head sa (Z.to_nat (GET_BIN_ENTRY (size hw)))) L' nullptr ->
  (forall x, x ∈ L' -> x ∈ A ++ B) ->
  NoDup L' ->
  0 <= size hw < MIN_KB_BLOCK ->
  exists L, dseg (heap sa) nullptr (bin_head sa k) L nullptr /\ NoDup L /\ (w ∉ L) /\
            (forall x, x ∈ L -> x ∈ bucket s k).
Proof.
  intros Hsound Hk Hbi Hnd Hbo Hframe Hbins Hseg Hsub HndL Hsz.
  destruct (bins_sound_spec s Hsound) as (Hlen & Hall & Hdisj).
  pose proof (bin_entry_range _ Hsz) as Hi.
  set (i := Z.to_nat (GET_BIN_ENTRY (size hw))) in *.
  assert (HwAB : w ∉ A ++ B).
  { apply NoDup_app in Hnd as (_ & HAw & HwB). apply NoDup_cons in HwB as (HwB & _).
    intros Hin. apply elem_of_app in Hin as [Hin|Hin]; [|contradiction].
    apply (HAw w Hin). now left. }
  destruct (decide (k = i)) as [->|Hki].
  - exists L'. split; [assumption|]. split; [assumption|]. split.
    + intros Hin. apply HwAB. auto.
    + intros x Hx. fold i. rewrite Hbi. specialize (Hsub x Hx).
      apply elem_of_app in Hsub as [Hx'|Hx']; in_list.
  - destruct (Hall k Hk) as [Lk HLk].
    pose proof (bucket_dll_bucket _ _ _ HLk) as Hbk.
    apply bucket_dll_dseg in HLk as (Hsegk & Hndk).
    assert (Hdis : forall x, x ∈ Lk -> x ∉ A ++ w :: B).
    { intros x Hx Hx'. rewrite <- Hbi in Hx'. rewrite <- Hbk in Hx.
      apply (Hdisj i k x); try assumption; [unfold BIN_SIZE in *; lia|congruence]. }
    exists Lk. split; [|split; [assumption|split]].
    + unfold bin_head in *. rewrite Hbins by assumption.
      eapply dseg_frame; [exact Hsegk|]. intros x Hx. apply Hframe. auto.
    + intros Hin. apply (Hdis w Hin). in_list.
    + intros x Hx. now rewrite Hbk.
Qed.

(** The split of the chosen block.  [nb] is the remainder's header, right
    after the [size_] bytes kept in [w]; a header an earlier split left at
    that address is overwritten, and the bucket the remainder goes to must
    not link that address already. *)
Lemma cut_block_sound s w hw size_ :
  bins_sound s = true ->
  0 < w ->
  heap s !! w = Some hw ->
  0 <= size_ <= size hw -> size hw < MIN_KB_BLOCK ->
  IS_LARGE_ENOUGH (size hw) size_ = true ->
  w ∈ bucket s (Z.to_nat (GET_BIN_ENTRY (size hw))) ->
  (w + size_ + sizeof_metadata) ∉
    bucket s (Z.to_nat (GET_BIN_ENTRY (size hw - size_ - sizeof_metadata))) ->
  next hw = nullptr \/ is_Some (heap s !! next hw) ->
  next hw <> w ->
  next hw <> w + size_ + sizeof_metadata ->
  let nb := w + size_ + sizeof_metadata in
  let rest := size hw - size_ - sizeof_metadata in
  exists s' la lb bn bp,
    cut_block w size_ true s = Ok (tt, s') /\
    heap s' !! w = Some (mkMeta size_ false nb (prev hw) nullptr nullptr) /\
    heap s' !! nb = Some (mkMeta rest true (next hw) w bn bp) /\
    (next hw <> nullptr ->
       exists m0 m, heap s !! next hw = Some m0 /\ heap s' !! next hw = Some m /\
                    addr_fields m = addr_fields (with_prev nb m0)) /\
    bucket_dll s' (Z.to_nat (GET_BIN_ENTRY rest)) = Some (la ++ nb :: lb) /\
    w ∉ la ++ nb :: lb.
Proof.
  intros Hsound Hpos Hhw Hfit Hsmall Hlarge Hin Hfresh Hnext Hnw Hnnb nb rest.
  destruct (bins_sound_spec s Hsound) as (Hlen & Hall & Hdisj).
  pose proof (large_enough_spec _ _ Hfit Hsmall Hlarge) as Hge.
  assert (Hsz : 0 <= size hw < MIN_KB_BLOCK) by lia.
  pose proof (bin_entry_range _ Hsz) as Hi.
  assert (Hrest : 0 <= rest < MIN_KB_BLOCK) by (unfold rest, sizeof_metadata in *; lia).
  pose proof (bin_entry_range _ Hrest) as Hk.
  assert (Hw : w <> nullptr) by (unfold nullptr; lia).
  assert (Hnb : nb <> nullptr) by (unfold nb, nullptr, sizeof_metadata; lia).
  assert (Hwnb : w <> nb) by (unfold nb, sizeof_metadata; lia).
  fold nb in Hnnb. fold nb rest in Hfresh.
  set (i := Z.to_nat (GET_BIN_ENTRY (size hw))) in *.
  set (k := Z.to_nat (GET_BIN_ENTRY rest)) in *.
  (* 1. [w] leaves its bucket *)
  destruct (Hall i ltac:(unfold BIN_SIZE in *; lia)) as [Li HLi].
  pose proof (bucket_dll_bucket _ _ _ HLi) as Hbi. rewrite Hbi in Hin.
  apply list_elem_of_split in Hin as (A & B & ->).
  apply bucket_dll_dseg in HLi as (Hsegi & Hndi).
  destruct (remove_from_bin_dll s w hw A B Hw Hhw Hsz Hlen Hsegi Hndi)
    as (sa & L' & Hrm & Hbo_a & Hwa & Hframe_a & Hbins_a & Hlen_a & Hseg_a & Hsub_a & Hnd_a & _).
  fold i in Hbins_a, Hseg_a.
  destruct (bucket_after_remove s w hw A B sa L' k Hsound ltac:(unfold BIN_SIZE in *; lia)
              Hbi Hndi Hbo_a Hframe_a Hbins_a Hseg_a Hsub_a Hnd_a Hsz)
    as (L & HsegL & HndL & HwL & HsubL).
  (* 2. the remainder's header *)
  set (mn := mkMeta rest true (next hw) w nullptr nullptr).
  set (sb := with_heap (<[nb := mn]> (heap sa)) sa).
  assert (HnbL : nb ∉ L).
  { intros Hx. apply Hfresh. fold k. auto. }
  assert (HsegLb : dseg (heap sb) nullptr (bin_head sb k) L nullptr).
  { eapply dseg_frame; [exact HsegL|]. intros x Hx. unfold sb. unfold_state.
    apply lookup_insert_ne. intros E. apply HnbL. now rewrite E. }
  (* 3. the remainder enters bucket [k] *)
  destruct (insert_block_to_bin_dll nb mn Hnb eq_refl Hrest sb L) as (sc & Hins & Hinserted).
  { unfold sb. unfold_state. apply lookup_insert_eq. }
  { exact Hlen_a. }
  { exact HsegLb. }
  { exact HndL. }
  { exact HnbL. }
  { eapply dseg_fuel; eauto. }
  destruct Hinserted as ((la & lb & HL & Hseg_c) & Hbo_c & Hframe_c & Hbins_c & Hlen_c).
  fold k in Hseg_c, Hbins_c.
  assert (Hwc : heap sc !! w = Some (with_bin_prev nullptr (with_bin_next nullptr hw))).
  { rewrite Hframe_c.
    - unfold sb. unfold_state. now rewrite lookup_insert_ne by congruence.
    - intros Hx. apply elem_of_cons in Hx as [Hx|Hx]; [congruence|contradiction]. }
  destruct (bin_only_lookup _ _ nb mn Hbo_c) as (mn' & Hnbc & Hmn');
    [unfold sb; unfold_state; apply lookup_insert_eq|].
  (* 4. the address chain *)
  assert (Hnextc : next hw <> nullptr ->
            exists m0 m, heap s !! next hw = Some m0 /\ heap sc !! next hw = Some m /\
                         addr_fields m = addr_fields m0).
  { intros Hn0. destruct Hnext as [?|[m0 Hm0]]; [contradiction|].
    destruct (bin_only_lookup _ _ _ _ Hbo_a Hm0) as (m1 & Hm1 & Hf1).
    assert (Hm1b : heap sb !! next hw = Some m1)
      by (unfold sb; unfold_state; now rewrite lookup_insert_ne by congruence).
    destruct (bin_only_lookup _ _ _ _ Hbo_c Hm1b) as (m2 & Hm2 & Hf2).
    exists m0, m2. split; [assumption|]. split; [assumption|]. congruence. }
  (* what is left to show once the last fields are written: [H] is the heap
     after the successor's [prev] has been set, if there is a successor *)
  assert (HndL' : NoDup (la ++ nb :: lb)).
  { rewrite HL in HndL, HnbL. apply NoDup_app in HndL as (Hla & Hlab & Hlb).
    apply NoDup_app. split; [assumption|]. split.
    - intros x Hx Hx'. apply elem_of_cons in Hx' as [E|Hx'].
      + apply HnbL. rewrite <- E. in_list.
      + exact (Hlab x Hx Hx').
    - apply NoDup_cons. split; [|assumption]. intros Hx. apply HnbL. in_list. }
  assert (HwL' : w ∉ la ++ nb :: lb).
  { rewrite HL in HwL. intros Hx. apply elem_of_app in Hx as [Hx|Hx].
    - apply HwL. in_list.
    - apply elem_of_cons in Hx as [E|Hx]; [congruence|]. apply HwL. in_list. }
  assert (Hfin : forall (H : gmap Z MallocMetadata) (W : MallocMetadata),
    (forall x m, heap sc !! x = Some m ->
       exists m', H !! x = Some m' /\ bin_prev m' = bin_prev m /\ bin_next m' = bin_next m /\
                  (x <> next hw -> m' = m)) ->
    let s' := mkState (<[w := W]> H) (metadata_head sc) (mmap_metadata_head sc)
                      (free_block_bin sc) (mem sc) (brk sc) (brk_limit sc)
                      (mmap_answers sc) in
    heap s' !! w = Some W /\
    (exists bn bp, heap s' !! nb = Some (mkMeta rest true (next hw) w bn bp)) /\
    bucket_dll s' k = Some (la ++ nb :: lb)).
  { intros H W HH s'. split; [apply lookup_insert_eq|]. split.
    - destruct (HH nb mn' Hnbc) as (m' & Hm' & _ & _ & Heq).
      rewrite (Heq ltac:(congruence)) in Hm'.
      exists (bin_next mn'), (bin_prev mn'). unfold s'. cbn [heap].
      rewrite lookup_insert_ne by congruence. rewrite Hm'. f_equal.
      destruct mn'. unfold addr_fields, mn in Hmn'. cbn in *. congruence.
    - apply dseg_bucket_dll; [|assumption].
      eapply dseg_agree; [exact Hseg_c|].
      intros x m Hx Hm. destruct (HH x m Hm) as (m' & Hm' & Hbp & Hbn & _).
      exists m'. unfold s'. cbn [heap]. rewrite lookup_insert_ne; [auto|].
      intros E. apply HwL'. now rewrite E. }
  unfold cut_block. cbv iota.
  rewrite (bind_ok _ _ _ _ _ Hrm).
  erewrite bind_ok; [|apply load_ok; [assumption|exact Hwa]].
  cbn [size next with_bin_prev with_bin_next].
  rewrite (remainder_size (size hw) size_ (proj1 Hfit) Hge Hsmall). fold rest. fold nb.
  unfold INIT_METADATA. destruct (Z.eqb_spec nb nullptr); [contradiction|].
  rewrite bind_modify. fold mn. fold sb.
  rewrite (bind_ok _ _ _ _ _ Hins).
  erewrite bind_ok; [|apply load_ok; [assumption|exact Hwc]].
  cbn [next with_bin_prev with_bin_next].
  unfold set_prev, set_next, set_is_free, set_size, set_bin_next, set_bin_prev.
  destruct (Z.eqb_spec (next hw) nullptr) as [En|Hn0]; cbn [negb].
  - (* [w] was the last block *)
    rewrite bind_ret.
    step_update_tidy. step_update_tidy. step_update_tidy. step_update_tidy.
    erewrite update_ok; [|assumption|lk]. tidy_state.
    cbn [with_bin_prev with_bin_next with_size with_is_free with_next size is_free next prev
         bin_next bin_prev].
    destruct (Hfin (heap sc) (mkMeta size_ false nb (prev hw) nullptr nullptr))
      as (H1 & (bn & bp & H2) & H3).
    { intros x m Hm. exists m. auto. }
    eexists _, la, lb, bn, bp. split; [reflexivity|].
    split; [exact H1|]. split; [exact H2|]. split; [intros; contradiction|].
    split; [exact H3|exact HwL'].
  - (* [w] had a successor *)
    destruct (Hnextc Hn0) as (m0 & m2 & Hm0 & Hm2 & Hf2).
    erewrite bind_ok; [|apply update_ok; [assumption|exact Hm2]]. tidy_state.
    step_update_tidy. step_update_tidy. step_update_tidy. step_update_tidy.
    erewrite update_ok; [|assumption|lk]. tidy_state.
    cbn [with_bin_prev with_bin_next with_size with_is_free with_next size is_free next prev
         bin_next bin_prev].
    destruct (Hfin (<[next hw := with_prev nb m2]> (heap sc))
                   (mkMeta size_ false nb (prev hw) nullptr nullptr))
      as (H1 & (bn & bp & H2) & H3).
    { intros x m Hm. destruct (decide (x = next hw)) as [->|Hx].
      - exists (with_prev nb m2). rewrite lookup_insert_eq.
        rewrite Hm2 in Hm. inversion Hm as [Em].
        repeat split; try reflexivity. intros Hc. now contradiction Hc.
      - exists m. rewrite lookup_insert_ne by congruence. auto. }
    eexists _, la, lb, bn, bp. split; [reflexivity|].
    split; [exact H1|]. split; [exact H2|]. split; [|split; [exact H3|exact HwL']].
    intros _. exists m0, (with_prev nb m2). split; [assumption|]. split.
    + cbn [heap]. rewrite lookup_insert_ne by congruence. apply lookup_insert_eq.
    + unfold addr_fields in *. cbn. congruence.
Qed.

(** Handing over the whole block. *)
Lemma take_whole_sound s w hw size_ :
  bins_sound s = true ->
  0 < w ->
  heap s !! w = Some hw ->
  0 <= size hw < MIN_KB_BLOCK ->
  IS_LARGE_ENOUGH (size hw) size_ = false ->
  w ∈ bucket s (Z.to_nat (GET_BIN_ENTRY (size hw))) ->
  exists s',
    take_block w size_ s = Ok (tt, s') /\
    heap s' !! w = Some (mkMeta (size hw) false (next hw) (prev hw) nullptr nullptr).
Proof.
  intros Hsound Hpos Hhw Hsz Hlarge Hin.
  destruct (bins_sound_spec s Hsound) as (Hlen & Hall & Hdisj).
  pose proof (bin_entry_range _ Hsz) as Hi.
  assert (Hw : w <> nullptr) by (unfold nullptr; lia).
  destruct (Hall (Z.to_nat (GET_BIN_ENTRY (size hw))) ltac:(unfold BIN_SIZE in *; lia))
    as [Li HLi].
  pose proof (bucket_dll_bucket _ _ _ HLi) as Hbi. rewrite Hbi in Hin.
  apply list_elem_of_split in Hin as (A & B & ->).
  apply bucket_dll_dseg in HLi as (Hsegi & Hndi).
  destruct (remove_from_bin_dll s w hw A B Hw Hhw Hsz Hlen Hsegi Hndi)
    as (sa & L' & Hrm & _ & Hwa & _).
  unfold take_block. rewrite (bind_ok _ _ _ _ _ (load_ok _ _ _ Hw Hhw)), Hlarge.
  rewrite (bind_ok _ _ _ _ _ Hrm).
  unfold set_is_free. erewrite update_ok; [|assumption|exact Hwa].
  eexists. split; [reflexivity|]. cbn [heap with_heap]. apply lookup_insert_eq.
Qed.

(** ** The split decision of the bin path *)

(** What the bin path does where the bucket of the remainder does not link
    the remainder's address already.  The bins are sound and the block [w]
    that the bin path of [smalloc(n)] has chosen is linked in the bucket of
    its size; [size] is the request rounded up.  When [w] has at least
    [size + header + 128] payload bytes it is split: [w] keeps exactly
    [size] bytes and is marked used, the new header right after them takes
    the other [w.size - size - header] bytes, is free, stands in the address
    chain between [w] and the old successor of [w], and is linked in the
    bucket of its own size.  Otherwise [w] is handed over whole, its size
    unchanged.  In both cases taking the block succeeds, and a call of
    [smalloc] whose search stops at [w] returns the payload of [w] in that
    state. *)
Lemma bin_path_split_where_remainder_unlinked (s : state) (n : Z) (w : Z) (hw : MallocMetadata)
    (Hn : 0 < n <= MAX_MALLOC_4_SIZE)
    (Hsound : bins_sound s = true)
    (Hw : 0 < w)
    (Hhw : heap s !! w = Some hw)
    (Hfit : GET_SIZE_WITH_ALIGNMENT n <= size hw < MIN_KB_BLOCK)
    (Hin : w ∈ bucket s (Z.to_nat (GET_BIN_ENTRY (size hw))))
    (Hfresh : GET_SIZE_WITH_ALIGNMENT n + sizeof_metadata + 128 <= size hw ->
              (w + GET_SIZE_WITH_ALIGNMENT n + sizeof_metadata) ∉
                bucket s (Z.to_nat (GET_BIN_ENTRY
                                      (size hw - GET_SIZE_WITH_ALIGNMENT n - sizeof_metadata))))
    (Hnext : next hw = nullptr \/ is_Some (heap s !! next hw))
    (Hnw : next hw <> w)
    (Hnnb : next hw <> w + GET_SIZE_WITH_ALIGNMENT n + sizeof_metadata) :
  let size_ := GET_SIZE_WITH_ALIGNMENT n in
  let nb := w + size_ + sizeof_metadata in
  let rest := size hw - size_ - sizeof_metadata in
  exists s',
    take_block w size_ s = Ok (tt, s') /\
    (forall s'', get_free_metadata_block size_ s = Ok (w, s'') ->
                 s'' = s' /\ smalloc n s = Ok (GET_PTR_FROM_METADATA w, s')) /\
    IS_LARGE_ENOUGH (size hw) size_ = (size_ + sizeof_metadata + 128 <=? size hw) /\
    if size_ + sizeof_metadata + 128 <=? size hw then
      heap s' !! w = Some (mkMeta size_ false nb (prev hw) nullptr nullptr) /\
      (exists bn bp, heap s' !! nb = Some (mkMeta rest true (next hw) w bn bp)) /\
      (next hw <> nullptr ->
         exists m0 m, heap s !! next hw = Some m0 /\ heap s' !! next hw = Some m /\
                      addr_fields m = addr_fields (with_prev nb m0)) /\
      nb ∈ bucket s' (Z.to_nat (GET_BIN_ENTRY rest)) /\
      is_Some (bucket_dll s' (Z.to_nat (GET_BIN_ENTRY rest))) /\
      w ∉ bucket s' (Z.to_nat (GET_BIN_ENTRY rest))
    else
      heap s' !! w = Some (mkMeta (size hw) false (next hw) (prev hw) nullptr nullptr).
Proof.
  intros size_ nb rest.
  destruct (aligned_bounds n ltac:(lia)) as [Hsz _]. fold size_ in Hsz, Hfit, Hfresh.
  assert (Hwn : w <> nullptr) by (unfold nullptr; lia).
  assert (Hthr : IS_LARGE_ENOUGH (size hw) size_ = (size_ + sizeof_metadata + 128 <=? size hw)).
  { apply large_enough_threshold. unfold MAX_MALLOC_4_SIZE in *. lia. }
  assert (Hcall : forall s', take_block w size_ s = Ok (tt, s') ->
            forall s'', get_free_metadata_block size_ s = Ok (w, s'') ->
                        s'' = s' /\ smalloc n s = Ok (GET_PTR_FROM_METADATA w, s')).
  { intros s' Htake s'' Hget.
    pose proof (get_free_metadata_block_result _ _ _ _ Hget Hwn) as Htake'.
    rewrite Htake in Htake'. inversion Htake'; subst s''. split; [reflexivity|].
    unfold smalloc. fold size_.
    destruct (Z.ltb_spec MAX_MALLOC_4_SIZE n); [lia|].
    destruct (Z.eqb_spec n 0); [lia|]. cbn [orb].
    destruct (Z.leb_spec MIN_KB_BLOCK size_); [lia|].
    rewrite (bind_ok _ _ _ _ _ Hget).
    destruct (Z.eqb_spec w nullptr); [contradiction|]. reflexivity. }
  destruct (Z.leb_spec (size_ + sizeof_metadata + 128) (size hw)) as [Hle|Hgt].
  - destruct (cut_block_sound s w hw size_ Hsound Hw Hhw ltac:(lia) ltac:(lia) Hthr Hin
                (Hfresh Hle) Hnext Hnw Hnnb)
      as (s' & la & lb & bn & bp & Hcut & H1 & H2 & H3 & H4 & H5).
    assert (Htake : take_block w size_ s = Ok (tt, s')).
    { unfold take_block. rewrite (bind_ok _ _ _ _ _ (load_ok _ _ _ Hwn Hhw)), Hthr.
      destruct (Z.leb_spec (size_ + sizeof_metadata + 128) (size hw)); [|lia].
      rewrite (bind_ok _ _ _ _ _ Hcut). unfold set_is_free.
      erewrite update_ok; [|assumption|exact H1].
      cbn [with_is_free size is_free next prev bin_next bin_prev].
      rewrite insert_id by exact H1. now rewrite with_heap_id. }
    exists s'. split; [exact Htake|]. split; [exact (Hcall s' Htake)|].
    split; [exact Hthr|].
    pose proof (bucket_dll_bucket _ _ _ H4) as Hb.
    split; [exact H1|]. split; [eauto|]. split; [exact H3|].
    fold nb rest in Hb, H4, H5. rewrite Hb.
    split; [in_list|]. split; [eauto|exact H5].
  - destruct (take_whole_sound s w hw size_ Hsound Hw Hhw ltac:(lia) Hthr Hin)
      as (s' & Htake & H1).
    exists s'. split; [exact Htake|]. split; [exact (Hcall s' Htake)|].
    split; [exact Hthr|exact H1].
Qed.

(** The lemma where a free block of 1000 bytes at 4096 heads bucket 0 and
    16 bytes are asked for: [smalloc] returns 4144 and the remainder of 936
    bytes at 4160 is in bucket 0. *)
Lemma bin_path_split_of_one_big_free :
  smalloc 16 Scenario.one_big_free =
    Ok (4144, Scenario.state_of (get_free_metadata_block 16 Scenario.one_big_free)) /\
  heap (Scenario.state_of (get_free_metadata_block 16 Scenario.one_big_free)) !! 4096 =
    Some (mkMeta 16 false 4160 0 0 0) /\
  4160 ∈ bucket (Scenario.state_of (get_free_metadata_block 16 Scenario.one_big_free)) 0.
Proof.
  assert (Hn : 0 < 16 <= MAX_MALLOC_4_SIZE) by (unfold MAX_MALLOC_4_SIZE; lia).
  assert (Hw : 0 < 4096) by lia.
  assert (Hfit : GET_SIZE_WITH_ALIGNMENT 16 <= size (mkMeta 1000 true 5144 0 0 0) < MIN_KB_BLOCK)
    by (vm_compute; split; [discriminate|reflexivity]).
  assert (Hin : 4096 ∈ bucket Scenario.one_big_free
                         (Z.to_nat (GET_BIN_ENTRY (size (mkMeta 1000 true 5144 0 0 0)))))
    by (apply (bool_decide_unpack _); vm_compute; exact I).
  assert (Hnext : next (mkMeta 1000 true 5144 0 0 0) = nullptr \/
                  is_Some (heap Scenario.one_big_free !! next (mkMeta 1000 true 5144 0 0 0)))
    by (right; eexists; reflexivity).
  assert (Hnw : next (mkMeta 1000 true 5144 0 0 0) <> 4096) by discriminate.
  assert (Hnnb : next (mkMeta 1000 true 5144 0 0 0) <>
                 4096 + GET_SIZE_WITH_ALIGNMENT 16 + sizeof_metadata) by discriminate.
  assert (Hfresh : (4096 + GET_SIZE_WITH_ALIGNMENT 16 + sizeof_metadata) ∉
            bucket Scenario.one_big_free
              (Z.to_nat (GET_BIN_ENTRY (size (mkMeta 1000 true 5144 0 0 0)
                                        - GET_SIZE_WITH_ALIGNMENT 16 - sizeof_metadata))))
    by (apply (bool_decide_unpack _); vm_compute; exact I).
  destruct (bin_path_split_where_remainder_unlinked Scenario.one_big_free 16 4096
              (mkMeta 1000 true 5144 0 0 0) Hn eq_refl Hw eq_refl Hfit Hin
              (fun _ => Hfresh) Hnext Hnw Hnnb)
    as (s' & _ & Hcall & _ & Hsplit).
  destruct (Hcall (Scenario.state_of (get_free_metadata_block 16 Scenario.one_big_free)))
    as [<- Hsm]; [vm_compute; reflexivity|].
  change (GET_SIZE_WITH_ALIGNMENT 16 + sizeof_metadata + 128
          <=? size (mkMeta 1000 true 5144 0 0 0)) with true in Hsplit.
  destruct Hsplit as (H1 & _ & _ & H4 & _).
  split; [exact Hsm|]. split; [exact H1|exact H4].
Qed.
(** * Further properties of the code *)

(** ** Rounding to the pointer width *)

(** X1. For a size [n] from 0 to 2^64 - 8, [GET_SIZE_WITH_ALIGNMENT n] is the
    least multiple of 8 that is at least [n]: it is a multiple of 8, lies in
    [n, n + 8), is below every other such multiple, leaves a multiple of 8 as
    it is, and rounding it again changes nothing. *)
Theorem alignment_rounds_up_to_multiple_of_8 (n : Z) (Hn : 0 <= n <= 2 ^ 64 - 8) :
  let r := GET_SIZE_WITH_ALIGNMENT n in
  r mod ADDRESS_SIZE = 0 /\ n <= r < n + ADDRESS_SIZE /\
  (forall m, n <= m -> m mod ADDRESS_SIZE = 0 -> r <= m) /\
  (n mod ADDRESS_SIZE = 0 -> r = n) /\
  GET_SIZE_WITH_ALIGNMENT r = r.
Proof.
  cbv zeta.
  assert (Hr : forall k, 0 <= k <= 2 ^ 64 - 8 ->
             GET_SIZE_WITH_ALIGNMENT k = k + (8 - k mod 8) mod 8).
  { intros k Hk. unfold GET_SIZE_WITH_ALIGNMENT, ADDRESS_SIZE.
    pose proof (Z.mod_pos_bound k 8 ltac:(lia)).
    pose proof (Z.mod_pos_bound (8 - k mod 8) 8 ltac:(lia)).
    rewrite (wrap64_small (8 - k mod 8)) by lia.
    apply wrap64_small.
    destruct (Z.eq_dec (k mod 8) 0) as [E|E].
    - rewrite E. change ((8 - 0) mod 8) with 0. lia.
    - rewrite (Z.mod_small (8 - k mod 8)) by lia.
      pose proof (Z.div_mod k 8 ltac:(lia)).
      assert (k / 8 * 8 <= 2 ^ 64 - 8); [|lia].
      assert (k / 8 <= (2 ^ 64 - 8) / 8) by (apply Z.div_le_mono; lia).
      change ((2 ^ 64 - 8) / 8) with (2 ^ 61 - 1) in *. lia. }
  rewrite (Hr n Hn). unfold ADDRESS_SIZE.
  pose proof (Z.mod_pos_bound n 8 ltac:(lia)) as Hm.
  pose proof (Z.div_mod n 8 ltac:(lia)) as Hd.
  set (r := n + (8 - n mod 8) mod 8).
  assert (Hmod : r mod 8 = 0 /\ n <= r < n + 8 /\ (n mod 8 = 0 -> r = n)).
  { subst r. destruct (Z.eq_dec (n mod 8) 0) as [E|E].
    - rewrite E. change ((8 - 0) mod 8) with 0. rewrite Z.add_0_r. auto with lia.
    - rewrite (Z.mod_small (8 - n mod 8)) by lia.
      split; [|lia].
      replace (n + (8 - n mod 8)) with ((n / 8 + 1) * 8) by lia.
      apply Z.mod_mul. lia. }
  destruct Hmod as (H0 & Hb & He).
  split; [assumption|]. split; [assumption|]. split; [|split; [assumption|]].
  - intros m Hnm Hm0.
    pose proof (Z.div_mod m 8 ltac:(lia)) as Hdm. rewrite Hm0 in Hdm.
    pose proof (Z.div_mod r 8 ltac:(lia)) as Hdr. rewrite H0 in Hdr.
    lia.
  - assert (Hr8 : r <= 2 ^ 64 - 8).
    { pose proof (Z.div_mod r 8 ltac:(lia)) as Hdr. rewrite H0 in Hdr.
      assert (r / 8 <= (2 ^ 64 - 1) / 8) by (apply Z.div_le_mono; lia).
      change ((2 ^ 64 - 1) / 8) with (2 ^ 61 - 1) in *. lia. }
    rewrite Hr by lia. rewrite H0. change ((8 - 0) mod 8) with 0. lia.
Qed.

Lemma alignment_witness :
  0 <= 13 <= 2 ^ 64 - 8 /\
  GET_SIZE_WITH_ALIGNMENT 13 mod ADDRESS_SIZE = 0 /\
  13 <= GET_SIZE_WITH_ALIGNMENT 13 < 13 + ADDRESS_SIZE /\
  GET_SIZE_WITH_ALIGNMENT (GET_SIZE_WITH_ALIGNMENT 13) = GET_SIZE_WITH_ALIGNMENT 13.
Proof.
  assert (H : 0 <= 13 <= 2 ^ 64 - 8) by lia.
  split; [exact H|].
  destruct (alignment_rounds_up_to_multiple_of_8 13 H) as (H0 & Hb & _ & _ & Hi).
  split; [exact H0|]. split; [exact Hb|exact Hi].
Defined.

(** ** The two lists of blocks *)

Lemma walk_exact link fuel : forall h p l,
  walk link fuel h p = Some l -> walk link (S (length l)) h p = Some l.
Proof.
  induction fuel as [|fuel IH]; intros h p l H; [discriminate|].
  apply walk_inv in H as (f' & [= <-] & [(-> & ->)|(Hp & m & l' & Hm & -> & Hw)]).
  - reflexivity.
  - eapply walk_cons; eauto.
Qed.

Lemma walk_fuel_of link fuel h p l :
  walk link fuel h p = Some l -> walk link (S (base.size h)) h p = Some l.
Proof.
  intros H. eapply walk_mono; [eapply walk_exact; exact H|].
  apply le_n_S. apply NoDup_length_heap.
  - eapply walk_NoDup; eauto.
  - intros x Hx. eapply walk_elem; eauto.
Qed.

Lemma walk_nil_inv link fuel h p :
  walk link fuel h p = Some [] -> p = nullptr.
Proof.
  intros H. apply walk_inv in H as (f' & _ & [(-> & _)|(_ & m & l' & _ & [=] & _)]).
  reflexivity.
Qed.

Lemma walk_head link fuel h p x l :
  walk link fuel h p = Some (x :: l) ->
  p = x /\ x <> nullptr /\ exists m, h !! x = Some m /\
    walk link (S (length l)) h (link m) = Some l.
Proof.
  intros H. apply walk_inv in H as (f' & _ & [(_ & [=])|(Hp & m & l' & Hm & [= <- <-] & Hw)]).
  split; [reflexivity|]. split; [assumption|]. exists m. split; [assumption|].
  eapply walk_exact; eauto.
Qed.

(** A chain whose last block is redirected to a block with no successor. *)
Lemma walk_snoc link h h' r mr : forall l p fuel,
  l <> [] ->
  walk link fuel h p = Some l ->
  r <> nullptr -> r ∉ l -> h' !! r = Some mr -> link mr = nullptr ->
  (forall x m, x ∈ l -> h !! x = Some m ->
     exists m', h' !! x = Some m' /\
                link m' = if bool_decide (last l = Some x) then r else link m) ->
  walk link (S (S (length l))) h' p = Some (l ++ [r]).
Proof.
  induction l as [|x l IH]; intros p fuel Hne H Hr Hnotin Hmr Hlink Hag; [contradiction|].
  pose proof (walk_NoDup _ _ _ _ _ H) as Hnd. apply NoDup_cons in Hnd as (Hxl & Hnd).
  apply walk_head in H as (-> & Hx & m & Hm & Hw).
  destruct (Hag x m ltac:(left) Hm) as (m' & Hm' & Hl').
  destruct l as [|y l].
  - apply walk_nil_inv in Hw.
    rewrite bool_decide_eq_true_2 in Hl' by reflexivity.
    change ([x] ++ [r]) with [x; r].
    eapply walk_cons; eauto. rewrite Hl'.
    eapply walk_cons; eauto. now rewrite Hlink.
  - rewrite bool_decide_eq_false_2 in Hl'.
    2:{ rewrite last_cons. intros E. apply Hxl.
        destruct (last (y :: l)) as [z|] eqn:Ez;
          [|apply last_None in Ez; discriminate].
        injection E as ->. eapply last_elem; eauto. }
    change ((x :: y :: l) ++ [r]) with (x :: ((y :: l) ++ [r])).
    eapply walk_cons; eauto. rewrite Hl'.
    eapply IH; [discriminate|exact Hw|assumption| |exact Hmr|assumption|].
    + intros Hin. apply Hnotin. now right.
    + intros z mz Hz Hmz. destruct (Hag z mz ltac:(now right) Hmz) as (mz' & Hmz' & Hlz).
      exists mz'. split; [assumption|]. rewrite Hlz.
      rewrite (last_cons x (y :: l)).
      destruct (last (y :: l)) eqn:E; [reflexivity|].
      apply last_None in E. discriminate.
Qed.

Lemma size_update (h : gmap Z MallocMetadata) p m f :
  h !! p = Some m -> base.size (<[p := f]> h) = base.size h.
Proof. intros H. apply map_size_insert_Some. eauto. Qed.

(** X2. On a chain that ends (following [next] from [p] reaches null),
    [get_last_metadata_block p] returns the last block of the chain, whose
    [next] is null, and null for the empty chain; the state is unchanged. *)
Theorem get_last_metadata_block_finds_the_tail (s : state) (p : ptr) (l : list ptr)
    (Hchain : walk next (fuel_of s) (heap s) p = Some l) :
  exists b, get_last_metadata_block p s = Ok (b, s) /\
    match l with
    | [] => p = nullptr /\ b = nullptr
    | _ => last l = Some b /\ b <> nullptr /\
           exists mb, heap s !! b = Some mb /\ next mb = nullptr
    end.
Proof.
  exists (default nullptr (last l)).
  split; [now apply get_last_metadata_block_walk|].
  destruct l as [|x l0] eqn:El.
  - split; [eapply walk_nil_inv; eauto|reflexivity].
  - rewrite <- El in *. assert (Hne : l <> []) by (rewrite El; discriminate).
    destruct (last l) as [b|] eqn:Eb.
    2:{ apply last_None in Eb. contradiction. }
    cbn [default]. split; [reflexivity|].
    apply last_Some in Eb as [l' ->].
    apply walk_suffix in Hchain as (f1 & _ & Hw).
    apply walk_head in Hw as (_ & Hb & mb & Hmb & Hnil).
    split; [assumption|]. exists mb. split; [assumption|].
    eapply walk_nil_inv; eauto.
Qed.

Lemma get_last_metadata_block_witness :
  exists b, get_last_metadata_block 4096 Scenario.two_in_use = Ok (b, Scenario.two_in_use) /\
            last [4096; 4160] = Some b /\ b <> nullptr /\
            exists mb, heap Scenario.two_in_use !! b = Some mb /\ next mb = nullptr.
Proof.
  apply (get_last_metadata_block_finds_the_tail Scenario.two_in_use 4096 [4096; 4160]).
  reflexivity.
Defined.

Lemma insert_to_metadata_list_spec (ls : list_ref) (s : state) (r : ptr)
    (init : MallocMetadata) (l : list ptr)
    (Hchain : chain_of ls s = Some l)
    (Hr : r <> nullptr)
    (Hinit : heap s !! r = Some init)
    (Hnotin : r ∉ l) :
  exists s',
    insert_to_metadata_list r ls s = Ok (tt, s') /\
    chain_of ls s' = Some (l ++ [r]) /\
    head_of ls s' = default r (head l) /\
    heap s' !! r = Some (with_next nullptr (with_prev (default nullptr (last l)) init)) /\
    (forall b mb, last l = Some b -> heap s !! b = Some mb ->
                  heap s' !! b = Some (with_next r mb)) /\
    (forall x, x <> r -> last l <> Some x -> heap s' !! x = heap s !! x) /\
    head_of (other_list ls) s' = head_of (other_list ls) s /\
    free_block_bin s' = free_block_bin s /\ brk s' = brk s /\ mem s' = mem s /\
    brk_limit s' = brk_limit s /\ mmap_answers s' = mmap_answers s.
Proof.
  unfold chain_of, fuel_of in *.
  unfold insert_to_metadata_list.
  assert (Hget : get_head ls s = Ok (head_of ls s, s)) by (destruct ls; reflexivity).
  rewrite (bind_ok _ _ _ _ _ Hget).
  destruct (Z.eqb_spec (head_of ls s) nullptr) as [Eh|Hh].
  - (* empty list *)
    rewrite Eh in Hchain.
    assert (l = []) as ->.
    { apply walk_inv in Hchain as (f1 & _ & [(_ & ->)|(Hx & _)]); [reflexivity|contradiction]. }
    unfold set_prev, set_next.
    erewrite bind_ok; [|apply update_ok; [assumption|exact Hinit]].
    erewrite bind_ok; [|apply update_ok; [assumption|cbn; apply lookup_insert_eq]].
    set (st := with_heap (<[r:=with_next nullptr (with_prev nullptr init)]>
                 (heap (with_heap (<[r:=with_prev nullptr init]> (heap s)) s)))
               (with_heap (<[r:=with_prev nullptr init]> (heap s)) s)).
    exists (match ls with
            | brk_list => with_metadata_head r st
            | mmap_list => with_mmap_metadata_head r st
            end).
    split.
    { destruct ls; reflexivity. }
    subst st.
    assert (Hsz : base.size (<[r:=with_next nullptr (with_prev nullptr init)]>
                     (<[r:=with_prev nullptr init]> (heap s))) = base.size (heap s)).
    { rewrite insert_insert_eq. eapply size_update; eauto. }
    repeat split.
    + destruct ls; unfold_state; rewrite Hsz; cbn [head_of metadata_head mmap_metadata_head];
        (destruct (base.size (heap s)) eqn:E;
         [apply map_size_empty_iff in E; rewrite E, lookup_empty in Hinit; discriminate|]);
        (eapply walk_cons; [assumption|lk|reflexivity]).
    + destruct ls; reflexivity.
    + destruct ls; lk.
    + intros b mb [=].
    + intros x Hx _. destruct ls; unfold_state; now rewrite !lookup_insert_ne by congruence.
    + destruct ls; reflexivity.
    + destruct ls; reflexivity.
    + destruct ls; reflexivity.
    + destruct ls; reflexivity.
    + destruct ls; reflexivity.
    + destruct ls; reflexivity.
  - (* the list has a last block [b] *)
    destruct (last l) as [b|] eqn:El.
    2:{ apply last_None in El. subst l. apply walk_nil_inv in Hchain. contradiction. }
    destruct (walk_elem _ _ _ _ _ b Hchain (last_elem _ _ El)) as [Hb [mb Hmb]].
    assert (Hbr : b <> r) by (intros ->; apply Hnotin; eapply last_elem; eauto).
    rewrite (bind_ok _ _ _ _ _ (get_last_metadata_block_walk s _ l Hchain)).
    rewrite El. cbn [default]. unfold id.
    unfold set_prev, set_next.
    erewrite bind_ok; [|apply update_ok; [assumption|exact Hmb]].
    erewrite bind_ok; [|apply update_ok; [assumption|cbn;
          rewrite lookup_insert_ne by congruence; exact Hinit]].
    eexists. split.
    { apply update_ok; [assumption|cbn; apply lookup_insert_eq]. }
    assert (Hl : l <> []) by (intros ->; discriminate).
    assert (Hhd : head l = Some (head_of ls s)).
    { destruct l as [|x l0]; [contradiction|].
      apply walk_head in Hchain as (-> & _). reflexivity. }
    repeat split.
    + replace (head_of ls _) with (head_of ls s) by (destruct ls; reflexivity).
      unfold_state.
      eapply walk_fuel_of with (fuel := S (S (length l))).
      eapply (walk_snoc next (heap s)); eauto.
      * lk.
      * reflexivity.
      * intros x m Hx Hm. rewrite El.
        destruct (decide (x = b)) as [->|Hxb].
        -- rewrite bool_decide_eq_true_2 by reflexivity.
           exists (with_next r mb). split; [lk|reflexivity].
        -- rewrite bool_decide_eq_false_2 by congruence.
           exists m. split; [|reflexivity].
           assert (x <> r) by (intros ->; contradiction).
           unfold_state. now rewrite !lookup_insert_ne by congruence.
    + rewrite Hhd. destruct ls; reflexivity.
    + lk.
    + intros b' mb' [= <-] Hmb'. rewrite Hmb in Hmb'. inversion Hmb'; subst. lk.
    + intros x Hx Hlast. unfold_state.
      rewrite !lookup_insert_ne; congruence.
Qed.

(** X3. [insert_to_metadata_list r list], on a list whose chain [l] ends and does
    not hold [r], appends [r]: the chain is [l ++ [r]] afterwards, the head is
    the old one (or [r] when the list was empty), [r] has the old last block
    as [prev] and null as [next], the old last block has [r] as [next], and
    every other header, the other list, the bins, the break and the payload
    bytes are as before. *)
Theorem insert_to_metadata_list_appends (ls : list_ref) (s : state) (r : ptr)
    (init : MallocMetadata) (l : list ptr)
    (Hchain : chain_of ls s = Some l)
    (Hr : r <> nullptr)
    (Hinit : heap s !! r = Some init)
    (Hnotin : r ∉ l) :
  exists s',
    insert_to_metadata_list r ls s = Ok (tt, s') /\
    chain_of ls s' = Some (l ++ [r]) /\
    head_of ls s' = default r (head l) /\
    heap s' !! r = Some (with_next nullptr (with_prev (default nullptr (last l)) init)) /\
    (forall b mb, last l = Some b -> heap s !! b = Some mb ->
                  heap s' !! b = Some (with_next r mb)) /\
    (forall x, x <> r -> last l <> Some x -> heap s' !! x = heap s !! x) /\
    head_of (other_list ls) s' = head_of (other_list ls) s /\
    free_block_bin s' = free_block_bin s /\ brk s' = brk s /\ mem s' = mem s /\
    brk_limit s' = brk_limit s /\ mmap_answers s' = mmap_answers s.
Proof. now apply insert_to_metadata_list_spec. Qed.

Lemma insert_to_metadata_list_witness :
  exists s',
    insert_to_metadata_list 5000 brk_list two_and_a_loose_block = Ok (tt, s') /\
    chain_of brk_list s' = Some [4096; 4160; 5000] /\
    heap s' !! 5000 = Some (mkMeta 8 false 0 4160 0 0).
Proof.
  assert (Hr : 5000 <> nullptr) by discriminate.
  assert (Hnotin : 5000 ∉ [4096; 4160]).
  { intros H. apply (bool_decide_pack _) in H. vm_compute in H. exact H. }
  destruct (insert_to_metadata_list_appends brk_list two_and_a_loose_block 5000
              (mkMeta 8 false 77 78 0 0) [4096; 4160] eq_refl Hr eq_refl Hnotin)
    as (s' & H1 & H2 & _ & H3 & _).
  exists s'. split; [exact H1|]. split; [exact H2|exact H3].
Defined.

(** ** [srealloc]: the branches that move nothing *)

Lemma aligned_le_max n :
  0 < n <= MAX_MALLOC_4_SIZE ->
  0 < GET_SIZE_WITH_ALIGNMENT n <= MAX_MALLOC_4_SIZE.
Proof.
  intros H. destruct (aligned_bounds n ltac:(lia)) as [Hb Hm].
  split; [lia|]. rewrite aligned_spec by lia.
  unfold MAX_MALLOC_4_SIZE in *.
  assert ((n + 7) / 8 <= (100000000 + 7) / 8) by (apply Z.div_le_mono; lia).
  change ((100000000 + 7) / 8) with 12500000 in *. lia.
Qed.

Lemma guard_passes n :
  0 < n <= MAX_MALLOC_4_SIZE -> (MAX_MALLOC_4_SIZE <? n) || (n =? 0) = false.
Proof.
  intros H. destruct (Z.ltb_spec MAX_MALLOC_4_SIZE n); [lia|].
  destruct (Z.eqb_spec n 0); [lia|reflexivity].
Qed.

(** X14. [srealloc nullptr n] is [smalloc n], in every state and for every size:
    the same result and the same state, the size check and the rounding that
    [srealloc] does first included. *)
Theorem srealloc_of_null_is_smalloc (s : state) (n : Z) (Hn : 0 <= n) :
  srealloc nullptr n s = smalloc n s.
Proof.
  unfold srealloc.
  destruct ((MAX_MALLOC_4_SIZE <? n) || (n =? 0)) eqn:G.
  - unfold smalloc. now rewrite G.
  - change (nullptr =? nullptr) with true. cbv iota.
    apply orb_false_elim in G as [G1 G2].
    apply Z.ltb_ge in G1. apply Z.eqb_neq in G2.
    assert (H : 0 < n <= MAX_MALLOC_4_SIZE) by lia.
    unfold smalloc.
    rewrite (guard_passes _ (aligned_le_max n H)), (guard_passes n H).
    rewrite !aligned_idempotent by lia. reflexivity.
Qed.

Lemma srealloc_of_null_witness :
  srealloc nullptr 20 Scenario.two_in_use = smalloc 20 Scenario.two_in_use.
Proof.
  apply srealloc_of_null_is_smalloc. lia.
Defined.

(** X15. [srealloc] of a brk block (below 128 KB) that already holds the rounded
    request, with less than a header and 128 bytes to spare, returns the same
    pointer and changes nothing. *)
Theorem srealloc_keeps_block_that_fits (s : state) (oldp : ptr) (n : Z) (o : MallocMetadata)
    (Hn : 0 < n <= MAX_MALLOC_4_SIZE)
    (Holdp : oldp <> nullptr /\ GET_METADATA_FROM_PTR oldp <> nullptr)
    (Ho : heap s !! GET_METADATA_FROM_PTR oldp = Some o)
    (Hsmall : size o < MIN_KB_BLOCK)
    (Hfit : GET_SIZE_WITH_ALIGNMENT n <= size o < GET_SIZE_WITH_ALIGNMENT n + sizeof_metadata + 128) :
  srealloc oldp n s = Ok (oldp, s).
Proof.
  destruct Holdp as [Hp Hq].
  destruct (aligned_bounds n ltac:(lia)) as [Hb _].
  unfold srealloc. rewrite (guard_passes n Hn).
  destruct (Z.eqb_spec oldp nullptr); [contradiction|].
  rewrite (bind_ok _ _ _ _ _ (load_ok _ _ _ Hq Ho)).
  destruct (Z.leb_spec MIN_KB_BLOCK (size o)); [lia|].
  destruct (Z.leb_spec (GET_SIZE_WITH_ALIGNMENT n) (size o)); [|lia].
  unfold IS_LARGE_ENOUGH, sizeof_metadata, MAX_MALLOC_4_SIZE in *.
  rewrite wrap64_small by lia.
  destruct (Z.leb_spec (GET_SIZE_WITH_ALIGNMENT n + 48 + 128) (size o)); [lia|].
  reflexivity.
Qed.

Lemma srealloc_keeps_block_witness :
  srealloc 4144 9 Scenario.two_in_use = Ok (4144, Scenario.two_in_use).
Proof.
  apply (srealloc_keeps_block_that_fits Scenario.two_in_use 4144 9
           (mkMeta 16 false 4160 0 0 0)).
  - unfold MAX_MALLOC_4_SIZE. lia.
  - split; discriminate.
  - reflexivity.
  - reflexivity.
  - vm_compute. split; [discriminate|reflexivity].
Defined.

(** The last block of the brk chain grows in place. *)
Lemma srealloc_last_block_spec (s : state) (oldp : ptr) (n : Z) (o : MallocMetadata)
    (Hn : 0 < n <= MAX_MALLOC_4_SIZE)
    (Holdp : oldp <> nullptr /\ GET_METADATA_FROM_PTR oldp <> nullptr)
    (Ho : heap s !! GET_METADATA_FROM_PTR oldp = Some o)
    (Hsize : 0 <= size o < MIN_KB_BLOCK)
    (Hgrow : size o < GET_SIZE_WITH_ALIGNMENT n)
    (Hlast : next o = nullptr)
    (Hprev : prev o = nullptr \/
             prev o <> nullptr /\ exists mp, heap s !! prev o = Some mp /\ is_free mp = false)
    (Hbrk : 0 <= brk s) :
  let size_ := GET_SIZE_WITH_ALIGNMENT n in
  srealloc oldp n s =
    if brk s + (size_ - size o) <=? brk_limit s then
      Ok (oldp,
          with_heap (<[GET_METADATA_FROM_PTR oldp := with_size size_ o]> (heap s))
            (with_brk (brk s + (size_ - size o)) s))
    else Ok (nullptr, s).
Proof.
  cbv zeta. destruct Holdp as [Hp Hq].
  destruct (aligned_bounds n ltac:(lia)) as [Hb _].
  set (old_ptr := GET_METADATA_FROM_PTR oldp) in *.
  set (size_ := GET_SIZE_WITH_ALIGNMENT n) in *.
  assert (Hpf : is_free_at (prev o) s = Ok (false, s)).
  { destruct Hprev as [->|(Hpn & mp & Hmp & Hused)]; [reflexivity|].
    rewrite (is_free_at_ok _ _ _ Hpn Hmp). now rewrite Hused. }
  unfold srealloc. rewrite (guard_passes n Hn). fold size_.
  destruct (Z.eqb_spec oldp nullptr); [contradiction|]. fold old_ptr.
  rewrite (bind_ok _ _ _ _ _ (load_ok _ _ _ Hq Ho)).
  destruct (Z.leb_spec MIN_KB_BLOCK (size o)); [lia|].
  destruct (Z.leb_spec size_ (size o)); [lia|].
  erewrite bind_ok.
  2:{ unfold can_merge_prev. rewrite (bind_ok _ _ _ _ _ (load_ok _ _ _ Hq Ho)).
      rewrite (bind_ok _ _ _ _ _ Hpf). reflexivity. }
  cbv iota.
  erewrite bind_ok.
  2:{ unfold can_merge_next. rewrite (bind_ok _ _ _ _ _ (load_ok _ _ _ Hq Ho)).
      rewrite Hlast. rewrite (bind_ok _ _ _ _ _ (is_free_at_null _)). reflexivity. }
  cbv iota.
  erewrite bind_ok.
  2:{ unfold can_merge_both. rewrite (bind_ok _ _ _ _ _ (load_ok _ _ _ Hq Ho)).
      rewrite (bind_ok _ _ _ _ _ Hpf). reflexivity. }
  cbv iota. rewrite Hlast. change (nullptr =? nullptr) with true. cbv iota.
  rewrite (bind_ok _ _ _ _ _ Hpf). cbv iota.
  unfold sbrk, bind. unfold MAX_MALLOC_4_SIZE, MIN_KB_BLOCK, KB in *.
  rewrite (wrap64_small (size_ - size o)) by lia.
  rewrite to_intptr_small by lia.
  destruct (Z.ltb_spec (brk_limit s) (brk s + (size_ - size o))) as [Hl|Hl].
  - destruct (Z.leb_spec (brk s + (size_ - size o)) (brk_limit s)); [lia|].
    reflexivity.
  - destruct (Z.leb_spec (brk s + (size_ - size o)) (brk_limit s)); [|lia].
    unfold SBRK_FAIL.
    destruct (Z.eqb_spec (brk s) (-1)) as [E|E]; [lia|].
    unfold set_size, update, bind, modify.
    rewrite load_ok with (m := o); [reflexivity|assumption|exact Ho].
Qed.

(** X16. [srealloc] of the last block of the brk list to a larger size, when the
    block before it is null or in use: the break is raised by the difference,
    the block gets the rounded size and the same pointer is returned; when
    the break cannot be raised, null is returned and nothing has changed. *)
Theorem srealloc_grows_last_block_in_place (s : state) (oldp : ptr) (n : Z) (o : MallocMetadata)
    (Hn : 0 < n <= MAX_MALLOC_4_SIZE)
    (Holdp : oldp <> nullptr /\ GET_METADATA_FROM_PTR oldp <> nullptr)
    (Ho : heap s !! GET_METADATA_FROM_PTR oldp = Some o)
    (Hsize : 0 <= size o < MIN_KB_BLOCK)
    (Hgrow : size o < GET_SIZE_WITH_ALIGNMENT n)
    (Hlast : next o = nullptr)
    (Hprev : prev o = nullptr \/
             prev o <> nullptr /\ exists mp, heap s !! prev o = Some mp /\ is_free mp = false)
    (Hbrk : 0 <= brk s) :
  let size_ := GET_SIZE_WITH_ALIGNMENT n in
  srealloc oldp n s =
    if brk s + (size_ - size o) <=? brk_limit s then
      Ok (oldp,
          with_heap (<[GET_METADATA_FROM_PTR oldp := with_size size_ o]> (heap s))
            (with_brk (brk s + (size_ - size o)) s))
    else Ok (nullptr, s).
Proof.
  exact (srealloc_last_block_spec s oldp n o Hn Holdp Ho Hsize Hgrow Hlast Hprev Hbrk).
Qed.

Lemma srealloc_grows_last_block_witness :
  srealloc 4208 100 Scenario.two_in_use =
    Ok (4208,
        with_heap (<[4160 := mkMeta 104 false 0 4096 0 0]> (heap Scenario.two_in_use))
          (with_brk 4312 Scenario.two_in_use)).
Proof.
  assert (Hn : 0 < 100 <= MAX_MALLOC_4_SIZE) by (unfold MAX_MALLOC_4_SIZE; lia).
  assert (Hp : 4208 <> nullptr /\ GET_METADATA_FROM_PTR 4208 <> nullptr)
    by (split; discriminate).
  assert (Hsize : 0 <= size (mkMeta 16 false 0 4096 0 0) < MIN_KB_BLOCK)
    by (split; [discriminate|reflexivity]).
  assert (Hgrow : size (mkMeta 16 false 0 4096 0 0) < GET_SIZE_WITH_ALIGNMENT 100)
    by reflexivity.
  assert (Hprev : prev (mkMeta 16 false 0 4096 0 0) = nullptr \/
                  prev (mkMeta 16 false 0 4096 0 0) <> nullptr /\
                  exists mp, heap Scenario.two_in_use !! prev (mkMeta 16 false 0 4096 0 0) = Some mp /\
                             is_free mp = false).
  { right. split; [discriminate|]. exists (mkMeta 16 false 4160 0 0 0). split; reflexivity. }
  assert (Hbrk : 0 <= brk Scenario.two_in_use) by (vm_compute; discriminate).
  exact (srealloc_grows_last_block_in_place Scenario.two_in_use 4208 100
           (mkMeta 16 false 0 4096 0 0) Hn Hp eq_refl Hsize Hgrow eq_refl Hprev Hbrk).
Defined.

(** ** The counters *)

Lemma wrap64_add_l a b : wrap64 (wrap64 a + b) = wrap64 (a + b).
Proof. unfold wrap64. now rewrite Zplus_mod_idemp_l. Qed.

(** One counting loop over a chain that ends: the [size_t] sum of [step]
    over its blocks. *)
Lemma count_loop_sum fuel step : forall s p l r,
  walk next fuel (heap s) p = Some l ->
  0 <= r < 2 ^ 64 ->
  count_loop fuel step p r s =
    Ok (wrap64 (r + foldr (fun b acc => from_option step 0 (heap s !! b) + acc) 0 l), s).
Proof.
  induction fuel as [|fuel IH]; intros s p l r H Hr.
  - discriminate.
  - apply walk_inv in H as (f' & [= <-] & [(-> & ->)|(Hp & m & l' & Hm & -> & Hw)]).
    + simpl. rewrite Z.add_0_r, wrap64_small by assumption. reflexivity.
    + simpl. destruct (Z.eqb_spec p nullptr); [contradiction|].
      rewrite (bind_ok _ _ _ _ _ (load_ok _ _ _ Hp Hm)).
      rewrite (IH s (next m) l' _ Hw (wrap64_range _)).
      rewrite Hm. cbn [from_option]. rewrite wrap64_add_l.
      do 3 f_equal. lia.
Qed.

Lemma for_each_sum step s p l r :
  walk next (fuel_of s) (heap s) p = Some l ->
  0 <= r < 2 ^ 64 ->
  METADATA_FOR_EACH step p r s =
    Ok (wrap64 (r + foldr (fun b acc => from_option step 0 (heap s !! b) + acc) 0 l), s).
Proof.
  intros H Hr. unfold METADATA_FOR_EACH, walk_fuel. rewrite bind_gets.
  now apply count_loop_sum.
Qed.

Lemma free_step s b (f : MallocMetadata -> Z) :
  from_option (fun m => if is_free m then f m else 0) 0 (heap s !! b)
  = if free_at s b then from_option f 0 (heap s !! b) else 0.
Proof.
  unfold free_at. destruct (heap s !! b) as [m|]; [|reflexivity].
  cbn [from_option]. reflexivity.
Qed.

Lemma sum_free_blocks s l :
  foldr (fun b acc => from_option (fun m => if is_free m then 1 else 0) 0 (heap s !! b) + acc) 0 l
  = Z.of_nat (length (free_blocks s l)).
Proof.
  unfold free_blocks. induction l as [|b l IH]; [reflexivity|].
  cbn [foldr]. rewrite IH. rewrite filter_cons.
  rewrite (free_step s b (fun _ => 1)).
  destruct (free_at s b) eqn:E.
  - rewrite decide_True by reflexivity. cbn [length].
    destruct (heap s !! b) eqn:Eb; cbn [from_option]; [lia|].
    unfold free_at in E. rewrite Eb in E. discriminate.
  - rewrite decide_False by discriminate. lia.
Qed.

Lemma sum_free_bytes s l :
  foldr (fun b acc => from_option (fun m => if is_free m then size m else 0) 0 (heap s !! b) + acc) 0 l
  = total_size s (free_blocks s l).
Proof.
  unfold free_blocks. induction l as [|b l IH]; [reflexivity|].
  cbn [foldr]. rewrite IH. rewrite filter_cons.
  rewrite (free_step s b size).
  destruct (free_at s b) eqn:E.
  - rewrite decide_True by reflexivity. cbn [total_size foldr]. unfold block_size.
    destruct (heap s !! b); reflexivity.
  - rewrite decide_False by discriminate. lia.
Qed.

Lemma sum_bytes s l :
  foldr (fun b acc => from_option size 0 (heap s !! b) + acc) 0 l = total_size s l.
Proof.
  reflexivity.
Qed.

Lemma sum_ones s l :
  foldr (fun b acc => from_option (fun _ : MallocMetadata => 1) 0 (heap s !! b) + acc) 0 l
  <= Z.of_nat (length l).
Proof.
  induction l as [|b l IH]; [reflexivity|].
  cbn [foldr length]. destruct (heap s !! b); cbn [from_option]; lia.
Qed.

Lemma counter_values (s : state) (l1 l2 : list ptr)
    (Hbrk : brk_chain s = Some l1) (Hmmap : mmap_chain s = Some l2) :
  _num_free_blocks s = Ok (wrap64 (Z.of_nat (length (free_blocks s l1))), s) /\
  _num_free_bytes s = Ok (wrap64 (total_size s (free_blocks s l1)), s) /\
  _num_allocated_blocks s = Ok (wrap64 (Z.of_nat (length l1 + length l2)), s) /\
  _num_allocated_bytes s = Ok (wrap64 (total_size s l1 + total_size s l2), s) /\
  _size_meta_data s = Ok (sizeof_metadata, s).
Proof.
  unfold brk_chain, mmap_chain in *.
  split; [|split; [|split; [|split]]].
  - unfold _num_free_blocks. rewrite bind_gets.
    rewrite (for_each_sum _ _ _ _ 0 Hbrk) by lia.
    now rewrite Z.add_0_l, sum_free_blocks.
  - unfold _num_free_bytes. rewrite bind_gets.
    rewrite (for_each_sum _ _ _ _ 0 Hbrk) by lia.
    now rewrite Z.add_0_l, sum_free_bytes.
  - now apply num_allocated_blocks_total.
  - unfold _num_allocated_bytes. rewrite bind_gets.
    rewrite (bind_ok _ _ _ _ _ (for_each_sum _ _ _ _ 0 Hbrk ltac:(lia))).
    rewrite bind_gets.
    rewrite (for_each_sum _ _ _ _ _ Hmmap (wrap64_range _)).
    now rewrite Z.add_0_l, wrap64_add_l, !sum_bytes.
  - reflexivity.
Qed.

(** X18. On lists that end, the counters return, modulo 2^64: [_num_free_blocks]
    and [_num_free_bytes] the number and the total size of the free blocks of
    the brk list (the mmap list is not looked at), [_num_allocated_blocks]
    and [_num_allocated_bytes] the number and the total size of all blocks of
    both lists, free ones included, and [_size_meta_data] 48; none changes
    the state. *)
Theorem counters_sum_over_the_chains (s : state) (l1 l2 : list ptr)
    (Hbrk : brk_chain s = Some l1) (Hmmap : mmap_chain s = Some l2) :
  _num_free_blocks s = Ok (wrap64 (Z.of_nat (length (free_blocks s l1))), s) /\
  _num_free_bytes s = Ok (wrap64 (total_size s (free_blocks s l1)), s) /\
  _num_allocated_blocks s = Ok (wrap64 (Z.of_nat (length l1 + length l2)), s) /\
  _num_allocated_bytes s = Ok (wrap64 (total_size s l1 + total_size s l2), s) /\
  _size_meta_data s = Ok (sizeof_metadata, s).
Proof. now apply counter_values. Qed.

Lemma counters_witness :
  _num_free_blocks Scenario.one_big_free = Ok (1, Scenario.one_big_free) /\
  _num_free_bytes Scenario.one_big_free = Ok (1000, Scenario.one_big_free) /\
  _num_allocated_blocks Scenario.one_big_free = Ok (2, Scenario.one_big_free) /\
  _num_allocated_bytes Scenario.one_big_free = Ok (1008, Scenario.one_big_free) /\
  _size_meta_data Scenario.one_big_free = Ok (48, Scenario.one_big_free).
Proof.
  exact (counters_sum_over_the_chains Scenario.one_big_free [4096; 5144] [] eq_refl eq_refl).
Defined.

(** The free counters never exceed the allocated ones. *)
Lemma free_blocks_le s l : (length (free_blocks s l) <= length l)%nat.
Proof. apply length_filter. Qed.

Lemma total_size_free_le s l :
  (forall b, b ∈ l -> 0 <= block_size s b) ->
  0 <= total_size s (free_blocks s l) <= total_size s l.
Proof.
  unfold free_blocks. induction l as [|b l IH]; intros Hpos; [cbn; lia|].
  rewrite filter_cons.
  assert (H1 : 0 <= block_size s b) by (apply Hpos; now left).
  assert (H2 : 0 <= total_size s (filter (fun b => free_at s b = true) l) <= total_size s l).
  { apply IH. intros x Hx. apply Hpos. now right. }
  change (total_size s (b :: l)) with (block_size s b + total_size s l).
  destruct (decide (free_at s b = true)); [|lia].
  change (total_size s (b :: filter (fun b => free_at s b = true) l))
    with (block_size s b + total_size s (filter (fun b => free_at s b = true) l)).
  lia.
Qed.

Lemma total_size_nonneg s l :
  (forall b, b ∈ l -> 0 <= block_size s b) -> 0 <= total_size s l.
Proof.
  induction l as [|b l IH]; intros Hpos; [cbn; lia|].
  change (total_size s (b :: l)) with (block_size s b + total_size s l).
  assert (0 <= block_size s b) by (apply Hpos; now left).
  assert (0 <= total_size s l) by (apply IH; intros x Hx; apply Hpos; now right).
  lia.
Qed.

(** X19. With sizes that are not negative and totals below 2^64, the free
    counters never exceed the allocated ones: [_num_free_blocks] is at most
    [_num_allocated_blocks] and [_num_free_bytes] at most
    [_num_allocated_bytes]. *)
Theorem free_counters_bounded_by_allocated (s : state) (l1 l2 : list ptr)
    (Hbrk : brk_chain s = Some l1) (Hmmap : mmap_chain s = Some l2)
    (Hpos : forall b, b ∈ l1 ++ l2 -> 0 <= block_size s b)
    (Hblocks : Z.of_nat (length l1 + length l2) < 2 ^ 64)
    (Hbytes : total_size s l1 + total_size s l2 < 2 ^ 64) :
  exists fb fB ab aB,
    _num_free_blocks s = Ok (fb, s) /\ _num_free_bytes s = Ok (fB, s) /\
    _num_allocated_blocks s = Ok (ab, s) /\ _num_allocated_bytes s = Ok (aB, s) /\
    0 <= fb <= ab /\ 0 <= fB <= aB.
Proof.
  destruct (counter_values s l1 l2 Hbrk Hmmap) as (H1 & H2 & H3 & H4 & _).
  pose proof (free_blocks_le s l1) as Hle.
  assert (Hp1 : forall b, b ∈ l1 -> 0 <= block_size s b)
    by (intros b Hb; apply Hpos, elem_of_app; now left).
  assert (Hp2 : forall b, b ∈ l2 -> 0 <= block_size s b)
    by (intros b Hb; apply Hpos, elem_of_app; now right).
  pose proof (total_size_free_le s l1 Hp1) as HB.
  pose proof (total_size_nonneg s l2 Hp2) as HB2.
  do 4 eexists. split; [exact H1|]. split; [exact H2|]. split; [exact H3|].
  split; [exact H4|].
  rewrite !wrap64_small by lia. lia.
Qed.

Lemma free_counters_witness :
  exists fb fB ab aB,
    _num_free_blocks Scenario.one_big_free = Ok (fb, Scenario.one_big_free) /\
    _num_free_bytes Scenario.one_big_free = Ok (fB, Scenario.one_big_free) /\
    _num_allocated_blocks Scenario.one_big_free = Ok (ab, Scenario.one_big_free) /\
    _num_allocated_bytes Scenario.one_big_free = Ok (aB, Scenario.one_big_free) /\
    0 <= fb <= ab /\ 0 <= fB <= aB.
Proof.
  apply (free_counters_bounded_by_allocated Scenario.one_big_free [4096; 5144] []).
  - reflexivity.
  - reflexivity.
  - intros b Hb. apply elem_of_app in Hb as [Hb|Hb]; [|inversion Hb].
    apply elem_of_cons in Hb as [->|Hb]; [vm_compute; discriminate|].
    apply elem_of_cons in Hb as [->|Hb]; [vm_compute; discriminate|inversion Hb].
  - reflexivity.
  - reflexivity.
Defined.

(** ** Address chains as doubly linked lists *)

Lemma walk_chain_cseg fuel : forall h pv p l,
  walk_chain fuel h pv p = Some l -> cseg h pv p l nullptr.
Proof.
  induction fuel as [|fuel IH]; intros h pv p l H; simpl in H; [discriminate|].
  destruct (Z.eqb_spec p nullptr) as [->|Hp].
  - inversion H. constructor.
  - destruct (h !! p) as [m|] eqn:Hm; [|discriminate].
    destruct (Z.eqb_spec (prev m) pv) as [Hpv|]; [|discriminate].
    destruct (walk_chain fuel h p (next m)) as [l'|] eqn:E; [|discriminate].
    simpl in H. inversion H; subst. econstructor; eauto.
Qed.

Lemma walk_chain_walk fuel : forall h pv p l,
  walk_chain fuel h pv p = Some l -> walk next fuel h p = Some l.
Proof.
  induction fuel as [|fuel IH]; intros h pv p l H; simpl in *; [discriminate|].
  destruct (p =? nullptr); [assumption|].
  destruct (h !! p) as [m|]; [|discriminate].
  destruct (prev m =? pv); [|discriminate].
  destruct (walk_chain fuel h p (next m)) as [l'|] eqn:E; [|discriminate].
  now rewrite (IH _ _ _ _ E).
Qed.

Lemma cseg_walk_chain h pv p l q :
  cseg h pv p l q -> q = nullptr ->
  forall fuel, (length l < fuel)%nat -> walk_chain fuel h pv p = Some l.
Proof.
  induction 1 as [pv p|pv p m l q Hp Hm Hpv Hseg IH]; intros Hq fuel Hfuel.
  - subst. destruct fuel; [simpl in Hfuel; lia|]. reflexivity.
  - destruct fuel as [|fuel]; [simpl in Hfuel; lia|]. simpl in *.
    destruct (Z.eqb_spec p nullptr); [contradiction|]. rewrite Hm.
    destruct (Z.eqb_spec (prev m) pv); [|contradiction].
    rewrite (IH Hq fuel) by lia. reflexivity.
Qed.

Lemma cseg_elem h pv p l q x :
  cseg h pv p l q -> x ∈ l -> x <> nullptr /\ is_Some (h !! x).
Proof.
  induction 1 as [|pv p m l q Hp Hm Hpv Hseg IH]; intros Hx.
  - inversion Hx.
  - apply elem_of_cons in Hx as [->|Hx]; eauto.
Qed.

Lemma cseg_agree h h' pv p l q :
  cseg h pv p l q ->
  (forall x m, x ∈ l -> h !! x = Some m ->
     exists m', h' !! x = Some m' /\ prev m' = prev m /\ next m' = next m) ->
  cseg h' pv p l q.
Proof.
  induction 1 as [|pv p m l q Hp Hm Hpv Hseg IH]; intros Hag.
  - constructor.
  - destruct (Hag p m) as (m' & Hm' & Hbp & Hbn); [left|assumption|].
    econstructor; eauto; [congruence|]. rewrite Hbn. apply IH.
    intros x mx Hx. apply Hag. now right.
Qed.

Lemma cseg_frame h h' pv p l q :
  cseg h pv p l q -> (forall x, x ∈ l -> h' !! x = h !! x) -> cseg h' pv p l q.
Proof.
  intros H Hf. eapply cseg_agree; [exact H|].
  intros x m Hx Hm. exists m. rewrite Hf by assumption. auto.
Qed.

Lemma cseg_app h pv p l1 q l2 r :
  cseg h pv p l1 q -> cseg h (lastp pv l1) q l2 r -> cseg h pv p (l1 ++ l2) r.
Proof.
  induction 1 as [|pv p m l q Hp Hm Hpv Hseg IH]; intros H2.
  - exact H2.
  - simpl. econstructor; eauto. apply IH. now rewrite lastp_cons in H2.
Qed.

Lemma cseg_split h l1 : forall pv p l2 r,
  cseg h pv p (l1 ++ l2) r ->
  exists q, cseg h pv p l1 q /\ cseg h (lastp pv l1) q l2 r.
Proof.
  induction l1 as [|x l1 IH]; intros pv p l2 r H.
  - exists p. split; [constructor|exact H].
  - simpl in H. inversion H as [|pv' p' m l q Hp Hm Hpv Hseg]; subst.
    apply IH in Hseg as (q & H1 & H2). exists q. split.
    + econstructor; eauto.
    + now rewrite lastp_cons.
Qed.

Lemma cseg_head h pv p x l q :
  cseg h pv p (x :: l) q ->
  p = x /\ x <> nullptr /\
  exists m, h !! x = Some m /\ prev m = pv /\ cseg h x (next m) l q.
Proof.
  intros H. inversion H; subst. eauto 10.
Qed.

Lemma cseg_nil_inv h pv p q : cseg h pv p [] q -> p = q.
Proof. now inversion 1. Qed.

Lemma chain_dll_cseg ls s l :
  chain_dll ls s = Some l ->
  cseg (heap s) nullptr (head_of ls s) l nullptr /\ NoDup l.
Proof.
  unfold chain_dll. intros H. split.
  - eapply walk_chain_cseg; eauto.
  - eapply walk_NoDup, walk_chain_walk; eauto.
Qed.

Lemma cseg_chain_dll ls s l :
  cseg (heap s) nullptr (head_of ls s) l nullptr -> NoDup l -> chain_dll ls s = Some l.
Proof.
  intros H Hnd. unfold chain_dll.
  eapply cseg_walk_chain; [exact H|reflexivity|].
  unfold fuel_of. apply le_n_S. apply NoDup_length_heap; [assumption|].
  intros x Hx. eapply cseg_elem; eauto.
Qed.

Lemma chain_dll_chain ls s l : chain_dll ls s = Some l -> chain_of ls s = Some l.
Proof. unfold chain_dll, chain_of. apply walk_chain_walk. Qed.

Lemma set_head_ok ls p s :
  set_head ls p s =
    Ok (tt, match ls with
            | brk_list => with_metadata_head p s
            | mmap_list => with_mmap_metadata_head p s
            end).
Proof. destruct ls; reflexivity. Qed.

Ltac head_cases ls := destruct ls; unfold_state; cbn [head_of other_list metadata_head mmap_metadata_head heap].

(** ** [remove_from_list] on a doubly linked chain *)

Lemma remove_from_list_dll ls s w hw A B :
  heap s !! w = Some hw ->
  chain_dll ls s = Some (A ++ w :: B) ->
  exists s',
    remove_from_list w ls s = Ok (tt, s') /\
    cseg (heap s') nullptr (head_of ls s') (A ++ B) nullptr /\
    heap s' !! w = Some (with_prev nullptr (with_next nullptr hw)) /\
    (forall x, x ∉ A ++ w :: B -> heap s' !! x = heap s !! x) /\
    (forall x, other_fields <$> (heap s' !! x) = other_fields <$> (heap s !! x)) /\
    head_of (other_list ls) s' = head_of (other_list ls) s /\
    free_block_bin s' = free_block_bin s /\ brk s' = brk s /\ mem s' = mem s /\
    brk_limit s' = brk_limit s /\ mmap_answers s' = mmap_answers s /\
    dom (heap s') = dom (heap s).
Proof.
  intros Hhw Hdll.
  apply chain_dll_cseg in Hdll as (Hseg & Hnd).
  apply cseg_split in Hseg as (q & HA & HwB).
  apply cseg_head in HwB as (-> & Hw & m & Hm & Hpv & HB).
  rewrite Hhw in Hm. inversion Hm; subst m; clear Hm.
  apply NoDup_app in Hnd as (HndA & HAw & HndwB).
  apply NoDup_cons in HndwB as (HwB & HndB).
  unfold remove_from_list. rewrite (bind_ok _ _ _ _ _ (load_ok _ _ _ Hw Hhw)).
  assert (Hof : forall (h : gmap Z MallocMetadata) x m m', h !! x = Some m ->
            other_fields m' = other_fields m ->
            forall y, other_fields <$> (<[x := m']> h !! y) = other_fields <$> (h !! y)).
  { intros h x m m' Hx Hf y. destruct (decide (y = x)) as [->|Hy].
    - rewrite lookup_insert_eq, Hx. cbn. now rewrite Hf.
    - now rewrite lookup_insert_ne by congruence. }
  destruct A as [|a0 A0] using rev_ind; [|clear IHA0].
  - (* [w] is the head *)
    apply cseg_nil_inv in HA. rewrite lastp_nil in Hpv. rewrite Hpv.
    change (nullptr =? nullptr) with true. rewrite andb_true_r.
    destruct B as [|b B'].
    + (* ... and the only block *)
      apply cseg_nil_inv in HB. rewrite HB.
      change (nullptr =? nullptr) with true. cbv iota.
      rewrite (bind_ok _ _ _ _ _ (set_head_ok ls nullptr s)).
      unfold set_next, set_prev.
      erewrite bind_ok; [|apply update_ok; [assumption|destruct ls; lk]].
      eexists. split; [apply update_ok; [assumption|destruct ls; lk]|].
      split; [head_cases ls; constructor|].
      split; [head_cases ls; rewrite insert_insert_eq; lk|].
      split.
      { intros x Hx. head_cases ls;
          (rewrite !lookup_insert_ne; [reflexivity| |]; intros E; subst x; apply Hx; in_list). }
      split.
      { intros y. head_cases ls; rewrite insert_insert_eq;
          apply (Hof _ _ hw); auto. }
      split; [head_cases ls; reflexivity|].
      split; [head_cases ls; reflexivity|].
      split; [head_cases ls; reflexivity|].
      split; [head_cases ls; reflexivity|].
      split; [head_cases ls; reflexivity|].
      split; [head_cases ls; reflexivity|].
      head_cases ls; rewrite insert_insert_eq; apply dom_insert_lookup_L; eauto.
    + (* ... followed by [b] *)
      apply cseg_head in HB as (Hbn & Hb & mb & Hmb & Hpb & HB').
      rewrite Hbn.
      destruct (Z.eqb_spec b nullptr); [contradiction|]. cbv iota. cbn [andb].
      assert (Hbw : b <> w) by (intros E; apply HwB; rewrite <- E; now left).
      apply NoDup_cons in HndB as (HbB' & HndB').
      erewrite bind_ok.
      2:{ rewrite (bind_ok _ _ _ _ _ (set_head_ok ls b s)).
          unfold set_prev. apply update_ok; [assumption|destruct ls; lk]. }
      unfold set_next, set_prev.
      erewrite bind_ok; [|apply update_ok; [assumption|destruct ls; lk]].
      eexists. split; [apply update_ok; [assumption|destruct ls; lk]|].
      split.
      { head_cases ls; rewrite insert_insert_eq;
          (econstructor; [assumption|lk|reflexivity|]; cbn [next with_prev];
           eapply cseg_agree; [exact HB'|];
           intros x mx Hx Hmx; exists mx; split; [|auto];
           rewrite !lookup_insert_ne; [assumption| |]; intros E; subst x;
           first [contradiction | apply HwB; now right]). }
      split; [head_cases ls; rewrite insert_insert_eq; lk|].
      split.
      { intros x Hx. head_cases ls;
          (rewrite !lookup_insert_ne; [reflexivity| | |]; intros E; subst x; apply Hx; in_list). }
      split.
      { intros y. head_cases ls; rewrite insert_insert_eq;
          (etransitivity; [apply (Hof _ _ hw); [lk|reflexivity]|];
           apply (Hof _ _ mb); auto). }
      repeat split; head_cases ls; try reflexivity;
        rewrite insert_insert_eq;
        (rewrite dom_insert_lookup_L by (rewrite lookup_insert_ne by congruence; eauto));
        apply dom_insert_lookup_L; eauto.
  - (* [w] has a predecessor [a0] *)
    rewrite lastp_snoc in Hpv.
    apply cseg_split in HA as (qa & HA0 & Ha0).
    apply cseg_head in Ha0 as (-> & Ha & ma & Hma & Hpa & Hend).
    apply cseg_nil_inv in Hend.
    assert (Haw : a0 <> w).
    { intros E. apply (HAw w); [apply elem_of_app; right; rewrite <- E; now left|now left]. }
    apply NoDup_app in HndA as (HndA0 & HA0a & _).
    rewrite Hpv. destruct (Z.eqb_spec a0 nullptr); [contradiction|].
    rewrite andb_false_r. cbv iota.
    assert (HA0x : forall x, x ∈ A0 -> x <> a0 /\ x <> w).
    { intros x Hx. split; intros E; subst x.
      - apply (HA0a a0); [assumption|now left].
      - apply (HAw w); [apply elem_of_app; now left|now left]. }
    destruct B as [|b B'].
    + (* ... and no successor *)
      apply cseg_nil_inv in HB. rewrite HB.
      change (nullptr =? nullptr) with true. cbv iota.
      unfold set_next, set_prev.
      step_update. step_update.
      eexists. split; [apply update_ok; [assumption|lk]|].
      unfold_state. rewrite insert_insert_eq.
      split.
      { replace (head_of ls _) with (head_of ls s) by (destruct ls; reflexivity).
        rewrite app_nil_r. eapply cseg_app.
        - eapply cseg_agree; [exact HA0|].
          intros x mx Hx Hmx. exists mx. split; [|auto].
          destruct (HA0x x Hx). now rewrite !lookup_insert_ne by congruence.
        - econstructor; [assumption|lk|exact Hpa|]. cbn [next with_next]. constructor. }
      split; [lk|].
      split.
      { intros x Hx. rewrite !lookup_insert_ne; [reflexivity| |];
          intros E; subst x; apply Hx; in_list. }
      split.
      { intros y. etransitivity; [apply (Hof _ _ hw); [lk|reflexivity]|].
        apply (Hof _ _ ma); auto. }
      repeat split; try (destruct ls; reflexivity).
      rewrite dom_insert_lookup_L by (rewrite lookup_insert_ne by congruence; eauto).
      apply dom_insert_lookup_L; eauto.
    + (* ... and a successor [b] *)
      apply cseg_head in HB as (Hbn & Hb & mb & Hmb & Hpb & HB').
      rewrite Hbn.
      destruct (Z.eqb_spec b nullptr); [contradiction|]. cbv iota.
      assert (Hbw : b <> w) by (intros E; apply HwB; rewrite <- E; now left).
      assert (Hba : b <> a0).
      { intros E. apply (HAw a0); [apply elem_of_app; right; now left|].
        right. rewrite <- E. now left. }
      apply NoDup_cons in HndB as (HbB' & HndB').
      unfold set_next, set_prev.
      erewrite bind_ok.
      2:{ step_update. step_load. cbn [prev next].
          rewrite Hpv, Hbn. apply update_ok; [assumption|lk]. }
      step_update.
      eexists. split; [apply update_ok; [assumption|lk]|].
      unfold_state. rewrite insert_insert_eq.
      split.
      { replace (head_of ls _) with (head_of ls s) by (destruct ls; reflexivity).
        eapply cseg_app.
        - eapply cseg_app.
          + eapply cseg_agree; [exact HA0|].
            intros x mx Hx Hmx. exists mx. split; [|auto].
            destruct (HA0x x Hx).
            assert (x <> b).
            { intros E. subst x. apply (HAw b); [apply elem_of_app; now left|].
              right. now left. }
            now rewrite !lookup_insert_ne by congruence.
          + econstructor; [assumption|lk|exact Hpa|]. cbn [next with_next]. constructor.
        - rewrite lastp_snoc.
          econstructor; [assumption|lk|reflexivity|]. cbn [next with_prev].
          eapply cseg_agree; [exact HB'|].
          intros x mx Hx Hmx. exists mx. split; [|auto].
          rewrite !lookup_insert_ne; [assumption| | |]; intros E; subst x;
            first [ contradiction
                  | apply HwB; now right
                  | apply (HAw a0); [apply elem_of_app; right; now left|];
                    right; now right ]. }
      split; [lk|].
      split.
      { intros x Hx. rewrite !lookup_insert_ne; [reflexivity| | |];
          intros E; subst x; apply Hx; in_list. }
      split.
      { intros y. etransitivity; [apply (Hof _ _ hw); [lk|reflexivity]|].
        etransitivity; [apply (Hof _ _ ma); [lk|reflexivity]|].
        apply (Hof _ _ mb); auto. }
      repeat split; try (destruct ls; reflexivity).
      rewrite dom_insert_lookup_L by (rewrite !lookup_insert_ne by congruence; eauto).
      rewrite dom_insert_lookup_L by (rewrite !lookup_insert_ne by congruence; eauto).
      apply dom_insert_lookup_L; eauto.
Qed.

(** ** Mapped blocks *)

(** X4. [remove_from_list w list] on a well-linked list [A ++ w :: B] (every
    [prev] mirrors the [next] before it) leaves the well-linked list
    [A ++ B]: [w] is unlinked with its [next] and [prev] cleared, no block
    after it is lost, only [next] and [prev] fields of blocks of the list
    change, and the other list, the bins, the break and the payload bytes are
    as before. *)
Theorem remove_from_list_unlinks_exactly_the_block (ls : list_ref) (s : state) (w : ptr)
    (hw : MallocMetadata) (A B : list ptr)
    (Hhw : heap s !! w = Some hw)
    (Hdll : chain_dll ls s = Some (A ++ w :: B)) :
  exists s',
    remove_from_list w ls s = Ok (tt, s') /\
    chain_dll ls s' = Some (A ++ B) /\
    heap s' !! w = Some (mkMeta (size hw) (is_free hw) nullptr nullptr (bin_next hw) (bin_prev hw)) /\
    (forall x, x ∉ A ++ w :: B -> heap s' !! x = heap s !! x) /\
    (forall x, other_fields <$> (heap s' !! x) = other_fields <$> (heap s !! x)) /\
    head_of (other_list ls) s' = head_of (other_list ls) s /\
    free_block_bin s' = free_block_bin s /\ brk s' = brk s /\ mem s' = mem s.
Proof.
  destruct (remove_from_list_dll ls s w hw A B Hhw Hdll)
    as (s' & Hrun & Hseg & Hw & Hframe & Hother & Hhead & Hbins & Hbrk & Hmem & _).
  exists s'. split; [assumption|]. split; [|auto 10].
  apply cseg_chain_dll; [assumption|].
  apply chain_dll_cseg in Hdll as (_ & Hnd).
  apply NoDup_app in Hnd as (HA & HAw & HwB). apply NoDup_cons in HwB as (HwB & HB).
  apply NoDup_app. split; [assumption|]. split; [|assumption].
  intros x Hx Hx'. apply (HAw x Hx). now right.
Qed.

Lemma remove_from_list_witness :
  exists s',
    remove_from_list 2097152 mmap_list three_mapped = Ok (tt, s') /\
    chain_dll mmap_list s' = Some [1048576; 3145728] /\
    heap s' !! 2097152 = Some (mkMeta 300000 false 0 0 0 0).
Proof.
  destruct (remove_from_list_unlinks_exactly_the_block mmap_list three_mapped 2097152
              (mkMeta 300000 false 3145728 1048576 0 0) [1048576] [3145728]
              eq_refl eq_refl) as (s' & H1 & H2 & H3 & _).
  exists s'. split; [exact H1|]. split; [exact H2|exact H3].
Defined.

(** Appending keeps the chain doubly linked. *)
Lemma insert_keeps_dll ls s s' r init l :
  chain_dll ls s = Some l -> r <> nullptr -> r ∉ l ->
  head_of ls s' = default r (head l) ->
  heap s' !! r = Some (with_next nullptr (with_prev (default nullptr (last l)) init)) ->
  (forall b mb, last l = Some b -> heap s !! b = Some mb ->
                heap s' !! b = Some (with_next r mb)) ->
  (forall x, x <> r -> last l <> Some x -> heap s' !! x = heap s !! x) ->
  chain_dll ls s' = Some (l ++ [r]).
Proof.
  intros Hdll Hr Hnotin Hhead Hhr Hlast Hframe.
  apply chain_dll_cseg in Hdll as (Hseg & Hnd).
  apply cseg_chain_dll.
  2:{ apply NoDup_app. split; [assumption|]. split; [|apply NoDup_singleton].
      intros x Hx Hx'. apply list_elem_of_singleton in Hx'. subst x. contradiction. }
  destruct l as [|b l0] using rev_ind; [|clear IHl0].
  - rewrite Hhead. cbn [head default app].
    econstructor; [assumption|exact Hhr|reflexivity|]. constructor.
  - assert (Hhd : head (l0 ++ [b]) = Some (head_of ls s)).
    { destruct l0 as [|x l0]; cbn [app] in Hseg; apply cseg_head in Hseg as (-> & _);
        reflexivity. }
    rewrite Hhead, Hhd. cbn [default].
    rewrite last_snoc in *. cbn [default] in Hhr.
    apply cseg_split in Hseg as (q & Hl0 & Hb).
    apply cseg_head in Hb as (-> & Hb & mb & Hmb & Hpb & Hend).
    apply cseg_nil_inv in Hend.
    apply NoDup_app in Hnd as (Hnd0 & Hl0b & _).
    assert (Hbr : b <> r) by (intros ->; apply Hnotin; in_list).
    unfold id in Hhr.
    eapply cseg_app; [eapply cseg_app|].
    + eapply cseg_frame; [exact Hl0|]. intros x Hx. apply Hframe.
      * intros ->. apply Hnotin. in_list.
      * intros E. injection E as E. subst x. apply (Hl0b b Hx). now left.
    + econstructor; [assumption|apply (Hlast b mb eq_refl Hmb)|exact Hpb|].
      cbn [next with_next]. constructor.
    + rewrite lastp_snoc.
      econstructor; [assumption|exact Hhr|reflexivity|]. constructor.
Qed.

(** ** The mapping path of [smalloc] and [sfree] *)

Lemma smalloc_mmap_spec (s : state) (n a : Z) (rest : list Z) (l : list ptr) :
  0 < n <= MAX_MALLOC_4_SIZE ->
  MIN_KB_BLOCK <= GET_SIZE_WITH_ALIGNMENT n ->
  mmap_answers s = a :: rest ->
  a <> MAP_FAILED /\ a <> nullptr ->
  heap s !! a = None ->
  chain_dll mmap_list s = Some l ->
  exists s',
    smalloc n s = Ok (GET_PTR_FROM_METADATA a, s') /\
    heap s' !! a = Some (mkMeta (GET_SIZE_WITH_ALIGNMENT n) false nullptr
                                (default nullptr (last l)) nullptr nullptr) /\
    chain_dll mmap_list s' = Some (l ++ [a]) /\
    (forall b mb, last l = Some b -> heap s !! b = Some mb ->
                  heap s' !! b = Some (with_next a mb)) /\
    (forall x, x <> a -> last l <> Some x -> heap s' !! x = heap s !! x) /\
    metadata_head s' = metadata_head s /\
    free_block_bin s' = free_block_bin s /\ brk s' = brk s /\ mem s' = mem s /\
    brk_limit s' = brk_limit s /\ mmap_answers s' = rest.
Proof.
  intros Hn Hbig Hans [Ha1 Ha2] Hfresh Hdll.
  set (sz := GET_SIZE_WITH_ALIGNMENT n) in *.
  set (init := mkMeta sz false nullptr nullptr nullptr nullptr).
  set (s0 := with_heap (<[a := init]> (heap s)) (with_mmap_answers rest s)).
  assert (Hdll0 : chain_dll mmap_list s0 = Some l).
  { apply chain_dll_cseg in Hdll as (Hseg & Hnd).
    apply cseg_chain_dll; [|assumption].
    eapply cseg_frame; [exact Hseg|]. intros x Hx. subst s0. unfold_state.
    apply lookup_insert_ne. intros ->.
    destruct (cseg_elem _ _ _ _ _ _ Hseg Hx) as [_ [m Hm]]. congruence. }
  assert (Hnotin : a ∉ l).
  { intros Hin. apply chain_dll_cseg in Hdll as (Hseg & _).
    destruct (cseg_elem _ _ _ _ _ _ Hseg Hin) as [_ [m Hm]]. congruence. }
  assert (Hinit : heap s0 !! a = Some init) by (subst s0; lk).
  destruct (insert_to_metadata_list_spec mmap_list s0 a init l
              (chain_dll_chain _ _ _ Hdll0) Ha2 Hinit Hnotin)
    as (s' & Hrun & _ & Hhead & Hha & Hlast & Hframe & Hother & Hbins & Hbrk & Hmem & Hlim & Hanss).
  exists s'. split.
  { unfold smalloc. rewrite (guard_passes n Hn). fold sz.
    destruct (Z.leb_spec MIN_KB_BLOCK sz); [|lia].
    unfold mmap at 1. unfold bind at 1. rewrite Hans.
    destruct (Z.eqb_spec a MAP_FAILED); [contradiction|].
    unfold INIT_METADATA. destruct (Z.eqb_spec a nullptr); [contradiction|].
    rewrite bind_modify. fold init. fold s0.
    rewrite (bind_ok _ _ _ _ _ Hrun). reflexivity. }
  split; [exact Hha|].
  split.
  { eapply insert_keeps_dll; eauto. }
  split.
  { intros b mb Hb Hmb. apply (Hlast b mb Hb). subst s0. unfold_state.
    rewrite lookup_insert_ne; [assumption|]. intros ->. congruence. }
  split.
  { intros x Hx Hlx. rewrite (Hframe x Hx Hlx). subst s0. unfold_state.
    now rewrite lookup_insert_ne by congruence. }
  auto 10.
Qed.

Lemma sfree_mmap_spec (s : state) (p : ptr) (hw : MallocMetadata) (A B : list ptr) :
  p <> nullptr ->
  heap s !! GET_METADATA_FROM_PTR p = Some hw ->
  MIN_KB_BLOCK <= size hw ->
  chain_dll mmap_list s = Some (A ++ GET_METADATA_FROM_PTR p :: B) ->
  exists s',
    sfree p s = Ok (tt, s') /\
    heap s' !! GET_METADATA_FROM_PTR p = None /\
    chain_dll mmap_list s' = Some (A ++ B) /\
    (forall x, x ∉ A ++ GET_METADATA_FROM_PTR p :: B -> heap s' !! x = heap s !! x) /\
    (forall x, x <> GET_METADATA_FROM_PTR p ->
               other_fields <$> (heap s' !! x) = other_fields <$> (heap s !! x)) /\
    metadata_head s' = metadata_head s /\
    free_block_bin s' = free_block_bin s /\ brk s' = brk s /\ mem s' = mem s /\
    brk_limit s' = brk_limit s /\ mmap_answers s' = mmap_answers s.
Proof.
  intros Hp Hhw Hbig Hdll.
  set (w := GET_METADATA_FROM_PTR p) in *.
  assert (Hw : w <> nullptr).
  { apply chain_dll_cseg in Hdll as (Hseg & _).
    eapply cseg_elem; [exact Hseg|in_list]. }
  destruct (remove_from_list_dll mmap_list s w hw A B Hhw Hdll)
    as (s1 & Hrun & Hseg & Hw1 & Hframe & Hother & Hhead & Hbins & Hbrk & Hmem & Hlim & Hans & Hdom).
  assert (HwAB : w ∉ A ++ B).
  { apply chain_dll_cseg in Hdll as (_ & Hnd).
    apply NoDup_app in Hnd as (_ & HAw & HwB). apply NoDup_cons in HwB as (HwB & _).
    intros Hin. apply elem_of_app in Hin as [Hin|Hin]; [|contradiction].
    apply (HAw w Hin). now left. }
  exists (with_heap (delete w (heap s1)) s1). split.
  { unfold sfree. destruct (Z.eqb_spec p nullptr); [contradiction|]. fold w.
    rewrite (bind_ok _ _ _ _ _ (load_ok _ _ _ Hw Hhw)).
    destruct (Z.leb_spec MIN_KB_BLOCK (size hw)); [|lia].
    rewrite (bind_ok _ _ _ _ _ Hrun).
    rewrite (bind_ok _ _ _ _ _ (load_ok _ _ _ Hw Hw1)). reflexivity. }
  unfold_state.
  split; [apply lookup_delete_eq|].
  split.
  { apply cseg_chain_dll.
    - eapply cseg_frame; [exact Hseg|]. intros x Hx. unfold_state.
      apply lookup_delete_ne. intros ->. contradiction.
    - apply chain_dll_cseg in Hdll as (_ & Hnd).
      apply NoDup_app in Hnd as (HA & HAw & HwB). apply NoDup_cons in HwB as (HwB & HB).
      apply NoDup_app. split; [assumption|]. split; [|assumption].
      intros x Hx Hx'. apply (HAw x Hx). now right. }
  split.
  { intros x Hx. rewrite lookup_delete_ne; [now apply Hframe|].
    intros ->. apply Hx. in_list. }
  split.
  { intros x Hx. rewrite lookup_delete_ne by congruence. apply Hother. }
  auto 10.
Qed.

(** X6. A request whose rounded size is 128 KB or more is served by [mmap]: when
    the kernel answers [a] (not [MAP_FAILED], not null, no header there yet)
    and the mmap list is well linked, [smalloc n] returns the payload of
    [a], writes there a header in use of the rounded size, appends [a] to
    the mmap list and uses up that answer; the head of the brk list, the bins,
    the break and the payload bytes are as before. *)
Theorem smalloc_maps_a_large_request (s : state) (n a : Z) (rest : list Z) (l : list ptr)
    (Hn : 0 < n <= MAX_MALLOC_4_SIZE)
    (Hbig : MIN_KB_BLOCK <= GET_SIZE_WITH_ALIGNMENT n)
    (Hans : mmap_answers s = a :: rest)
    (Ha : a <> MAP_FAILED /\ a <> nullptr)
    (Hfresh : heap s !! a = None)
    (Hdll : chain_dll mmap_list s = Some l) :
  exists s',
    smalloc n s = Ok (GET_PTR_FROM_METADATA a, s') /\
    heap s' !! a = Some (mkMeta (GET_SIZE_WITH_ALIGNMENT n) false nullptr
                                (default nullptr (last l)) nullptr nullptr) /\
    chain_dll mmap_list s' = Some (l ++ [a]) /\
    (forall b mb, last l = Some b -> heap s !! b = Some mb ->
                  heap s' !! b = Some (with_next a mb)) /\
    (forall x, x <> a -> last l <> Some x -> heap s' !! x = heap s !! x) /\
    metadata_head s' = metadata_head s /\
    free_block_bin s' = free_block_bin s /\ brk s' = brk s /\ mem s' = mem s /\
    brk_limit s' = brk_limit s /\ mmap_answers s' = rest.
Proof. now apply smalloc_mmap_spec. Qed.

Lemma smalloc_maps_witness :
  exists s',
    smalloc 200000 Scenario.mapping_granted = Ok (1048624, s') /\
    heap s' !! 1048576 = Some (mkMeta 200000 false 0 0 0 0) /\
    chain_dll mmap_list s' = Some [1048576].
Proof.
  assert (Hn : 0 < 200000 <= MAX_MALLOC_4_SIZE) by (unfold MAX_MALLOC_4_SIZE; lia).
  assert (Hbig : MIN_KB_BLOCK <= GET_SIZE_WITH_ALIGNMENT 200000) by discriminate.
  assert (Ha : 1048576 <> MAP_FAILED /\ 1048576 <> nullptr) by (split; discriminate).
  destruct (smalloc_maps_a_large_request Scenario.mapping_granted 200000 1048576 [] []
              Hn Hbig eq_refl Ha eq_refl eq_refl) as (s' & H1 & H2 & H3 & _).
  exists s'. split; [exact H1|]. split; [exact H2|exact H3].
Defined.

(** X7. [sfree p] of a block of 128 KB or more that is in the well-linked mmap
    list drops it from that list and unmaps it: its header is gone, the list
    is the old one without it, of the other blocks only [next] and [prev] of
    blocks of the list change, and the head of the brk list, the bins, the
    break, the payload bytes and the kernel's answers are as before. *)
Theorem sfree_unmaps_a_mapped_block (s : state) (p : ptr) (hw : MallocMetadata)
    (A B : list ptr)
    (Hp : p <> nullptr)
    (Hhw : heap s !! GET_METADATA_FROM_PTR p = Some hw)
    (Hbig : MIN_KB_BLOCK <= size hw)
    (Hdll : chain_dll mmap_list s = Some (A ++ GET_METADATA_FROM_PTR p :: B)) :
  exists s',
    sfree p s = Ok (tt, s') /\
    heap s' !! GET_METADATA_FROM_PTR p = None /\
    chain_dll mmap_list s' = Some (A ++ B) /\
    (forall x, x ∉ A ++ GET_METADATA_FROM_PTR p :: B -> heap s' !! x = heap s !! x) /\
    (forall x, x <> GET_METADATA_FROM_PTR p ->
               other_fields <$> (heap s' !! x) = other_fields <$> (heap s !! x)) /\
    metadata_head s' = metadata_head s /\
    free_block_bin s' = free_block_bin s /\ brk s' = brk s /\ mem s' = mem s /\
    brk_limit s' = brk_limit s /\ mmap_answers s' = mmap_answers s.
Proof. exact (sfree_mmap_spec s p hw A B Hp Hhw Hbig Hdll). Qed.

Lemma sfree_unmaps_witness :
  exists s',
    sfree 2097200 three_mapped = Ok (tt, s') /\
    heap s' !! 2097152 = None /\
    chain_dll mmap_list s' = Some [1048576; 3145728].
Proof.
  assert (Hp : 2097200 <> nullptr) by discriminate.
  assert (Hbig : MIN_KB_BLOCK <= size (mkMeta 300000 false 3145728 1048576 0 0))
    by discriminate.
  destruct (sfree_unmaps_a_mapped_block three_mapped 2097200
              (mkMeta 300000 false 3145728 1048576 0 0) [1048576] [3145728]
              Hp eq_refl Hbig eq_refl) as (s' & H1 & H2 & H3 & _).
  exists s'. split; [exact H1|]. split; [exact H2|exact H3].
Defined.

(** ** Mapping and unmapping a block *)

Lemma cseg_start h pv p l q : cseg h pv p l q -> p = default q (head l).
Proof. destruct 1; reflexivity. Qed.

(** The links of a block in a doubly linked chain are fixed by the chain. *)
Lemma cseg_links_determined h h' l : forall pv p q x m m',
  cseg h pv p l q -> cseg h' pv p l q -> x ∈ l ->
  h !! x = Some m -> h' !! x = Some m' ->
  next m = next m' /\ prev m = prev m'.
Proof.
  induction l as [|y l IH]; intros pv p q x m m' H H' Hx Hm Hm'; [inversion Hx|].
  apply cseg_head in H as (-> & Hy & my & Hmy & Hpy & Hrest).
  apply cseg_head in H' as (_ & _ & my' & Hmy' & Hpy' & Hrest').
  assert (Hn : next my = next my').
  { apply cseg_start in Hrest. apply cseg_start in Hrest'. congruence. }
  apply elem_of_cons in Hx as [->|Hx].
  - rewrite Hmy in Hm. rewrite Hmy' in Hm'. inversion Hm; inversion Hm'; subst.
    split; congruence.
  - rewrite <- Hn in Hrest'. eapply IH; eauto.
Qed.

Lemma header_eq m m' :
  other_fields m = other_fields m' -> next m = next m' -> prev m = prev m' -> m = m'.
Proof.
  destruct m, m'. unfold other_fields. cbn. intros [= -> -> -> ->] -> ->. reflexivity.
Qed.

Lemma metadata_round_trip a :
  GET_METADATA_FROM_PTR (GET_PTR_FROM_METADATA a) = a.
Proof. unfold GET_METADATA_FROM_PTR, GET_PTR_FROM_METADATA. lia. Qed.

(** X8. [smalloc] of a request of mapped size followed by [sfree] of the pointer
    it returned gives back the state before the two calls, but for the
    kernel's answer that was used up. *)
Theorem mapped_block_round_trip (s : state) (n a : Z) (rest : list Z) (l : list ptr)
    (Hn : 0 < n <= MAX_MALLOC_4_SIZE)
    (Hbig : MIN_KB_BLOCK <= GET_SIZE_WITH_ALIGNMENT n)
    (Hans : mmap_answers s = a :: rest)
    (Ha : a <> MAP_FAILED /\ 0 < a)
    (Hfresh : heap s !! a = None)
    (Hdll : chain_dll mmap_list s = Some l) :
  exists s1,
    smalloc n s = Ok (GET_PTR_FROM_METADATA a, s1) /\
    sfree (GET_PTR_FROM_METADATA a) s1 = Ok (tt, with_mmap_answers rest s).
Proof.
  destruct Ha as [Ha1 Ha2].
  assert (Ha : a <> MAP_FAILED /\ a <> nullptr) by (split; [assumption|unfold nullptr; lia]).
  destruct (smalloc_mmap_spec s n a rest l Hn Hbig Hans Ha Hfresh Hdll)
    as (s1 & Hrun1 & Hha & Hdll1 & Hlast1 & Hframe1 & Hhd1 & Hbin1 & Hbrk1 & Hmem1 & Hlim1 & Hans1).
  exists s1. split; [exact Hrun1|].
  assert (Hp : GET_PTR_FROM_METADATA a <> nullptr).
  { unfold GET_PTR_FROM_METADATA, sizeof_metadata, nullptr. lia. }
  pose proof (aligned_bounds n ltac:(lia)) as [Hb _].
  destruct (sfree_mmap_spec s1 (GET_PTR_FROM_METADATA a) _ l []
              Hp ltac:(rewrite metadata_round_trip; exact Hha) Hbig
              ltac:(rewrite metadata_round_trip; exact Hdll1))
    as (s2 & Hrun2 & Hgone & Hdll2 & Hframe2 & Hother2 & Hhd2 & Hbin2 & Hbrk2 & Hmem2 & Hlim2 & Hans2).
  rewrite metadata_round_trip in *. rewrite app_nil_r in Hdll2.
  rewrite Hrun2. do 2 f_equal.
  apply chain_dll_cseg in Hdll as (Hseg & Hnd).
  apply chain_dll_cseg in Hdll2 as (Hseg2 & _).
  assert (Hheap : heap s2 = heap s).
  { apply map_eq. intros x.
    destruct (decide (x = a)) as [->|Hxa]; [congruence|].
    destruct (decide (x ∈ l)) as [Hin|Hout].
    - destruct (cseg_elem _ _ _ _ _ _ Hseg Hin) as [_ [m Hm]].
      destruct (cseg_elem _ _ _ _ _ _ Hseg2 Hin) as [_ [m2 Hm2]].
      rewrite Hm, Hm2. f_equal.
      assert (Hst : head_of mmap_list s2 = head_of mmap_list s).
      { apply cseg_start in Hseg. apply cseg_start in Hseg2. congruence. }
      rewrite Hst in Hseg2.
      destruct (cseg_links_determined _ _ _ _ _ _ _ _ _ Hseg2 Hseg Hin Hm2 Hm) as [En Ep].
      apply header_eq; [|assumption|assumption].
      specialize (Hother2 x Hxa). rewrite Hm2 in Hother2.
      destruct (decide (last l = Some x)) as [El|El].
      + rewrite (Hlast1 x m El Hm) in Hother2.
        unfold other_fields in *. cbn in Hother2 |- *. congruence.
      + rewrite (Hframe1 x Hxa El), Hm in Hother2.
        unfold other_fields in *. cbn in Hother2 |- *. congruence.
    - rewrite Hframe2.
      + apply Hframe1; [assumption|]. intros El. apply Hout. eapply last_elem; eauto.
      + intros Hx. apply elem_of_app in Hx as [Hx|Hx]; [contradiction|].
        apply list_elem_of_singleton in Hx. contradiction. }
  assert (Hhead : mmap_metadata_head s2 = mmap_metadata_head s).
  { apply cseg_start in Hseg. apply cseg_start in Hseg2. cbn [head_of] in *. congruence. }
  destruct s2, s. unfold_state. cbn in *. congruence.
Qed.

Lemma mapped_block_round_trip_witness :
  exists s1,
    smalloc 200000 Scenario.mapping_granted = Ok (1048624, s1) /\
    sfree 1048624 s1 = Ok (tt, initial_state 4096 1000000 []).
Proof.
  assert (Hn : 0 < 200000 <= MAX_MALLOC_4_SIZE) by (unfold MAX_MALLOC_4_SIZE; lia).
  assert (Hbig : MIN_KB_BLOCK <= GET_SIZE_WITH_ALIGNMENT 200000) by discriminate.
  assert (Ha : 1048576 <> MAP_FAILED /\ 0 < 1048576) by (split; [discriminate|lia]).
  exact (mapped_block_round_trip Scenario.mapping_granted 200000 1048576 [] []
              Hn Hbig eq_refl Ha eq_refl eq_refl).
Defined.

(** ** Where [insert_block_to_bin] puts a block *)

Lemma same_but_refl nb h : same_but nb h h.
Proof. now intros x _. Qed.

Lemma same_but_insert nb h h1 p m m' :
  same_but nb h h1 -> h1 !! p = Some m -> addr_fields m' = addr_fields m ->
  same_but nb h (<[p := m']> h1).
Proof.
  intros H Hm Hf x Hx. rewrite <- (H x Hx).
  destruct (decide (x = p)) as [->|Hxp].
  - rewrite lookup_insert_eq, Hm. cbn. now rewrite Hf.
  - now rewrite lookup_insert_ne by congruence.
Qed.

Lemma same_but_insert_nb nb h h1 m' :
  same_but nb h h1 -> same_but nb h (<[nb := m']> h1).
Proof.
  intros H x Hx. rewrite <- (H x Hx). now rewrite lookup_insert_ne by congruence.
Qed.

Ltac same_but_updates :=
  repeat first
    [ apply same_but_insert_nb
    | eapply same_but_insert;
        [ | solve [lk] | solve [reflexivity | unfold addr_fields; cbn; congruence] ] ];
  apply same_but_refl.

Lemma block_size_at s x m : heap s !! x = Some m -> block_size s x = size m.
Proof. unfold block_size. now intros ->. Qed.

Ltac globals := repeat split; reflexivity || assumption.

Section Place.
Variable nb : Z.
Variable mn : MallocMetadata.
Hypothesis Hnb : nb <> nullptr.
Hypothesis Hsize : 0 <= size mn < MIN_KB_BLOCK.

Local Abbreviation k := (Z.to_nat (GET_BIN_ENTRY (size mn))).

Lemma insert_bin_loop_places l2 : forall l1 fuel s block,
  heap s !! nb = Some mn ->
  length (free_block_bin s) = Z.to_nat BIN_SIZE ->
  dseg (heap s) nullptr (bin_head s k) l1 block ->
  dseg (heap s) (lastp nullptr l1) block l2 nullptr ->
  NoDup (l1 ++ l2) -> nb ∉ l1 ++ l2 -> (l1 = [] -> l2 <> []) ->
  (length l2 < fuel)%nat ->
  (forall x, x ∈ l1 -> block_size s x < size mn) ->
  exists s' la lb,
    insert_bin_loop fuel nb block (lastp nullptr l1) s = Ok (tt, s') /\
    l1 ++ l2 = la ++ lb /\ placed_at nb mn k s s' la lb.
Proof.
  pose proof (bin_entry_range _ Hsize) as Hk.
  induction l2 as [|b l2 IH]; intros l1 fuel s block Hmn Hlen H1 H2 Hnd Hnotin Hne Hfuel Hlt.
  - (* the loop ran off the end: append after the last block *)
    apply dseg_nil_inv in H2. subst block.
    destruct l1 as [|a l1] using rev_ind; [now specialize (Hne eq_refl)|clear IHl1].
    rewrite app_nil_r in *. rewrite lastp_snoc.
    apply dseg_split in H1 as (qa & H1 & Ha).
    apply dseg_head in Ha as (-> & Ha & ma & Hma & Hbpa & Hend).
    apply dseg_nil_inv in Hend.
    assert (Han : a <> nb) by (intros E; apply Hnotin; rewrite <- E; in_list).
    apply NoDup_app in Hnd as (Hnd1 & H1a & _).
    destruct fuel as [|fuel]; [lia|]. cbn [insert_bin_loop].
    change (nullptr =? nullptr) with true. cbv iota.
    unfold set_bin_next, set_bin_prev, set_is_free.
    step_update. step_update. step_update.
    erewrite update_ok; [|assumption|lk].
    eexists; exists (l1 ++ [a]), []. split; [reflexivity|]. split; [now rewrite app_nil_r|].
    unfold placed_at. unfold_state. rewrite !insert_insert_eq.
    split.
    { rewrite <- app_assoc. eapply dseg_app.
      - eapply dseg_frame; [exact H1|]. intros x Hx.
        frame_at x ltac:(first [ apply Hnotin; in_list
                               | apply (H1a a); [assumption|now left] ]).
      - econstructor; [assumption|lk|exact Hbpa|]. cbn [bin_next with_bin_next].
        econstructor; [assumption|lk|reflexivity|]. cbn [bin_next with_bin_next with_is_free
          with_bin_prev]. constructor. }
    split; [exact Hlt|].
    split; [intros b0 [=]|].
    split.
    { eexists. split; [lk|]. cbn [size next prev is_free with_is_free with_bin_next with_bin_prev].
      rewrite (bool_decide_eq_false_2 (l1 ++ [a] = []))
        by (intros E; destruct l1; discriminate).
      rewrite orb_true_r. auto. }
    split; [same_but_updates|].
    split.
    { intros x Hx. frame_at x ltac:(apply Hx; in_list). }
    globals.
  - (* the loop stands at [b] *)
    apply dseg_head in H2 as (-> & Hb & mb & Hmb & Hbpb & H2).
    assert (Hbn : b <> nb) by (intros E; apply Hnotin; rewrite <- E; in_list).
    destruct fuel as [|fuel]; [simpl in Hfuel; lia|]. cbn [insert_bin_loop].
    destruct (Z.eqb_spec b nullptr); [contradiction|].
    rewrite (bind_ok _ _ _ _ _ (load_ok _ _ _ Hb Hmb)).
    rewrite (bind_ok _ _ _ _ _ (load_ok _ _ _ Hnb Hmn)).
    destruct (Z.leb_spec (size mn) (size mb)) as [Hle|Hgt].
    + (* insert before [b] *)
      rewrite Hbpb.
      assert (Hil : (k < length (free_block_bin s))%nat)
        by (rewrite Hlen; unfold BIN_SIZE in *; lia).
      destruct (lookup_lt_is_Some_2 _ _ Hil) as [q0 Hq0].
      destruct l1 as [|a l1] using rev_ind; [|clear IHl1].
      * (* ... as the new head *)
        apply dseg_nil_inv in H1. rewrite lastp_nil in *.
        change (nullptr =? nullptr) with true. cbv iota.
        apply NoDup_cons in Hnd as (Hbl2 & Hnd2).
        unfold set_bin_next, set_bin_prev.
        step_update. step_update. step_update. step_load.
        cbn [size with_bin_prev with_bin_next].
        erewrite set_bin_at; [|exact Hsize|lk; exact Hq0].
        eexists; exists [], (b :: l2). split; [reflexivity|]. split; [reflexivity|].
        unfold placed_at. unfold_state. rewrite !insert_insert_eq.
        split.
        { unfold bin_head. unfold_state.
          rewrite list_lookup_insert_eq by assumption. cbn [default app]. unfold id.
          econstructor; [assumption|lk|reflexivity|].
          cbn [bin_next with_bin_next with_bin_prev].
          econstructor; [assumption|lk|reflexivity|]. cbn [bin_next with_bin_prev].
          eapply dseg_frame; [exact H2|]. intros x Hx.
          frame_at x ltac:(first [ apply Hnotin; in_list | contradiction ]). }
        split; [intros x Hx; inversion Hx|].
        split; [intros b0 [= <-]; now rewrite (block_size_at _ _ _ Hmb)|].
        split.
        { eexists. split; [lk|].
          cbn [size next prev is_free with_is_free with_bin_next with_bin_prev].
          rewrite orb_false_r. auto. }
        split; [same_but_updates|].
        split.
        { intros x Hx. frame_at x ltac:(apply Hx; in_list). }
        split; [intros j Hj; now rewrite list_lookup_insert_ne by congruence|].
        split; [now rewrite length_insert|]. globals.
      * (* ... between [a] and [b] *)
        rewrite lastp_snoc in *.
        apply dseg_split in H1 as (qa & H1 & Ha).
        apply dseg_head in Ha as (-> & Ha & ma & Hma & Hbpa & Hend).
        apply dseg_nil_inv in Hend.
        assert (Han : a <> nb) by (intros E; apply Hnotin; rewrite <- E; in_list).
        destruct (Z.eqb_spec a nullptr); [contradiction|].
        rewrite <- app_assoc in Hnd. cbn [app] in Hnd.
        apply NoDup_app in Hnd as (Hnd1 & H1ab & Hndab).
        apply NoDup_cons in Hndab as (Hab & Hndb).
        apply NoDup_cons in Hndb as (Hbl2 & Hnd2).
        assert (Hab' : a <> b) by (intros E; apply Hab; rewrite E; now left).
        unfold set_bin_next, set_bin_prev.
        step_update. step_update. step_update.
        erewrite update_ok; [|assumption|lk].
        eexists; exists (l1 ++ [a]), (b :: l2). split; [reflexivity|]. split; [reflexivity|].
        unfold placed_at. unfold_state. rewrite !insert_insert_eq.
        split.
        { rewrite <- app_assoc. eapply dseg_app.
          - eapply dseg_frame; [exact H1|]. intros x Hx.
            frame_at x ltac:(first [ apply Hnotin; in_list
                                   | apply (H1ab a); [assumption|now left]
                                   | apply (H1ab b); [assumption|right; now left] ]).
          - econstructor; [assumption|lk|exact Hbpa|]. cbn [bin_next with_bin_next].
            econstructor; [assumption|lk|reflexivity|].
            cbn [bin_next with_bin_next with_bin_prev].
            econstructor; [assumption|lk|reflexivity|]. cbn [bin_next with_bin_prev].
            eapply dseg_frame; [exact H2|]. intros x Hx.
            frame_at x ltac:(first [ apply Hnotin; in_list
                                   | contradiction
                                   | apply Hab; now right ]). }
        split; [exact Hlt|].
        split; [intros b0 [= <-]; now rewrite (block_size_at _ _ _ Hmb)|].
        split.
        { eexists. split; [lk|].
          cbn [size next prev is_free with_is_free with_bin_next with_bin_prev].
          rewrite orb_false_r. auto. }
        split; [same_but_updates|].
        split.
        { intros x Hx. frame_at x ltac:(apply Hx; in_list). }
        globals.
    + (* go on after [b] *)
      destruct (IH (l1 ++ [b]) fuel s (bin_next mb)) as (s' & la & lb & Hrun & Hsplit & Hins).
      * assumption.
      * assumption.
      * eapply dseg_app; [exact H1|]. econstructor; eauto. constructor.
      * now rewrite lastp_snoc.
      * now rewrite <- app_assoc.
      * now rewrite <- app_assoc.
      * intros E. destruct l1; discriminate.
      * simpl in Hfuel. lia.
      * intros x Hx. apply elem_of_app in Hx as [Hx|Hx]; [now apply Hlt|].
        apply list_elem_of_singleton in Hx. subst x.
        rewrite (block_size_at _ _ _ Hmb). lia.
      * rewrite lastp_snoc in Hrun. exists s', la, lb. split; [exact Hrun|].
        split; [|exact Hins]. now rewrite <- app_assoc in Hsplit.
Qed.

Lemma insert_block_to_bin_places s l :
  heap s !! nb = Some mn ->
  length (free_block_bin s) = Z.to_nat BIN_SIZE ->
  dseg (heap s) nullptr (bin_head s k) l nullptr ->
  NoDup l -> nb ∉ l ->
  exists s' la lb,
    insert_block_to_bin nb s = Ok (tt, s') /\ l = la ++ lb /\ placed_at nb mn k s s' la lb.
Proof.
  intros Hmn Hlen Hseg Hnd Hnotin.
  pose proof (dseg_fuel _ _ _ _ _ Hseg Hnd) as Hfuel.
  pose proof (bin_entry_range _ Hsize) as Hk.
  assert (Hil : (k < length (free_block_bin s))%nat)
    by (rewrite Hlen; unfold BIN_SIZE in *; lia).
  destruct (lookup_lt_is_Some_2 _ _ Hil) as [q0 Hq0].
  assert (Hhead : bin_head s k = q0) by (unfold bin_head; now rewrite Hq0).
  unfold insert_block_to_bin.
  rewrite (bind_ok _ _ _ _ _ (load_ok _ _ _ Hnb Hmn)).
  rewrite (bind_ok _ _ _ _ _ (get_bin_at _ _ _ Hsize Hq0)).
  destruct l as [|b l].
  - (* the bucket is empty *)
    apply dseg_nil_inv in Hseg. rewrite Hhead in Hseg. subst q0.
    change (nullptr =? nullptr) with true. cbv iota.
    unfold set_bin_next, set_bin_prev.
    step_update. step_update. step_load.
    cbn [size with_bin_prev with_bin_next].
    erewrite set_bin_at; [|exact Hsize|lk; exact Hq0].
    eexists; exists [], []. split; [reflexivity|]. split; [reflexivity|].
    unfold placed_at. unfold_state. rewrite !insert_insert_eq.
    split.
    { unfold bin_head. unfold_state.
      rewrite list_lookup_insert_eq by assumption. cbn [default app]. unfold id.
      econstructor; [assumption|lk|reflexivity|]. constructor. }
    split; [intros x Hx; inversion Hx|].
    split; [intros b0 [=]|].
    split.
    { eexists. split; [lk|].
      cbn [size next prev is_free with_is_free with_bin_next with_bin_prev].
      rewrite orb_false_r. auto. }
    split; [same_but_updates|].
    split.
    { intros x Hx. frame_at x ltac:(apply Hx; in_list). }
    split; [intros j Hj; now rewrite list_lookup_insert_ne by congruence|].
    split; [now rewrite length_insert|]. globals.
  - (* the loop *)
    pose proof (dseg_head _ _ _ _ _ _ Hseg) as (Hq & Hb & _).
    assert (Eq : q0 = b) by congruence. rewrite Eq in *. clear Eq.
    destruct (Z.eqb_spec b nullptr); [contradiction|].
    destruct (insert_bin_loop_places (b :: l) [] (fuel_of s) s b)
      as (s' & la & lb & Hrun & Hsplit & Hins); try assumption.
    + rewrite Hhead. constructor.
    + rewrite lastp_nil. rewrite Hhead in Hseg. exact Hseg.
    + discriminate.
    + intros x Hx. inversion Hx.
    + exists s', la, lb. split; [|split; [exact Hsplit|exact Hins]].
      unfold walk_fuel. rewrite bind_gets. exact Hrun.
Qed.

End Place.

(** ** Buckets stay sorted *)

Lemma sorted_insert {A} (R : A -> A -> Prop) (x : A) : forall la lb,
  StronglySorted R (la ++ lb) ->
  (forall a, a ∈ la -> R a x) -> (forall b, b ∈ lb -> R x b) ->
  StronglySorted R (la ++ x :: lb).
Proof.
  induction la as [|a la IH]; intros lb Hs Ha Hb; cbn [app] in *.
  - constructor; [assumption|]. apply Forall_forall. intros b Hb'.
    now apply Hb.
  - apply StronglySorted_inv in Hs as [Hs Hall].
    constructor.
    + apply IH; [assumption| |assumption]. intros a' Ha'. apply Ha. now right.
    + rewrite Forall_forall in *. intros y Hy.
      apply elem_of_app in Hy as [Hy|Hy]; [|apply elem_of_cons in Hy as [->|Hy]].
      * apply Hall. apply elem_of_app. now left.
      * apply Ha. now left.
      * apply Hall. apply elem_of_app. now right.
Qed.

Lemma sorted_app_r {A} (R : A -> A -> Prop) : forall la lb,
  StronglySorted R (la ++ lb) -> StronglySorted R lb.
Proof.
  induction la as [|a la IH]; intros lb Hs; [exact Hs|].
  apply StronglySorted_inv in Hs as [Hs _]. now apply IH.
Qed.

Lemma placed_sizes nb mn k s s' la lb :
  heap s !! nb = Some mn ->
  placed_at nb mn k s s' la lb -> forall x, block_size s' x = block_size s x.
Proof.
  intros Hmn (_ & _ & _ & (m' & Hm' & Hsz & _) & Hsame & _) x.
  destruct (decide (x = nb)) as [->|Hx].
  - now rewrite (block_size_at _ _ _ Hm'), (block_size_at _ _ _ Hmn).
  - specialize (Hsame x Hx). unfold block_size.
    destruct (heap s' !! x) as [m1|], (heap s !! x) as [m2|]; cbn in Hsame;
      try discriminate; [|reflexivity].
    unfold addr_fields in Hsame. congruence.
Qed.

Lemma placed_bucket nb mn k s s' la lb :
  nb ∉ la ++ lb -> NoDup (la ++ lb) ->
  placed_at nb mn k s s' la lb -> bucket_dll s' k = Some (la ++ nb :: lb).
Proof.
  intros Hnotin Hnd (Hseg & _). apply dseg_bucket_dll; [assumption|].
  apply NoDup_app in Hnd as (Ha & Hab & Hb).
  apply NoDup_app. split; [assumption|]. split.
  - intros x Hx Hx'. apply elem_of_cons in Hx' as [->|Hx'].
    + apply Hnotin. apply elem_of_app. now left.
    + now apply (Hab x).
  - apply NoDup_cons. split; [|assumption].
    intros Hin. apply Hnotin. apply elem_of_app. now right.
Qed.

(** X5. [insert_block_to_bin nb], for a block below 128 KB whose bucket is
    well linked, sorted by size and does not hold [nb], links [nb] after
    every block smaller than it and before every block at least as large:
    the bucket holds the old blocks and [nb], is still sorted by size, and no
    block changes its size. *)
Theorem insert_block_to_bin_keeps_bucket_sorted (s : state) (nb : ptr) (mn : MallocMetadata)
    (l : list ptr)
    (Hnb : nb <> nullptr)
    (Hmn : heap s !! nb = Some mn)
    (Hsize : 0 <= size mn < MIN_KB_BLOCK)
    (Hlen : length (free_block_bin s) = Z.to_nat BIN_SIZE)
    (Hdll : bucket_dll s (Z.to_nat (GET_BIN_ENTRY (size mn))) = Some l)
    (Hnotin : nb ∉ l)
    (Hsorted : sorted_by_size s l) :
  exists s' la lb,
    insert_block_to_bin nb s = Ok (tt, s') /\
    l = la ++ lb /\
    bucket_dll s' (Z.to_nat (GET_BIN_ENTRY (size mn))) = Some (la ++ nb :: lb) /\
    (forall x, x ∈ la -> block_size s x < size mn) /\
    (forall x, x ∈ lb -> size mn <= block_size s x) /\
    (forall x, block_size s' x = block_size s x) /\
    sorted_by_size s' (la ++ nb :: lb).
Proof.
  apply bucket_dll_dseg in Hdll as (Hseg & Hnd).
  destruct (insert_block_to_bin_places nb mn Hnb Hsize s l Hmn Hlen Hseg Hnd Hnotin)
    as (s' & la & lb & Hrun & -> & Hpl).
  pose proof (placed_sizes _ _ _ _ _ _ _ Hmn Hpl) as Hsz.
  pose proof (placed_bucket _ _ _ _ _ _ _ Hnotin Hnd Hpl) as Hb.
  destruct Hpl as (_ & Hla & Hlb & _).
  assert (Hlb' : forall x, x ∈ lb -> size mn <= block_size s x).
  { destruct lb as [|b lb]; [intros x Hx; inversion Hx|].
    specialize (Hlb b eq_refl). intros x Hx.
    apply sorted_app_r in Hsorted. apply StronglySorted_inv in Hsorted as [_ Hall].
    apply elem_of_cons in Hx as [->|Hx]; [assumption|].
    rewrite Forall_forall in Hall. specialize (Hall x Hx). cbv beta in Hall. lia. }
  exists s', la, lb. repeat (split; [assumption || reflexivity|]).
  unfold sorted_by_size in *.
  assert (Hs' : StronglySorted (fun x y => block_size s x <= block_size s y) (la ++ nb :: lb)).
  { apply sorted_insert; [assumption| |].
    - intros a Ha. specialize (Hla a Ha). rewrite (block_size_at _ _ _ Hmn). lia.
    - intros b Hb'. specialize (Hlb' b Hb'). now rewrite (block_size_at _ _ _ Hmn). }
  clear -Hs' Hsz. induction Hs' as [|a l0 Hs IH Hall]; constructor; [assumption|].
  rewrite Forall_forall in *. intros y Hy. rewrite !Hsz. now apply Hall.
Qed.

Lemma insert_block_to_bin_sorted_witness :
  exists s',
    insert_block_to_bin 5144 Scenario.one_big_free = Ok (tt, s') /\
    bucket_dll s' 0 = Some [5144; 4096].
Proof.
  assert (Hnb : 5144 <> nullptr) by discriminate.
  assert (Hsize : 0 <= size (mkMeta 8 false 0 4096 0 0) < MIN_KB_BLOCK)
    by (split; [discriminate|reflexivity]).
  assert (Hnotin : 5144 ∉ [4096]).
  { intros H. apply (bool_decide_pack _) in H. vm_compute in H. exact H. }
  assert (Hsorted : sorted_by_size Scenario.one_big_free [4096])
    by (repeat constructor).
  destruct (insert_block_to_bin_keeps_bucket_sorted Scenario.one_big_free 5144
              (mkMeta 8 false 0 4096 0 0) [4096] Hnb eq_refl Hsize eq_refl eq_refl
              Hnotin Hsorted) as (s' & la & lb & Hrun & Hsplit & Hb & Hla & _).
  exists s'. split; [exact Hrun|].
  destruct la as [|x la].
  - cbn [app] in Hsplit. subst lb. exact Hb.
  - exfalso. injection Hsplit as <- _.
    specialize (Hla 4096 ltac:(left)). vm_compute in Hla. discriminate.
Defined.

(** ** [sfree] of a block between blocks in use *)

(** A neighbour that is null or in use does not make [sfree] merge. *)
Lemma is_free_at_used s s' w q :
  q = nullptr \/ q <> w /\ (exists mq, heap s !! q = Some mq /\ is_free mq = false) ->
  (forall x, x <> w -> addr_fields <$> (heap s' !! x) = addr_fields <$> (heap s !! x)) ->
  is_free_at q s' = Ok (false, s').
Proof.
  intros [->|(Hqw & mq & Hmq & Hused)] Hsame; [reflexivity|].
  unfold is_free_at. destruct (Z.eqb_spec q nullptr); [reflexivity|].
  specialize (Hsame q Hqw). rewrite Hmq in Hsame.
  destruct (heap s' !! q) as [mq'|] eqn:E; [|discriminate].
  rewrite (bind_ok _ _ _ _ _ (load_ok _ _ _ n E)).
  cbn in Hsame. unfold addr_fields in Hsame. unfold ret. do 2 f_equal. congruence.
Qed.

(** [sfree] of a block between blocks in use. *)
Lemma sfree_between_used_spec (s : state) (p : ptr) (m : MallocMetadata)
    (l : list ptr)
    (Hp : p <> nullptr /\ GET_METADATA_FROM_PTR p <> nullptr)
    (Hm : heap s !! GET_METADATA_FROM_PTR p = Some m)
    (Hsize : 0 <= size m < MIN_KB_BLOCK)
    (Hlen : length (free_block_bin s) = Z.to_nat BIN_SIZE)
    (Hdll : bucket_dll s (Z.to_nat (GET_BIN_ENTRY (size m))) = Some l)
    (Hnotin : GET_METADATA_FROM_PTR p ∉ l)
    (Hnext : next m = nullptr \/
             next m <> GET_METADATA_FROM_PTR p /\
             exists mq, heap s !! next m = Some mq /\ is_free mq = false)
    (Hprev : prev m = nullptr \/
             prev m <> GET_METADATA_FROM_PTR p /\
             exists mq, heap s !! prev m = Some mq /\ is_free mq = false) :
  let w := GET_METADATA_FROM_PTR p in
  let k := Z.to_nat (GET_BIN_ENTRY (size m)) in
  exists s' la lb,
    sfree p s = Ok (tt, s') /\
    l = la ++ lb /\
    bucket_dll s' k = Some (la ++ w :: lb) /\
    (forall x, x ∈ la -> block_size s x < size m) /\
    (forall b, head lb = Some b -> size m <= block_size s b) /\
    (exists m', heap s' !! w = Some m' /\
       addr_fields m' = (size m, true, next m, prev m)) /\
    (forall x, x <> w -> addr_fields <$> (heap s' !! x) = addr_fields <$> (heap s !! x)) /\
    (forall x, x ∉ w :: l -> heap s' !! x = heap s !! x) /\
    (forall j, j <> k -> free_block_bin s' !! j = free_block_bin s !! j) /\
    metadata_head s' = metadata_head s /\ mmap_metadata_head s' = mmap_metadata_head s /\
    brk s' = brk s.
Proof.
  cbv zeta. destruct Hp as [Hp Hw].
  set (w := GET_METADATA_FROM_PTR p) in *.
  apply bucket_dll_dseg in Hdll as (Hseg & Hnd).
  destruct (insert_block_to_bin_places w m Hw Hsize s l Hm Hlen Hseg Hnd Hnotin)
    as (s1 & la & lb & Hrun & -> & Hpl).
  pose proof (placed_bucket _ _ _ _ _ _ _ Hnotin Hnd Hpl) as Hb.
  destruct Hpl as (Hseg1 & Hla & Hlb & (m1 & Hm1 & Hsz1 & Hn1 & Hp1 & Hf1) & Hsame & Hframe &
                   Hbins & Hlen1 & Hh1 & Hh2 & Hmem & Hbrk & _).
  set (s2 := with_heap (<[w := with_is_free true m1]> (heap s1)) s1).
  exists s2, la, lb. split.
  { unfold sfree. destruct (Z.eqb_spec p nullptr); [contradiction|]. fold w.
    rewrite (bind_ok _ _ _ _ _ (load_ok _ _ _ Hw Hm)).
    destruct (Z.leb_spec MIN_KB_BLOCK (size m)); [lia|].
    rewrite (bind_ok _ _ _ _ _ Hrun).
    erewrite bind_ok.
    2:{ rewrite (bind_ok _ _ _ _ _ (load_ok _ _ _ Hw Hm1)). rewrite Hn1.
        rewrite (bind_ok _ _ _ _ _ (is_free_at_used s s1 w (next m) Hnext Hsame)).
        reflexivity. }
    erewrite bind_ok.
    2:{ rewrite (bind_ok _ _ _ _ _ (load_ok _ _ _ Hw Hm1)). rewrite Hp1.
        rewrite (bind_ok _ _ _ _ _ (is_free_at_used s s1 w (prev m) Hprev Hsame)).
        reflexivity. }
    unfold set_is_free. now apply update_ok. }
  split; [reflexivity|].
  split.
  { apply dseg_bucket_dll.
    - subst s2. unfold bin_head in *. unfold_state.
      eapply dseg_agree; [exact Hseg1|].
      intros x mx Hx Hmx. destruct (decide (x = w)) as [->|Hxw].
      + rewrite Hm1 in Hmx. inversion Hmx; subst mx.
        eexists. split; [apply lookup_insert_eq|]. auto.
      + exists mx. split; [|auto]. now rewrite lookup_insert_ne by congruence.
    - apply bucket_dll_dseg in Hb. tauto. }
  split; [exact Hla|]. split; [exact Hlb|].
  split.
  { eexists. split; [subst s2; unfold_state; apply lookup_insert_eq|].
    unfold addr_fields. cbn. congruence. }
  split.
  { intros x Hx. subst s2. unfold_state. rewrite lookup_insert_ne by congruence.
    now apply Hsame. }
  split.
  { intros x Hx. subst s2. unfold_state.
    rewrite lookup_insert_ne by (intros ->; apply Hx; now left). now apply Hframe. }
  split; [exact Hbins|]. subst s2. unfold_state. auto.
Qed.



(** ** What a call leaves alone *)

Create HintDb keeps.

(** The rules are those of a relation that is kept by every header write
    that leaves the size alone; [oksz p v] are the writes of a size it is
    kept by, [ok p] the addresses where a header may be made or dropped. *)
Section Frames.
Context (R : state -> state -> Prop) (ok : ptr -> Prop) (oksz : ptr -> Z -> Prop).
Hypothesis R_refl : forall s, R s s.
Hypothesis R_trans : forall s1 s2 s3, R s1 s2 -> R s2 s3 -> R s1 s3.
Hypothesis R_link : forall p g, (forall m, size (g m) = size m) -> keeps R (update p g).
Hypothesis R_size : forall p v, oksz p v -> keeps R (set_size p v).
Hypothesis R_init : forall p a b c d e f, ok p -> keeps R (INIT_METADATA p a b c d e f).
Hypothesis R_unmap : forall p n, ok p -> keeps R (munmap p n).
Hypothesis R_bin : forall b s, length b = length (free_block_bin s) -> R s (with_free_block_bin b s).
Hypothesis R_mmap_head : forall p s, R s (with_mmap_metadata_head p s).

Lemma keeps_ret {A} (a : A) : keeps R (ret a).
Proof. intros s a' s' [= _ <-]. apply R_refl. Qed.

Lemma keeps_raise {A} f : keeps R (@raise A f).
Proof. intros s a s' [=]. Qed.

Lemma keeps_gets {A} (f : state -> A) : keeps R (gets f).
Proof. intros s a s' [= _ <-]. apply R_refl. Qed.

Lemma keeps_bind {A B} (m : M A) (k : A -> M B) :
  keeps R m -> (forall a, keeps R (k a)) -> keeps R (bind m k).
Proof.
  intros Hm Hk s b s' H. apply bind_inv in H as (a & s1 & H1 & H2).
  eapply R_trans; [eapply Hm|eapply Hk]; eauto.
Qed.

Lemma keeps_if {A} (c : bool) (m1 m2 : M A) :
  keeps R m1 -> keeps R m2 -> keeps R (if c then m1 else m2).
Proof. now destruct c. Qed.

Lemma keeps_load p : keeps R (load p).
Proof. intros s a s' H. apply load_inv in H as (-> & _). apply R_refl. Qed.

Lemma keeps_set_next p v : keeps R (set_next p v).
Proof. apply R_link. now intros m. Qed.
Lemma keeps_set_prev p v : keeps R (set_prev p v).
Proof. apply R_link. now intros m. Qed.
Lemma keeps_set_bin_next p v : keeps R (set_bin_next p v).
Proof. apply R_link. now intros m. Qed.
Lemma keeps_set_bin_prev p v : keeps R (set_bin_prev p v).
Proof. apply R_link. now intros m. Qed.
Lemma keeps_set_is_free p v : keeps R (set_is_free p v).
Proof. apply R_link. now intros m. Qed.

Lemma keeps_is_free_at p : keeps R (is_free_at p).
Proof.
  unfold is_free_at. apply keeps_if; [apply keeps_ret|].
  apply keeps_bind; [apply keeps_load|]. intros m. apply keeps_ret.
Qed.

Lemma keeps_get_bin i : keeps R (get_bin i).
Proof. intros s a s' H. apply get_bin_inv in H as ->. apply R_refl. Qed.

Lemma keeps_set_bin i p : keeps R (set_bin i p).
Proof.
  intros s a s'. unfold set_bin.
  destruct ((0 <=? i) && (i <? BIN_SIZE) && (Z.to_nat i <? length (free_block_bin s))%nat);
    [|discriminate].
  intros [= _ <-]. apply R_bin. apply length_insert.
Qed.

Lemma keeps_walk_fuel : keeps R walk_fuel.
Proof. apply keeps_gets. Qed.

#[local] Hint Resolve keeps_ret keeps_raise keeps_gets keeps_load keeps_set_next keeps_set_prev
  keeps_set_bin_next keeps_set_bin_prev keeps_set_is_free R_size R_init R_unmap
  keeps_is_free_at keeps_get_bin keeps_set_bin keeps_walk_fuel : keeps.

Ltac keeps_step :=
  first
    [ solve [auto with keeps]
    | apply keeps_bind; [|intros ?]
    | apply keeps_if
    | match goal with
      | |- keeps _ (match ?x with Some _ => _ | None => _ end) => destruct x
      end
    | progress cbv zeta ].

Ltac keeps_auto := repeat keeps_step.

Lemma keeps_get_last_loop fuel : forall list block, keeps R (get_last_loop fuel list block).
Proof.
  induction fuel as [|fuel IH]; intros list block; cbn [get_last_loop]; keeps_auto.
Qed.
#[local] Hint Resolve keeps_get_last_loop : keeps.

Lemma keeps_get_last_metadata_block list : keeps R (get_last_metadata_block list).
Proof. unfold get_last_metadata_block. keeps_auto. Qed.
#[local] Hint Resolve keeps_get_last_metadata_block : keeps.

Lemma keeps_remove_from_bin p : keeps R (remove_from_bin p).
Proof. unfold remove_from_bin. keeps_auto. Qed.
#[local] Hint Resolve keeps_remove_from_bin : keeps.

Lemma keeps_remove_from_mmap_list p : keeps R (remove_from_list p mmap_list).
Proof.
  unfold remove_from_list, set_head. keeps_auto.
  all: intros s0 x0 s0' [= _ <-]; apply R_mmap_head.
Qed.
#[local] Hint Resolve keeps_remove_from_mmap_list : keeps.

Lemma keeps_insert_to_mmap_list p : keeps R (insert_to_metadata_list p mmap_list).
Proof.
  unfold insert_to_metadata_list, set_head, get_head. keeps_auto.
  intros s0 x0 s0' [= _ <-]; apply R_mmap_head.
Qed.
#[local] Hint Resolve keeps_insert_to_mmap_list : keeps.

(** Appending to the brk chain, for a relation that does not look at its
    head. *)
Lemma keeps_insert_to_brk_list p :
  (forall q s, R s (with_metadata_head q s)) ->
  keeps R (insert_to_metadata_list p brk_list).
Proof.
  intros R_head. unfold insert_to_metadata_list, set_head, get_head. keeps_auto.
  intros s0 x0 s0' [= _ <-]; apply R_head.
Qed.

Lemma keeps_insert_bin_loop fuel : forall nb block last,
  keeps R (insert_bin_loop fuel nb block last).
Proof.
  induction fuel as [|fuel IH]; intros nb block last; cbn [insert_bin_loop]; keeps_auto.
Qed.
#[local] Hint Resolve keeps_insert_bin_loop : keeps.

Lemma keeps_insert_block_to_bin p : keeps R (insert_block_to_bin p).
Proof. unfold insert_block_to_bin. keeps_auto. Qed.
#[local] Hint Resolve keeps_insert_block_to_bin : keeps.

Lemma keeps_cut_block p n b :
  oksz p n -> ok (p + n + sizeof_metadata) -> keeps R (cut_block p n b).
Proof. intros Hp Hn. unfold cut_block. keeps_auto. Qed.
#[local] Hint Resolve keeps_cut_block : keeps.

Lemma keeps_take_block p n :
  oksz p n -> ok (p + n + sizeof_metadata) -> keeps R (take_block p n).
Proof. intros Hp Hn. unfold take_block. keeps_auto. Qed.
#[local] Hint Resolve keeps_take_block : keeps.

(** From here on every address is one that may be written. *)
Hypothesis Hok : forall p, ok p.
Hypothesis Hoksz : forall p v, oksz p v.
#[local] Hint Resolve Hok Hoksz : keeps.

Lemma keeps_scan_chain fuel : forall n p, keeps R (scan_chain fuel n p).
Proof.
  induction fuel as [|fuel IH]; intros n p; cbn [scan_chain]; keeps_auto.
Qed.
#[local] Hint Resolve keeps_scan_chain : keeps.

Lemma keeps_scan_bins k : forall n i, keeps R (scan_bins k n i).
Proof.
  induction k as [|k IH]; intros n i; cbn [scan_bins]; keeps_auto.
Qed.
#[local] Hint Resolve keeps_scan_bins : keeps.

Lemma keeps_get_free_metadata_block n : keeps R (get_free_metadata_block n).
Proof. unfold get_free_metadata_block. apply keeps_scan_bins. Qed.
#[local] Hint Resolve keeps_get_free_metadata_block : keeps.

Lemma keeps_merge_after_cut p : keeps R (merge_after_cut p).
Proof. unfold merge_after_cut. keeps_auto. Qed.
#[local] Hint Resolve keeps_merge_after_cut : keeps.

Lemma keeps_sfree p : keeps R (sfree p).
Proof. unfold sfree. keeps_auto. Qed.
#[local] Hint Resolve keeps_sfree : keeps.

Lemma keeps_count_loop fuel : forall step p r, keeps R (count_loop fuel step p r).
Proof.
  induction fuel as [|fuel IH]; intros step p r; cbn [count_loop]; keeps_auto.
Qed.

(** The calls that may ask the system for memory, given what the system
    calls and the write of the brk head keep. *)
Hypothesis R_sbrk : forall n, keeps R (sbrk n).
Hypothesis R_mmap : forall n, keeps R (mmap n).
Hypothesis R_first : forall p, keeps R (insert_to_metadata_list p brk_list).
#[local] Hint Resolve R_sbrk R_mmap R_first : keeps.

Lemma keeps_smalloc n : keeps R (smalloc n).
Proof. unfold smalloc. keeps_auto. Qed.
#[local] Hint Resolve keeps_smalloc : keeps.

Hypothesis R_memmove : forall d s n, keeps R (memmove d s n).
Hypothesis R_memset : forall d c n, keeps R (memset d c n).
#[local] Hint Resolve R_memmove R_memset : keeps.

Lemma keeps_scalloc k n : keeps R (scalloc k n).
Proof. unfold scalloc. keeps_auto. Qed.

Lemma keeps_can_merge_prev p n : keeps R (can_merge_prev p n).
Proof. unfold can_merge_prev. keeps_auto. Qed.
Lemma keeps_can_merge_next p n : keeps R (can_merge_next p n).
Proof. unfold can_merge_next. keeps_auto. Qed.
Lemma keeps_can_merge_both p n : keeps R (can_merge_both p n).
Proof. unfold can_merge_both. keeps_auto. Qed.
#[local] Hint Resolve keeps_can_merge_prev keeps_can_merge_next keeps_can_merge_both : keeps.

Lemma keeps_srealloc p n : keeps R (srealloc p n).
Proof. unfold srealloc. keeps_auto. Qed.

End Frames.

(** A relation that does not look at the headers is kept by every write to
    one. *)
Section Blind.
Context (R : state -> state -> Prop).
Hypothesis R_refl : forall s, R s s.
Hypothesis R_trans : forall s1 s2 s3, R s1 s2 -> R s2 s3 -> R s1 s3.
Hypothesis R_heap : forall h s, R s (with_heap h s).
Hypothesis R_bin : forall b s, length b = length (free_block_bin s) -> R s (with_free_block_bin b s).
Hypothesis R_mmap_head : forall p s, R s (with_mmap_metadata_head p s).

Lemma blind_update p g : keeps R (update p g).
Proof.
  unfold update. apply keeps_bind; [assumption|now apply keeps_load|].
  intros m s a s' [= _ <-]. apply R_heap.
Qed.

Lemma blind_INIT_METADATA p a b c d e f : keeps R (INIT_METADATA p a b c d e f).
Proof.
  unfold INIT_METADATA. destruct (p =? nullptr); [intros s x s' [=]|].
  intros s x s' [= _ <-]. apply R_heap.
Qed.

Lemma blind_munmap p n : keeps R (munmap p n).
Proof. intros s x s' [= _ <-]. apply R_heap. Qed.

Lemma blind_set_size p v : keeps R (set_size p v).
Proof. apply blind_update. Qed.

#[local] Hint Resolve blind_update blind_set_size blind_INIT_METADATA blind_munmap : keeps.

Ltac blind lem :=
  intros;
  first [ eapply (lem R (fun _ => True) (fun _ _ => True))
        | eapply (lem R (fun _ => True))
        | eapply (lem R (fun _ _ => True))
        | eapply (lem R) ];
  intros; cbv beta; eauto with keeps.

Lemma blind_cut_block p n b : keeps R (cut_block p n b).
Proof. blind keeps_cut_block. Qed.

Lemma blind_merge_after_cut p : keeps R (merge_after_cut p).
Proof. blind keeps_merge_after_cut. Qed.

Lemma blind_sfree p : keeps R (sfree p).
Proof. blind keeps_sfree. Qed.

Hypothesis R_sbrk : forall n, keeps R (sbrk n).
Hypothesis R_mmap : forall n, keeps R (mmap n).
Hypothesis R_first : forall p, keeps R (insert_to_metadata_list p brk_list).
#[local] Hint Resolve R_sbrk R_mmap R_first : keeps.

Lemma blind_smalloc n : keeps R (smalloc n).
Proof. blind keeps_smalloc. Qed.

Lemma blind_scalloc k n : (forall d c n, keeps R (memset d c n)) -> keeps R (scalloc k n).
Proof. blind keeps_scalloc. Qed.

Lemma blind_srealloc p n : (forall d s n, keeps R (memmove d s n)) -> keeps R (srealloc p n).
Proof. blind keeps_srealloc. Qed.

End Blind.

(** ** The system and the head of the brk list *)

Lemma same_system_refl s : same_system s s.
Proof. unfold same_system. auto 10. Qed.

Lemma same_system_trans s1 s2 s3 :
  same_system s1 s2 -> same_system s2 s3 -> same_system s1 s3.
Proof. unfold same_system. intuition congruence. Qed.

Lemma head_stays_refl s : head_stays s s.
Proof. now intros _. Qed.

Lemma head_stays_trans s1 s2 s3 : head_stays s1 s2 -> head_stays s2 s3 -> head_stays s1 s3.
Proof.
  unfold head_stays. intros H1 H2 Hne. specialize (H1 Hne).
  rewrite <- H1. apply H2. congruence.
Qed.

Lemma sbrk_inv n s r s' :
  sbrk n s = Ok (r, s') ->
  (r = SBRK_FAIL /\ s' = s) \/ (r = brk s /\ s' = with_brk (brk s + to_intptr n) s).
Proof.
  unfold sbrk. destruct (brk_limit s <? brk s + to_intptr n); intros [= <- <-]; auto.
Qed.

Lemma mmap_inv n s r s' :
  mmap n s = Ok (r, s') ->
  (r = MAP_FAILED /\ s' = s /\ mmap_answers s = []) \/
  (exists rest, mmap_answers s = r :: rest /\ s' = with_mmap_answers rest s).
Proof.
  unfold mmap. destruct (mmap_answers s) as [|a rest]; intros [= <- <-]; eauto.
Qed.

(** Appending to either list, for a relation that does not look at the
    heads. *)
Lemma keeps_insert_to_metadata_list (R : state -> state -> Prop) :
  (forall s, R s s) -> (forall s1 s2 s3, R s1 s2 -> R s2 s3 -> R s1 s3) ->
  (forall h s, R s (with_heap h s)) ->
  (forall p s, R s (with_metadata_head p s)) ->
  (forall p s, R s (with_mmap_metadata_head p s)) ->
  forall p ls, keeps R (insert_to_metadata_list p ls).
Proof.
  intros Hrefl Htrans Hheap Hh Hm p ls.
  destruct ls;
    [|apply keeps_insert_to_mmap_list; auto; intros; now apply blind_update].
  unfold insert_to_metadata_list, get_head, set_head, set_prev, set_next.
  repeat first
    [ apply blind_update; assumption
    | apply keeps_gets; assumption
    | apply keeps_get_last_metadata_block; assumption
    | apply keeps_bind; [assumption| |intros ?]
    | apply keeps_if; [| ] ].
  intros s0 x0 s0' [= _ <-]. apply Hh.
Qed.

(** ** What [sfree] leaves alone *)

Lemma sfree_same_system p : keeps same_system (sfree p).
Proof.
  apply blind_sfree.
  - apply same_system_refl.
  - apply same_system_trans.
  - intros h s. unfold same_system. unfold_state. auto 10.
  - intros b s Hb. unfold same_system. unfold_state. auto 10.
  - intros q s. unfold same_system. unfold_state. auto 10.
Qed.

(** X10. Whenever [sfree] returns, the break, its limit, the answers the kernel
    has still to give and the variable [metadata_head] are as before:
    [sfree] never moves the break and never maps. *)
Theorem sfree_takes_nothing_from_the_system (s : state) (p : ptr) (s' : state)
    (Hrun : sfree p s = Ok (tt, s')) :
  brk s' = brk s /\ brk_limit s' = brk_limit s /\
  mmap_answers s' = mmap_answers s /\ metadata_head s' = metadata_head s.
Proof.
  destruct (sfree_same_system p s tt s' Hrun) as (H1 & H2 & H3 & H4 & _). auto.
Qed.

Lemma sfree_takes_nothing_witness :
  exists s',
    sfree 4144 Scenario.two_in_use = Ok (tt, s') /\
    brk s' = 4224 /\ brk_limit s' = 1000000 /\ metadata_head s' = 4096.
Proof.
  assert (Hrun : exists s', sfree 4144 Scenario.two_in_use = Ok (tt, s'))
    by (eexists; vm_compute; reflexivity).
  destruct Hrun as [s' Hrun]. exists s'. split; [exact Hrun|].
  destruct (sfree_takes_nothing_from_the_system Scenario.two_in_use 4144 s' Hrun)
    as (H1 & H2 & _ & H4).
  split; [exact H1|]. split; [exact H2|exact H4].
Defined.

(** ** The head of the brk chain *)

Lemma head_stays_first p : keeps head_stays (insert_to_metadata_list p brk_list).
Proof.
  intros s a s' H Hne.
  unfold insert_to_metadata_list, get_head in H. rewrite bind_gets in H.
  destruct (Z.eqb_spec (metadata_head s) nullptr); [contradiction|].
  assert (Hk : keeps (fun s0 s1 => metadata_head s1 = metadata_head s0)
                (let* after := get_last_metadata_block (metadata_head s) in
                 set_next after p;; set_prev p after;; set_next p nullptr)).
  { unfold set_next, set_prev.
    repeat first
      [ apply blind_update; [congruence|congruence|reflexivity]
      | apply keeps_get_last_metadata_block; congruence
      | apply keeps_bind; [congruence| |intros ?] ]. }
  exact (Hk s a s' H).
Qed.

Lemma exec_head_stays c : keeps head_stays (exec c).
Proof.
  assert (Hheap : forall h s, head_stays s (with_heap h s)) by (intros h s Hne; reflexivity).
  assert (Hbin : forall b s, length b = length (free_block_bin s) ->
                             head_stays s (with_free_block_bin b s))
    by (intros b s _ Hne; reflexivity).
  assert (Hm : forall q s, head_stays s (with_mmap_metadata_head q s))
    by (intros q s Hne; reflexivity).
  assert (Hsbrk : forall n, keeps head_stays (sbrk n)).
  { intros k s r s' H. apply sbrk_inv in H as [(_ & ->)|(_ & ->)]; intros Hne; reflexivity. }
  assert (Hmmap : forall n, keeps head_stays (mmap n)).
  { intros k s r s' H. apply mmap_inv in H as [(_ & -> & _)|(rest & _ & ->)];
      intros Hne; reflexivity. }
  assert (Hmove : forall d s n, keeps head_stays (memmove d s n)).
  { intros d sr k s r s'. unfold memmove.
    destruct ((d =? nullptr) || (sr =? nullptr)); [discriminate|].
    intros [= _ <-] Hne. reflexivity. }
  assert (Hset : forall d v n, keeps head_stays (memset d v n)).
  { intros d v k s r s'. unfold memset. destruct (d =? nullptr); [discriminate|].
    intros [= _ <-] Hne. reflexivity. }
  destruct c; cbn [exec].
  - apply blind_smalloc; first [assumption|apply head_stays_refl|apply head_stays_trans|apply head_stays_first].
  - apply blind_scalloc; first [assumption|apply head_stays_refl|apply head_stays_trans|apply head_stays_first].
  - apply blind_srealloc; first [assumption|apply head_stays_refl|apply head_stays_trans|apply head_stays_first].
  - apply keeps_bind; [apply head_stays_trans| |].
    + apply blind_sfree; first [assumption|apply head_stays_refl|apply head_stays_trans].
    + intros _. apply keeps_ret. apply head_stays_refl.
  - intros s r s' [= _ <-] Hne. reflexivity.
Qed.

(** X13. Once the variable [metadata_head] is not null, no call of [smalloc],
    [scalloc], [srealloc] or [sfree] that returns changes its value.  (Of
    the block it points at nothing is said.) *)
Theorem head_of_the_brk_chain_never_moves (c : call) (s : state) (r : ptr) (s' : state)
    (Hrun : exec c s = Ok (r, s'))
    (Hhead : metadata_head s <> nullptr) :
  metadata_head s' = metadata_head s.
Proof. exact (exec_head_stays c s r s' Hrun Hhead). Qed.

Lemma head_never_moves_witness :
  exists s',
    exec (Sfree 4144) Scenario.two_in_use = Ok (nullptr, s') /\ metadata_head s' = 4096.
Proof.
  assert (Hrun : exists s', exec (Sfree 4144) Scenario.two_in_use = Ok (nullptr, s'))
    by (eexists; vm_compute; reflexivity).
  destruct Hrun as [s' Hrun]. exists s'. split; [exact Hrun|].
  assert (Hhead : metadata_head Scenario.two_in_use <> nullptr) by (vm_compute; discriminate).
  exact (head_of_the_brk_chain_never_moves (Sfree 4144) Scenario.two_in_use nullptr s'
           Hrun Hhead).
Defined.

(** ** A failed [smalloc] *)

Lemma same_allocator_refl s : same_allocator s s.
Proof. unfold same_allocator. auto 10. Qed.

Lemma scan_bins_null k : forall size_ i s s',
  scan_bins k size_ i s = Ok (nullptr, s') -> s' = s.
Proof.
  induction k as [|k IH]; intros size_ i s s' H; simpl in H.
  - now inversion H.
  - apply bind_inv in H as (head & s1 & Hg & H).
    apply get_bin_inv in Hg as ->.
    destruct (head =? nullptr); [now apply IH in H|].
    unfold walk_fuel in H. rewrite bind_gets in H.
    apply bind_inv in H as (r & s2 & Hscan & H).
    apply scan_chain_result in Hscan.
    destruct r as [b|].
    + inversion H; subst. destruct Hscan as [Hb _]. contradiction.
    + subst s2. now apply IH in H.
Qed.

Lemma take_block_loads w size_ s s' :
  take_block w size_ s = Ok (tt, s') -> w <> nullptr /\ is_Some (heap s !! w).
Proof.
  unfold take_block. intros H. apply bind_inv in H as (b & s1 & Hl & _).
  apply load_inv in Hl as (_ & Hw & Hb). eauto.
Qed.

Lemma is_free_at_inv p b s s' :
  is_free_at p s = Ok (b, s') ->
  s' = s /\ (b = true -> p <> nullptr /\ is_Some (heap s !! p)).
Proof.
  unfold is_free_at. destruct (Z.eqb_spec p nullptr).
  - intros [= <- <-]. split; [reflexivity|discriminate].
  - intros H. apply bind_inv in H as (m & s1 & Hl & H).
    apply load_inv in Hl as (-> & _ & Hm). inversion H; subst. eauto.
Qed.

Lemma get_last_metadata_block_pure list s b s' :
  get_last_metadata_block list s = Ok (b, s') -> s' = s.
Proof.
  apply (keeps_get_last_metadata_block (fun s s' => s' = s)); congruence.
Qed.

Lemma payload_not_null w : 0 <= w -> GET_PTR_FROM_METADATA w <> nullptr.
Proof. unfold GET_PTR_FROM_METADATA, sizeof_metadata, nullptr. lia. Qed.

Lemma ret_inv {A} (a b : A) s s' : ret a s = Ok (b, s') -> a = b /\ s' = s.
Proof. now intros [= -> ->]. Qed.

Lemma smalloc_null_spec (s : state) (n : Z) (s' : state) :
  smalloc n s = Ok (nullptr, s') ->
  (forall p, is_Some (heap s !! p) -> 0 < p) ->
  0 <= brk s ->
  (forall a, a ∈ mmap_answers s -> a = MAP_FAILED \/ 0 <= a) ->
  same_allocator s s'.
Proof.
  intros H Hpos Hbrk Hans. unfold smalloc in H.
  destruct ((MAX_MALLOC_4_SIZE <? n) || (n =? 0)).
  { apply ret_inv in H as [_ ->]. apply same_allocator_refl. }
  set (sz := GET_SIZE_WITH_ALIGNMENT n) in *.
  destruct (MIN_KB_BLOCK <=? sz).
  - (* the mapping path *)
    apply bind_inv in H as (r & s1 & Hm & H).
    apply mmap_inv in Hm as [(-> & -> & _)|(rest & Hrest & ->)].
    + change (MAP_FAILED =? MAP_FAILED) with true in H. cbv iota in H.
      apply ret_inv in H as [_ ->]. apply same_allocator_refl.
    + destruct (Z.eqb_spec r MAP_FAILED).
      * apply ret_inv in H as [_ ->]. unfold same_allocator. unfold_state. auto 10.
      * apply bind_inv in H as (x1 & s2 & _ & H).
        apply bind_inv in H as (x2 & s3 & _ & H).
        apply ret_inv in H as [H _]. exfalso.
        destruct (Hans r) as [E|E]; [rewrite Hrest; now left|contradiction|].
        now apply (payload_not_null r).
  - (* the brk paths *)
    apply bind_inv in H as (freed & s1 & Hsearch & H).
    destruct (Z.eqb_spec freed nullptr) as [->|Hfreed]; cbn [negb] in H.
    2:{ apply ret_inv in H as [H _]. exfalso.
        apply (get_free_metadata_block_result _ _ _ _ Hsearch) in Hfreed as Htake.
        apply take_block_loads in Htake as [_ Hsome].
        apply (payload_not_null freed); [|assumption]. apply Hpos in Hsome. lia. }
    unfold get_free_metadata_block in Hsearch. apply scan_bins_null in Hsearch. subst s1.
    rewrite bind_gets in H.
    apply bind_inv in H as (last & s1 & Hlast & H).
    apply get_last_metadata_block_pure in Hlast. subst s1.
    apply bind_inv in H as (last_free & s1 & Hfree & H).
    apply is_free_at_inv in Hfree as (-> & Hlf).
    destruct last_free.
    + (* extending the last block *)
      destruct (Hlf eq_refl) as [Hl Hsome].
      apply bind_inv in H as (l & s1 & Hload & H).
      apply load_inv in Hload as (-> & _ & _).
      apply bind_inv in H as (r & s1 & Hs & H).
      apply sbrk_inv in Hs as [(-> & ->)|(-> & ->)].
      * change (SBRK_FAIL =? SBRK_FAIL) with true in H. cbv iota in H.
        apply ret_inv in H as [_ ->]. apply same_allocator_refl.
      * destruct (Z.eqb_spec (brk s) SBRK_FAIL) as [E|E];
          [unfold SBRK_FAIL in E; lia|].
        apply bind_inv in H as (x1 & s2 & _ & H).
        apply bind_inv in H as (x2 & s3 & _ & H).
        apply bind_inv in H as (x3 & s4 & _ & H).
        apply ret_inv in H as [H _]. exfalso.
        apply (payload_not_null last); [|assumption]. apply Hpos in Hsome. lia.
    + (* a fresh block *)
      apply bind_inv in H as (r & s1 & Hs & H).
      apply sbrk_inv in Hs as [(-> & ->)|(-> & ->)].
      * change (SBRK_FAIL =? SBRK_FAIL) with true in H. cbv iota in H.
        apply ret_inv in H as [_ ->]. apply same_allocator_refl.
      * destruct (Z.eqb_spec (brk s) SBRK_FAIL) as [E|E];
          [unfold SBRK_FAIL in E; lia|].
        apply bind_inv in H as (x1 & s2 & _ & H).
        apply bind_inv in H as (x2 & s3 & _ & H).
        apply ret_inv in H as [H _]. exfalso.
        now apply (payload_not_null (brk s)).
Qed.

(** X12. When [smalloc] returns null (headers at positive addresses, a break that
    is not negative, answers of the kernel that are [MAP_FAILED] or not
    negative), it has changed nothing of the allocator: headers, list heads,
    bins, payload bytes, break and limit are as before. *)
Theorem smalloc_failure_changes_nothing (s : state) (n : Z) (s' : state)
    (Hrun : smalloc n s = Ok (nullptr, s'))
    (Hpos : forall p, is_Some (heap s !! p) -> 0 < p)
    (Hbrk : 0 <= brk s)
    (Hans : forall a, a ∈ mmap_answers s -> a = MAP_FAILED \/ 0 <= a) :
  heap s' = heap s /\ metadata_head s' = metadata_head s /\
  mmap_metadata_head s' = mmap_metadata_head s /\
  free_block_bin s' = free_block_bin s /\ mem s' = mem s /\
  brk s' = brk s /\ brk_limit s' = brk_limit s.
Proof. exact (smalloc_null_spec s n s' Hrun Hpos Hbrk Hans). Qed.

Lemma smalloc_failure_witness :
  exists s', smalloc 100 break_exhausted = Ok (nullptr, s') /\
             heap s' = heap break_exhausted /\ brk s' = brk break_exhausted.
Proof.
  assert (Hrun : exists s', smalloc 100 break_exhausted = Ok (nullptr, s'))
    by (eexists; vm_compute; reflexivity).
  destruct Hrun as [s' Hrun]. exists s'. split; [exact Hrun|].
  assert (Hpos : forall p, is_Some (heap break_exhausted !! p) -> 0 < p).
  { intros p [m Hm]. apply elem_of_map_to_list in Hm.
    assert (Hl : map_to_list (heap break_exhausted) =
                 [(4160, mkMeta 16 false 0 4096 0 0); (4096, mkMeta 16 false 4160 0 0 0)])
      by (vm_compute; reflexivity).
    rewrite Hl in Hm.
    apply elem_of_cons in Hm as [[= -> _]|Hm]; [lia|].
    apply elem_of_cons in Hm as [[= -> _]|Hm]; [lia|inversion Hm]. }
  assert (Hbrk : 0 <= brk break_exhausted) by (vm_compute; discriminate).
  assert (Hans : forall a, a ∈ mmap_answers break_exhausted -> a = MAP_FAILED \/ 0 <= a).
  { intros a Ha. change (mmap_answers break_exhausted) with (@nil Z) in Ha. inversion Ha. }
  destruct (smalloc_failure_changes_nothing break_exhausted 100 s' Hrun Hpos Hbrk Hans)
    as (H1 & _ & _ & _ & _ & H6 & _).
  split; [exact H1|exact H6].
Defined.

(** ** Alignment *)

Lemma aligned_divide z : aligned z <-> (8 | z).
Proof. unfold aligned, ADDRESS_SIZE. apply Z.mod_divide. lia. Qed.

Lemma aligned_0 : aligned 0.
Proof. reflexivity. Qed.

Lemma aligned_nullptr : aligned nullptr.
Proof. reflexivity. Qed.

Lemma aligned_header : aligned sizeof_metadata.
Proof. reflexivity. Qed.

Lemma aligned_add a b : aligned a -> aligned b -> aligned (a + b).
Proof. rewrite !aligned_divide. apply Z.divide_add_r. Qed.

Lemma aligned_mul a b : aligned b -> aligned (a * b).
Proof. rewrite !aligned_divide. apply Z.divide_mul_r. Qed.

Lemma aligned_sub a b : aligned a -> aligned b -> aligned (a - b).
Proof. rewrite !aligned_divide. apply Z.divide_sub_r. Qed.

Lemma aligned_mod_pow a k : (3 <= k) -> aligned a -> aligned (a mod 2 ^ k).
Proof.
  intros Hk. rewrite !aligned_divide. intros Ha.
  rewrite Z.mod_eq by (apply Z.pow_nonzero; lia).
  apply Z.divide_sub_r; [assumption|].
  apply Z.divide_mul_l. replace k with (3 + (k - 3)) by lia.
  rewrite Z.pow_add_r by lia. apply Z.divide_mul_l. reflexivity.
Qed.

Lemma aligned_wrap64 a : aligned a -> aligned (wrap64 a).
Proof. apply aligned_mod_pow. lia. Qed.

Lemma aligned_to_int a : aligned a -> aligned (to_int a).
Proof.
  intros Ha. unfold to_int. pose proof (aligned_mod_pow a 32 ltac:(lia) Ha) as H.
  cbv zeta. destruct (a mod 2 ^ 32 <? 2 ^ 31); [assumption|].
  apply aligned_sub; [assumption|reflexivity].
Qed.

Lemma aligned_to_intptr a : aligned a -> aligned (to_intptr a).
Proof.
  intros Ha. unfold to_intptr. pose proof (aligned_wrap64 a Ha) as H.
  cbv zeta. destruct (wrap64 a <? 2 ^ 63); [assumption|].
  apply aligned_sub; [assumption|reflexivity].
Qed.

(** The rounding macro gives a multiple of 8 for every argument. *)
Lemma aligned_GET_SIZE n : aligned (GET_SIZE_WITH_ALIGNMENT n).
Proof.
  unfold GET_SIZE_WITH_ALIGNMENT. apply aligned_wrap64.
  unfold ADDRESS_SIZE.
  pose proof (Z.mod_pos_bound n 8 ltac:(lia)) as Hm.
  rewrite (wrap64_small (8 - n mod 8)) by lia.
  unfold aligned, ADDRESS_SIZE.
  rewrite Z.add_mod_idemp_r by lia.
  replace (n + (8 - n mod 8)) with (8 + (n - n mod 8)) by lia.
  pose proof (Z.div_mod n 8 ltac:(lia)) as Hd.
  replace (n - n mod 8) with (n / 8 * 8) by lia.
  rewrite Z.mod_add by lia. reflexivity.
Qed.

Lemma aligned_payload w : aligned w -> aligned (GET_PTR_FROM_METADATA w).
Proof. intros H. apply aligned_add; [assumption|apply aligned_header]. Qed.

Lemma aligned_payload_back p : aligned (GET_METADATA_FROM_PTR p) -> aligned p.
Proof.
  intros H. replace p with (GET_METADATA_FROM_PTR p + sizeof_metadata)
    by (unfold GET_METADATA_FROM_PTR; lia).
  apply aligned_add; [assumption|apply aligned_header].
Qed.

Create HintDb aligned.

#[local] Hint Resolve aligned_0 aligned_nullptr aligned_header aligned_mul aligned_add aligned_sub aligned_wrap64
  aligned_to_int aligned_to_intptr aligned_GET_SIZE aligned_payload : aligned.

(** *** The rules *)

Lemma pres_ret {A} (a : A) (Q : A -> Prop) : Q a -> preserves (ret a) Q.
Proof. intros H s a' s' Hs [= <- <-]. auto. Qed.

Lemma pres_raise {A} f (Q : A -> Prop) : preserves (raise f) Q.
Proof. intros s a s' _ [=]. Qed.

Lemma pres_bind {A B} (m : M A) (k : A -> M B) (P : A -> Prop) (Q : B -> Prop) :
  preserves m P -> (forall a, P a -> preserves (k a) Q) -> preserves (bind m k) Q.
Proof.
  intros Hm Hk s b s' Hs H. apply bind_inv in H as (a & s1 & H1 & H2).
  destruct (Hm s a s1 Hs H1) as [Hs1 Ha]. exact (Hk a Ha s1 b s' Hs1 H2).
Qed.

Lemma pres_weaken {A} (m : M A) (P Q : A -> Prop) :
  preserves m P -> (forall a, P a -> Q a) -> preserves m Q.
Proof. intros Hm HPQ s a s' Hs H. destruct (Hm s a s' Hs H). auto. Qed.

Lemma pres_pure {A} (m : M A) :
  (forall s a s', m s = Ok (a, s') -> s' = s) -> preserves m (fun _ => True).
Proof. intros Hp s a s' Hs H. apply Hp in H. subst. auto. Qed.

Lemma pres_gets {A} (f : state -> A) : preserves (gets f) (fun _ => True).
Proof. apply pres_pure. now intros s a s' [= _ <-]. Qed.

Lemma pres_load p : preserves (load p) (fun m => aligned p /\ aligned (size m)).
Proof.
  intros s m s' Hs H. apply load_inv in H as (-> & _ & Hm).
  split; [assumption|]. now apply (proj1 Hs p m).
Qed.

Lemma aligned_state_heap s h :
  aligned_state s ->
  (forall p m, h !! p = Some m -> aligned p /\ aligned (size m)) ->
  aligned_state (with_heap h s).
Proof. intros (_ & Hb & Ha) Hh. split; [exact Hh|]. split; assumption. Qed.

Lemma pres_update p g :
  (forall m, aligned (size m) -> aligned (size (g m))) ->
  preserves (update p g) (fun _ => True).
Proof.
  intros Hg s a s' Hs H. unfold update in H.
  apply bind_inv in H as (m & s1 & Hl & H). apply load_inv in Hl as (-> & _ & Hm).
  inversion H; subst. split; [|exact I].
  apply aligned_state_heap; [assumption|]. intros q mq Hq.
  destruct (decide (q = p)) as [->|Hqp].
  - rewrite lookup_insert_eq in Hq. inversion Hq; subst.
    destruct (proj1 Hs p m Hm). auto.
  - rewrite lookup_insert_ne in Hq by congruence. now apply (proj1 Hs).
Qed.

Lemma pres_set_size p v : aligned v -> preserves (set_size p v) (fun _ => True).
Proof. intros Hv. apply pres_update. now intros m _. Qed.

Lemma pres_set_is_free p v : preserves (set_is_free p v) (fun _ => True).
Proof. apply pres_update. now intros m Hm. Qed.
Lemma pres_set_next p v : preserves (set_next p v) (fun _ => True).
Proof. apply pres_update. now intros m Hm. Qed.
Lemma pres_set_prev p v : preserves (set_prev p v) (fun _ => True).
Proof. apply pres_update. now intros m Hm. Qed.
Lemma pres_set_bin_next p v : preserves (set_bin_next p v) (fun _ => True).
Proof. apply pres_update. now intros m Hm. Qed.
Lemma pres_set_bin_prev p v : preserves (set_bin_prev p v) (fun _ => True).
Proof. apply pres_update. now intros m Hm. Qed.

Lemma pres_INIT_METADATA p sz f n pv bn bp :
  aligned p -> aligned sz ->
  preserves (INIT_METADATA p sz f n pv bn bp) (fun _ => True).
Proof.
  intros Hp Hsz s a s' Hs H. unfold INIT_METADATA in H.
  destruct (p =? nullptr); [discriminate|]. inversion H; subst. split; [|exact I].
  apply aligned_state_heap; [assumption|]. intros q mq Hq.
  destruct (decide (q = p)) as [->|Hqp].
  - rewrite lookup_insert_eq in Hq. inversion Hq; subst. auto.
  - rewrite lookup_insert_ne in Hq by congruence. now apply (proj1 Hs).
Qed.

Lemma pres_munmap p n : preserves (munmap p n) (fun _ => True).
Proof.
  intros s a s' Hs [= _ <-]. split; [|exact I].
  apply aligned_state_heap; [assumption|]. intros q mq Hq.
  apply lookup_delete_Some in Hq as [_ Hq]. now apply (proj1 Hs).
Qed.

Lemma pres_is_free_at p : preserves (is_free_at p) (fun b => b = true -> aligned p).
Proof.
  unfold is_free_at. destruct (p =? nullptr).
  - apply pres_ret. discriminate.
  - eapply pres_bind; [apply pres_load|]. intros m [Hp _]. apply pres_ret. auto.
Qed.

Lemma pres_get_bin i : preserves (get_bin i) (fun _ => True).
Proof. apply pres_pure. intros s a s'. apply get_bin_inv. Qed.

Lemma pres_set_bin i p : preserves (set_bin i p) (fun _ => True).
Proof.
  intros s a s' Hs. unfold set_bin.
  destruct ((0 <=? i) && (i <? BIN_SIZE) && (Z.to_nat i <? length (free_block_bin s))%nat);
    [|discriminate].
  intros [= _ <-]. split; [exact Hs|exact I].
Qed.

Lemma pres_get_head ls : preserves (get_head ls) (fun _ => True).
Proof. destruct ls; apply pres_gets. Qed.

Lemma pres_set_head ls p : preserves (set_head ls p) (fun _ => True).
Proof. destruct ls; intros s a s' Hs [= _ <-]; (split; [exact Hs|exact I]). Qed.

Lemma pres_walk_fuel : preserves walk_fuel (fun _ => True).
Proof. apply pres_gets. Qed.

Lemma pres_sbrk n :
  aligned n -> preserves (sbrk n) (fun r => r = SBRK_FAIL \/ aligned r).
Proof.
  intros Hn s r s' Hs H. apply sbrk_inv in H as [(-> & ->)|(-> & ->)].
  - auto.
  - destruct Hs as (Hh & Hb & Ha). split; [|auto].
    split; [exact Hh|]. split; [|exact Ha].
    unfold_state. apply aligned_add; [assumption|now apply aligned_to_intptr].
Qed.

Lemma pres_mmap n : preserves (mmap n) (fun r => r = MAP_FAILED \/ aligned r).
Proof.
  intros s r s' Hs H. apply mmap_inv in H as [(-> & -> & _)|(rest & Hrest & ->)].
  - auto.
  - destruct Hs as (Hh & Hb & Ha). split.
    + split; [exact Hh|]. split; [exact Hb|]. unfold_state.
      intros a Hin. apply Ha. rewrite Hrest. now right.
    + apply Ha. rewrite Hrest. now left.
Qed.

Lemma pres_memset p c n : preserves (memset p c n) (fun _ => True).
Proof.
  intros s a s' Hs. unfold memset. destruct (p =? nullptr); [discriminate|].
  intros [= _ <-]. split; [exact Hs|exact I].
Qed.

Lemma pres_memmove d sr n : preserves (memmove d sr n) (fun _ => True).
Proof.
  intros s a s' Hs. unfold memmove.
  destruct ((d =? nullptr) || (sr =? nullptr)); [discriminate|].
  intros [= _ <-]. split; [exact Hs|exact I].
Qed.

Create HintDb pres.

#[local] Hint Resolve pres_raise pres_gets pres_load pres_set_is_free pres_set_next
  pres_set_prev pres_set_bin_next pres_set_bin_prev pres_munmap pres_is_free_at pres_get_bin
  pres_set_bin pres_get_head pres_set_head pres_walk_fuel pres_mmap pres_memset
  pres_memmove : pres.

(** One step through a computation: a known rule for what runs first, then
    the rest under what that rule gives. *)
Ltac pres_facts :=
  repeat match goal with
         | H : _ /\ _ |- _ => destruct H
         | H : True |- _ => clear H
         | H : true = true -> _ |- _ => specialize (H eq_refl)
         | H : ?r = ?x \/ aligned ?r, E : (?r =? ?x) = false |- _ =>
             let N := fresh in
             destruct H as [N|H]; [apply Z.eqb_neq in E; contradiction|]
         | H : forall b, Some ?x = Some b -> _ |- _ => specialize (H x eq_refl)
         end.

Ltac pres_side :=
  solve [ exact I
        | auto 8 with aligned
        | pres_facts; auto 8 with aligned
        | intros ? [=]
        | let E := fresh in intros ? E; injection E as <-; pres_facts; auto 8 with aligned ].

Ltac pres_step :=
  lazymatch goal with
  | |- preserves (ret _) _ => apply pres_ret; try pres_side
  | |- preserves (bind _ _) _ =>
      first
        [ eapply pres_bind;
          [ first [ solve [eauto with pres aligned]
                  | apply pres_set_size; pres_side
                  | apply pres_INIT_METADATA; pres_side
                  | apply pres_sbrk; pres_side ]
          | let a := fresh "a" in let Ha := fresh "Ha" in intros a Ha; cbv beta in Ha ]
        | eapply (pres_bind _ _ (fun _ => True));
          [ | let a := fresh "a" in intros a _ ] ]
  | |- preserves (if ?c then _ else _) _ =>
      let E := fresh "E" in destruct c eqn:E
  | |- preserves (match ?x with Some _ => _ | None => _ end) _ => destruct x
  | |- preserves (let _ := _ in _) _ => cbv zeta
  | |- _ => first [ solve [eauto with pres aligned]
                  | apply pres_set_size; pres_side
                  | apply pres_INIT_METADATA; pres_side
                  | eapply pres_weaken; [solve [eauto with pres aligned]|intros; exact I] ]
  end.

Ltac pres_auto := repeat pres_step.

Lemma pres_get_last_loop fuel : forall list block,
  preserves (get_last_loop fuel list block) (fun _ => True).
Proof.
  induction fuel as [|fuel IH]; intros list block; cbn [get_last_loop]; pres_auto.
Qed.
#[local] Hint Resolve pres_get_last_loop : pres.

Lemma pres_get_last_metadata_block list :
  preserves (get_last_metadata_block list) (fun _ => True).
Proof. unfold get_last_metadata_block. pres_auto. Qed.
#[local] Hint Resolve pres_get_last_metadata_block : pres.

Lemma pres_remove_from_list p ls : preserves (remove_from_list p ls) (fun _ => True).
Proof. unfold remove_from_list. pres_auto. Qed.
#[local] Hint Resolve pres_remove_from_list : pres.

Lemma pres_remove_from_bin p : preserves (remove_from_bin p) (fun _ => True).
Proof. unfold remove_from_bin. pres_auto. Qed.
#[local] Hint Resolve pres_remove_from_bin : pres.

Lemma pres_insert_to_metadata_list p ls :
  preserves (insert_to_metadata_list p ls) (fun _ => True).
Proof. unfold insert_to_metadata_list. pres_auto. Qed.
#[local] Hint Resolve pres_insert_to_metadata_list : pres.

Lemma pres_insert_bin_loop fuel : forall nb block last,
  preserves (insert_bin_loop fuel nb block last) (fun _ => True).
Proof.
  induction fuel as [|fuel IH]; intros nb block last; cbn [insert_bin_loop]; pres_auto.
Qed.
#[local] Hint Resolve pres_insert_bin_loop : pres.

Lemma pres_insert_block_to_bin p : preserves (insert_block_to_bin p) (fun _ => True).
Proof. unfold insert_block_to_bin. pres_auto. Qed.
#[local] Hint Resolve pres_insert_block_to_bin : pres.

Lemma pres_cut_block p n b : aligned n -> preserves (cut_block p n b) (fun _ => True).
Proof. intros Hn. unfold cut_block. pres_auto. Qed.
#[local] Hint Resolve pres_cut_block : pres.

Lemma pres_take_block p n : aligned n -> preserves (take_block p n) (fun _ => True).
Proof. intros Hn. unfold take_block. pres_auto. Qed.
#[local] Hint Resolve pres_take_block : pres.

Lemma pres_scan_chain fuel : forall n p,
  aligned n ->
  preserves (scan_chain fuel n p) (fun r => forall b, r = Some b -> aligned b).
Proof.
  induction fuel as [|fuel IH]; intros n p Hn; cbn [scan_chain]; pres_auto.
Qed.
#[local] Hint Resolve pres_scan_chain : pres.

Lemma pres_scan_bins k : forall n i,
  aligned n -> preserves (scan_bins k n i) aligned.
Proof.
  induction k as [|k IH]; intros n i Hn; cbn [scan_bins]; pres_auto.
Qed.
#[local] Hint Resolve pres_scan_bins : pres.

Lemma pres_get_free_metadata_block n :
  aligned n -> preserves (get_free_metadata_block n) aligned.
Proof. intros Hn. unfold get_free_metadata_block. pres_auto. Qed.
#[local] Hint Resolve pres_get_free_metadata_block : pres.

Lemma pres_smalloc n : preserves (smalloc n) aligned.
Proof. unfold smalloc. pres_auto. Qed.
#[local] Hint Resolve pres_smalloc : pres.

Lemma pres_scalloc k n : preserves (scalloc k n) aligned.
Proof. unfold scalloc. pres_auto. Qed.
#[local] Hint Resolve pres_scalloc : pres.

Lemma pres_sfree p : preserves (sfree p) (fun _ => True).
Proof. unfold sfree. pres_auto. Qed.
#[local] Hint Resolve pres_sfree : pres.

Lemma pres_merge_after_cut p : preserves (merge_after_cut p) (fun _ => True).
Proof. unfold merge_after_cut. pres_auto. Qed.
#[local] Hint Resolve pres_merge_after_cut : pres.

Lemma pres_can_merge_prev p n : preserves (can_merge_prev p n) (fun _ => True).
Proof. unfold can_merge_prev. pres_auto. Qed.
Lemma pres_can_merge_next p n : preserves (can_merge_next p n) (fun _ => True).
Proof. unfold can_merge_next. pres_auto. Qed.
Lemma pres_can_merge_both p n : preserves (can_merge_both p n) (fun _ => True).
Proof. unfold can_merge_both. pres_auto. Qed.
#[local] Hint Resolve pres_can_merge_prev pres_can_merge_next pres_can_merge_both : pres.

Lemma pres_srealloc p n : preserves (srealloc p n) aligned.
Proof.
  pose proof (aligned_payload_back p) as Hback.
  unfold srealloc. pres_auto.
Qed.

(** ** Alignment of the pointers handed out *)

(** X20. In a state in which the address and the size of every header, the break
    and every address the kernel will map at are multiples of 8, every
    pointer that [smalloc] or [scalloc] returns is a multiple of 8 (null
    included), and [smalloc] and [sfree] leave such a state behind. *)
Theorem smalloc_and_scalloc_return_aligned_pointers (s : state)
    (Hs : aligned_state s) :
  (forall n p s', smalloc n s = Ok (p, s') -> aligned p /\ aligned_state s') /\
  (forall num size_ p s', scalloc num size_ s = Ok (p, s') -> aligned p) /\
  (forall p s', sfree p s = Ok (tt, s') -> aligned_state s').
Proof.
  split; [|split].
  - intros n p s' Hrun. destruct (pres_smalloc n s p s' Hs Hrun). auto.
  - intros num size_ p s' Hrun. now destruct (pres_scalloc num size_ s p s' Hs Hrun).
  - intros p s' Hrun. now destruct (pres_sfree p s tt s' Hs Hrun).
Qed.

Lemma smalloc_and_scalloc_aligned_witness :
  exists s',
    smalloc 24 Scenario.one_big_free = Ok (4144, s') /\ aligned 4144 /\ aligned_state s'.
Proof.
  assert (Hs : aligned_state Scenario.one_big_free).
  { split; [|split].
    - intros q m Hq. apply elem_of_map_to_list in Hq.
      assert (Hl : map_to_list (heap Scenario.one_big_free)
                   = [(5144, mkMeta 8 false 0 4096 0 0); (4096, mkMeta 1000 true 5144 0 0 0)])
        by (vm_compute; reflexivity).
      rewrite Hl in Hq.
      apply elem_of_cons in Hq as [[= -> ->]|Hq]; [split; reflexivity|].
      apply list_elem_of_singleton in Hq as [= -> ->]. split; reflexivity.
    - reflexivity.
    - intros a Ha. vm_compute in Ha. apply elem_of_nil in Ha. contradiction. }
  assert (Hcall : exists s', smalloc 24 Scenario.one_big_free = Ok (4144, s'))
    by (eexists; vm_compute; reflexivity).
  destruct Hcall as [s' Hcall]. exists s'. split; [exact Hcall|].
  exact (proj1 (smalloc_and_scalloc_return_aligned_pointers Scenario.one_big_free Hs)
           24 4144 s' Hcall).
Defined.

(** ** [smalloc] at the end of the heap *)

(** A write of a bin link: the run, and the heaps before and after. *)
Lemma update_bin_only p g m s :
  p <> nullptr -> heap s !! p = Some m ->
  (forall m, addr_fields (g m) = addr_fields m) ->
  update p g s = Ok (tt, with_heap (<[p := g m]> (heap s)) s) /\
  bin_only (heap s) (<[p := g m]> (heap s)).
Proof.
  intros Hp Hm Hg. split; [now apply update_ok|].
  eapply bin_only_update; eauto.
Qed.

(** The unlinking that the tail extension of [smalloc] does by hand. *)
Lemma tail_unlink (s : state) (b : ptr) (lb : MallocMetadata) :
  b <> nullptr -> heap s !! b = Some lb ->
  0 <= size lb < MIN_KB_BLOCK ->
  length (free_block_bin s) = Z.to_nat BIN_SIZE ->
  bin_prev lb = nullptr \/ is_Some (heap s !! bin_prev lb) ->
  bin_next lb = nullptr \/ is_Some (heap s !! bin_next lb) ->
  exists h' bins',
    (if bin_prev lb =? nullptr then
       set_bin (GET_BIN_ENTRY (size lb)) (bin_next lb)
     else
       set_bin_next (bin_prev lb) (bin_next lb) ;;
       let* l' := load b in
       when negb (bin_next l' =? nullptr) then
         set_bin_prev (bin_next l') (bin_prev l')) s
    = Ok (tt, with_free_block_bin bins' (with_heap h' s)) /\
    bin_only (heap s) h'.
Proof.
  intros Hb Hlb Hsize Hlen Hbp Hbn.
  destruct (Z.eqb_spec (bin_prev lb) nullptr) as [E|E].
  - exists (heap s), (<[Z.to_nat (GET_BIN_ENTRY (size lb)) := bin_next lb]> (free_block_bin s)).
    split; [|apply bin_only_refl].
    pose proof (bin_entry_range _ Hsize) as Hi.
    rewrite <- (Z2Nat.id (GET_BIN_ENTRY (size lb))) at 1 by lia.
    rewrite set_bin_ok by lia. reflexivity.
  - destruct Hbp as [|[mq Hmq]]; [contradiction|].
    destruct (update_bin_only (bin_prev lb) (with_bin_next (bin_next lb)) mq s E Hmq
                ltac:(reflexivity)) as [Hrun Hbo].
    unfold set_bin_next at 1. rewrite (bind_ok _ _ _ _ _ Hrun).
    set (s1 := with_heap _ s) in *.
    assert (Hl' : exists l', heap s1 !! b = Some l' /\
                             bin_next l' = bin_next lb /\ bin_prev l' = bin_prev lb).
    { unfold s1. unfold_state. destruct (Z.eq_dec (bin_prev lb) b) as [Eq|Ne].
      - assert (mq = lb) as -> by (rewrite Eq in Hmq; congruence).
        exists (with_bin_next (bin_next lb) lb). split; [|split; reflexivity].
        rewrite <- Eq. apply lookup_insert_eq.
      - rewrite lookup_insert_ne by assumption. eauto. }
    destruct Hl' as (l' & Hl' & En & Ep).
    rewrite (bind_ok _ _ _ _ _ (load_ok _ _ _ Hb Hl')). rewrite En, Ep.
    destruct (Z.eqb_spec (bin_next lb) nullptr) as [E'|E']; cbn [negb].
    + exists (heap s1), (free_block_bin s). split; [|exact Hbo].
      reflexivity.
    + destruct Hbn as [|[mr Hmr]]; [contradiction|].
      destruct (bin_only_lookup _ _ _ _ Hbo Hmr) as (mr' & Hmr' & _).
      change (<[bin_prev lb:=with_bin_next (bin_next lb) mq]> (heap s)) with (heap s1) in Hmr'.
      destruct (update_bin_only (bin_next lb) (with_bin_prev (bin_prev lb)) mr' s1 E' Hmr'
                  ltac:(reflexivity)) as [Hrun2 Hbo2].
      unfold set_bin_prev. rewrite Hrun2.
      exists (<[bin_next lb := with_bin_prev (bin_prev lb) mr']> (heap s1)), (free_block_bin s).
      split; [reflexivity|].
      eapply bin_only_trans; [exact Hbo|exact Hbo2].
Qed.

Lemma smalloc_tail_spec (s : state) (n : Z) (l : list ptr) (b : ptr) (lb : MallocMetadata) :
  0 < n <= MAX_MALLOC_4_SIZE ->
  GET_SIZE_WITH_ALIGNMENT n < MIN_KB_BLOCK ->
  get_free_metadata_block (GET_SIZE_WITH_ALIGNMENT n) s = Ok (nullptr, s) ->
  brk_chain s = Some l -> last l = Some b ->
  heap s !! b = Some lb -> is_free lb = true ->
  0 <= size lb < GET_SIZE_WITH_ALIGNMENT n ->
  length (free_block_bin s) = Z.to_nat BIN_SIZE ->
  bin_prev lb = nullptr \/ is_Some (heap s !! bin_prev lb) ->
  bin_next lb = nullptr \/ is_Some (heap s !! bin_next lb) ->
  0 <= brk s ->
  brk s + (GET_SIZE_WITH_ALIGNMENT n - size lb) <= brk_limit s ->
  exists s',
    smalloc n s = Ok (GET_PTR_FROM_METADATA b, s') /\
    brk s' = brk s + (GET_SIZE_WITH_ALIGNMENT n - size lb) /\
    (exists m', heap s' !! b = Some m' /\
       addr_fields m' = (GET_SIZE_WITH_ALIGNMENT n, false, next lb, prev lb)) /\
    (forall x, x <> b -> addr_fields <$> (heap s' !! x) = addr_fields <$> (heap s !! x)) /\
    brk_chain s' = Some l /\
    metadata_head s' = metadata_head s /\ mmap_metadata_head s' = mmap_metadata_head s /\
    brk_limit s' = brk_limit s /\ mmap_answers s' = mmap_answers s.
Proof.
  intros Hn Hk Hsearch Hchain Hlast Hlb Hfree Hsize Hlen Hbp Hbn Hbrk Hroom.
  set (k := GET_SIZE_WITH_ALIGNMENT n) in *.
  pose proof (aligned_le_max n Hn) as Hkm.
  assert (Hb : b <> nullptr).
  { eapply walk_elem; [exact Hchain|]. now apply last_elem. }
  unfold smalloc. rewrite (guard_passes n Hn). fold k.
  destruct (Z.leb_spec MIN_KB_BLOCK k); [lia|].
  rewrite (bind_ok _ _ _ _ _ Hsearch).
  change (negb (nullptr =? nullptr)) with false. cbv iota.
  rewrite bind_gets.
  rewrite (bind_ok _ _ _ _ _ (get_last_metadata_block_walk _ _ _ Hchain)).
  rewrite Hlast. cbn [default].
  rewrite (bind_ok _ _ _ _ _ (is_free_at_ok _ _ _ Hb Hlb)). rewrite Hfree.
  rewrite (bind_ok _ _ _ _ _ (load_ok _ _ _ Hb Hlb)).
  assert (Hidem : GET_SIZE_WITH_ALIGNMENT k = k) by (apply aligned_idempotent; lia).
  rewrite Hidem.
  unfold MAX_MALLOC_4_SIZE in Hkm.
  rewrite (bind_ok _ _ _ _ _ (sbrk_ok (k - size lb) s ltac:(lia) Hroom)).
  destruct (Z.eqb_spec (brk s) SBRK_FAIL) as [E|_]; [unfold SBRK_FAIL in E; lia|].
  set (s1 := with_brk _ s).
  destruct (tail_unlink s1 b lb Hb Hlb ltac:(lia) Hlen Hbp Hbn) as (h' & bins' & Hrun & Hbo).
  rewrite (bind_ok _ _ _ _ _ Hrun).
  destruct (bin_only_lookup _ _ _ _ Hbo Hlb) as (lb' & Hlb' & Hf).
  set (s2 := with_free_block_bin bins' (with_heap h' s1)) in *.
  unfold set_is_free. rewrite (bind_ok _ _ _ _ _ (update_ok b _ lb' s2 Hb Hlb')).
  unfold set_size. erewrite bind_ok; [|apply update_ok; [exact Hb|lk]].
  eexists. split; [reflexivity|]. unfold_state.
  unfold addr_fields in Hf. injection Hf as Hf1 Hf2 Hf3 Hf4.
  split; [reflexivity|]. split.
  { eexists. split; [apply lookup_insert_eq|]. unfold addr_fields. cbn. congruence. }
  assert (Hother : forall x, x <> b ->
            addr_fields <$> (<[b := with_size k (with_is_free false lb')]>
                               (<[b := with_is_free false lb']> h') !! x)
            = addr_fields <$> (heap s !! x)).
  { intros x Hx. rewrite !lookup_insert_ne by congruence. symmetry. apply Hbo. }
  split; [exact Hother|]. split; [|auto 10].
  unfold brk_chain, fuel_of. cbn [heap metadata_head].
  eapply walk_fuel_of. eapply walk_agree; [exact Hchain|].
  intros q m Hq Hm. destruct (Z.eq_dec q b) as [->|Hne].
  - rewrite lookup_insert_eq. eexists. split; [reflexivity|]. cbn.
    assert (m = lb) as -> by congruence. exact Hf3.
  - specialize (Hother q Hne). rewrite Hm in Hother.
    destruct (_ !! q) as [m'|]; [|discriminate].
    exists m'. split; [reflexivity|]. cbn in Hother. unfold addr_fields in Hother. congruence.
Qed.

(** X21. When the search of the bins finds nothing for a request below 128 KB and
    the last block of the brk list is free (and smaller than the request),
    [smalloc] grows that block instead of making a new one: it raises the
    break by the difference between the rounded request and the block's size
    only, marks the block used with the rounded size and returns its payload;
    the list of blocks, size, state and [next] and [prev] of every other
    block and the list heads are as before. *)
Theorem smalloc_extends_the_last_free_block (s : state) (n : Z) (l : list ptr) (b : ptr)
    (lb : MallocMetadata)
    (Hn : 0 < n <= MAX_MALLOC_4_SIZE)
    (Hk : GET_SIZE_WITH_ALIGNMENT n < MIN_KB_BLOCK)
    (Hsearch : get_free_metadata_block (GET_SIZE_WITH_ALIGNMENT n) s = Ok (nullptr, s))
    (Hchain : brk_chain s = Some l)
    (Hlast : last l = Some b)
    (Hlb : heap s !! b = Some lb)
    (Hfree : is_free lb = true)
    (Hsize : 0 <= size lb < GET_SIZE_WITH_ALIGNMENT n)
    (Hlen : length (free_block_bin s) = Z.to_nat BIN_SIZE)
    (Hbp : bin_prev lb = nullptr \/ is_Some (heap s !! bin_prev lb))
    (Hbn : bin_next lb = nullptr \/ is_Some (heap s !! bin_next lb))
    (Hbrk : 0 <= brk s)
    (Hroom : brk s + (GET_SIZE_WITH_ALIGNMENT n - size lb) <= brk_limit s) :
  exists s',
    smalloc n s = Ok (GET_PTR_FROM_METADATA b, s') /\
    brk s' = brk s + (GET_SIZE_WITH_ALIGNMENT n - size lb) /\
    (exists m', heap s' !! b = Some m' /\
       addr_fields m' = (GET_SIZE_WITH_ALIGNMENT n, false, next lb, prev lb)) /\
    (forall x, x <> b -> addr_fields <$> (heap s' !! x) = addr_fields <$> (heap s !! x)) /\
    brk_chain s' = Some l /\
    metadata_head s' = metadata_head s /\ mmap_metadata_head s' = mmap_metadata_head s /\
    brk_limit s' = brk_limit s /\ mmap_answers s' = mmap_answers s.
Proof.
  exact (smalloc_tail_spec s n l b lb Hn Hk Hsearch Hchain Hlast Hlb Hfree Hsize Hlen
           Hbp Hbn Hbrk Hroom).
Qed.

Lemma smalloc_extends_witness :
  exists s',
    smalloc 100 free_at_the_break = Ok (4208, s') /\
    brk s' = 4312 /\ brk_chain s' = Some [4096; 4160].
Proof.
  assert (Hn : 0 < 100 <= MAX_MALLOC_4_SIZE) by (unfold MAX_MALLOC_4_SIZE; lia).
  assert (Hk : GET_SIZE_WITH_ALIGNMENT 100 < MIN_KB_BLOCK) by reflexivity.
  assert (Hsearch : get_free_metadata_block (GET_SIZE_WITH_ALIGNMENT 100) free_at_the_break
                    = Ok (nullptr, free_at_the_break)) by (vm_compute; reflexivity).
  assert (Hchain : brk_chain free_at_the_break = Some [4096; 4160])
    by (vm_compute; reflexivity).
  assert (Hlb : heap free_at_the_break !! 4160 = Some (mkMeta 16 true 0 4096 0 0))
    by (vm_compute; reflexivity).
  assert (Hsize : 0 <= size (mkMeta 16 true 0 4096 0 0) < GET_SIZE_WITH_ALIGNMENT 100)
    by (vm_compute; split; [discriminate|reflexivity]).
  assert (Hlen : length (free_block_bin free_at_the_break) = Z.to_nat BIN_SIZE)
    by (vm_compute; reflexivity).
  assert (Hbrk : 0 <= brk free_at_the_break) by (vm_compute; discriminate).
  assert (Hroom : brk free_at_the_break
                  + (GET_SIZE_WITH_ALIGNMENT 100 - size (mkMeta 16 true 0 4096 0 0))
                  <= brk_limit free_at_the_break) by (vm_compute; discriminate).
  destruct (smalloc_extends_the_last_free_block free_at_the_break 100 [4096; 4160] 4160
              (mkMeta 16 true 0 4096 0 0) Hn Hk Hsearch Hchain eq_refl Hlb eq_refl Hsize Hlen
              (or_introl eq_refl) (or_introl eq_refl) Hbrk Hroom)
    as (s' & Hrun & Hb & _ & _ & Hc & _).
  exists s'. split; [exact Hrun|]. split; [|exact Hc].
  rewrite Hb. vm_compute. reflexivity.
Defined.

(** ** [sfree] of a block that is free already *)

(** [insert_block_to_bin] of the block that is the head of its bucket
    already. *)
Lemma insert_head_again (s : state) (w : ptr) (m : MallocMetadata) :
  w <> nullptr -> heap s !! w = Some m ->
  0 <= size m < MIN_KB_BLOCK ->
  free_block_bin s !! Z.to_nat (GET_BIN_ENTRY (size m)) = Some w ->
  bin_prev m = nullptr ->
  insert_block_to_bin w s = Ok (tt, with_heap (<[w := with_bin_next w m]> (heap s)) s).
Proof.
  intros Hw Hm Hsize Hhead Hbp.
  unfold insert_block_to_bin.
  rewrite (bind_ok _ _ _ _ _ (load_ok _ _ _ Hw Hm)).
  rewrite (bind_ok _ _ _ _ _ (get_bin_at _ _ _ Hsize Hhead)).
  destruct (Z.eqb_spec w nullptr); [contradiction|].
  unfold walk_fuel. rewrite bind_gets. cbn [insert_bin_loop].
  destruct (Z.eqb_spec w nullptr); [contradiction|].
  rewrite !(bind_ok _ _ _ _ _ (load_ok _ _ _ Hw Hm)).
  rewrite Z.leb_refl, Hbp. change (nullptr =? nullptr) with true. cbv iota.
  unfold set_bin_prev, set_bin_next.
  rewrite (bind_ok _ _ _ _ _ (update_ok w _ m s Hw Hm)).
  erewrite bind_ok; [|apply update_ok; [exact Hw|lk]].
  erewrite bind_ok; [|apply update_ok; [exact Hw|lk]].
  erewrite bind_ok; [|apply load_ok; [exact Hw|lk]].
  cbn [size with_bin_prev with_bin_next].
  erewrite set_bin_at; [|exact Hsize|unfold_state; exact Hhead].
  unfold_state. rewrite list_insert_id by exact Hhead.
  rewrite !insert_insert_eq.
  do 3 f_equal. destruct m; cbn in *; subst; reflexivity.
Qed.

(** Once a block is its own [bin_next], the walk through its bucket never
    ends, and neither does the loop of [insert_block_to_bin] for a larger
    block. *)
Lemma walk_self_loop h w m :
  w <> nullptr -> h !! w = Some m -> bin_next m = w ->
  forall fuel, walk bin_next fuel h w = None.
Proof.
  intros Hw Hm Hn fuel. induction fuel as [|fuel IH]; [reflexivity|].
  cbn [walk]. destruct (Z.eqb_spec w nullptr); [contradiction|].
  rewrite Hm, Hn, IH. reflexivity.
Qed.

Lemma insert_bin_loop_self_loop s w m nb mn :
  w <> nullptr -> heap s !! w = Some m -> bin_next m = w ->
  nb <> nullptr -> heap s !! nb = Some mn -> size m < size mn ->
  forall fuel last, insert_bin_loop fuel nb w last s = Fault Diverge.
Proof.
  intros Hw Hm Hn Hnb Hmn Hlt fuel. induction fuel as [|fuel IH]; intros last; [reflexivity|].
  cbn [insert_bin_loop]. destruct (Z.eqb_spec w nullptr); [contradiction|].
  rewrite (bind_ok _ _ _ _ _ (load_ok _ _ _ Hw Hm)).
  rewrite (bind_ok _ _ _ _ _ (load_ok _ _ _ Hnb Hmn)).
  destruct (Z.leb_spec (size mn) (size m)); [lia|].
  rewrite Hn. apply IH.
Qed.

Lemma double_free_spec (s : state) (p : ptr) (m : MallocMetadata) :
  p <> nullptr /\ GET_METADATA_FROM_PTR p <> nullptr ->
  heap s !! GET_METADATA_FROM_PTR p = Some m ->
  is_free m = true ->
  0 <= size m < MIN_KB_BLOCK ->
  free_block_bin s !! Z.to_nat (GET_BIN_ENTRY (size m)) = Some (GET_METADATA_FROM_PTR p) ->
  bin_prev m = nullptr ->
  (next m = nullptr \/
   next m <> GET_METADATA_FROM_PTR p /\
   exists mq, heap s !! next m = Some mq /\ is_free mq = false) ->
  (prev m = nullptr \/
   prev m <> GET_METADATA_FROM_PTR p /\
   exists mq, heap s !! prev m = Some mq /\ is_free mq = false) ->
  let w := GET_METADATA_FROM_PTR p in
  let s' := with_heap (<[w := with_bin_next w m]> (heap s)) s in
  sfree p s = Ok (tt, s') /\
  (forall fuel, walk bin_next fuel (heap s') (bin_head s' (Z.to_nat (GET_BIN_ENTRY (size m))))
                = None) /\
  (forall q mn, q <> nullptr -> GET_METADATA_FROM_PTR q <> nullptr ->
     heap s' !! GET_METADATA_FROM_PTR q = Some mn ->
     size m < size mn < MIN_KB_BLOCK ->
     GET_BIN_ENTRY (size mn) = GET_BIN_ENTRY (size m) ->
     sfree q s' = Fault Diverge).
Proof.
  intros [Hp Hw] Hm Hfree Hsize Hhead Hbp Hnext Hprev. cbv zeta.
  set (w := GET_METADATA_FROM_PTR p) in *.
  set (s' := with_heap (<[w := with_bin_next w m]> (heap s)) s).
  assert (Hm' : heap s' !! w = Some (with_bin_next w m)) by (unfold s'; lk).
  assert (Hsame : forall x, x <> w ->
            addr_fields <$> (heap s' !! x) = addr_fields <$> (heap s !! x)).
  { intros x Hx. unfold s'. unfold_state. now rewrite lookup_insert_ne by congruence. }
  split; [|split].
  - unfold sfree. destruct (Z.eqb_spec p nullptr); [contradiction|]. fold w.
    rewrite (bind_ok _ _ _ _ _ (load_ok _ _ _ Hw Hm)).
    destruct (Z.leb_spec MIN_KB_BLOCK (size m)); [lia|].
    rewrite (bind_ok _ _ _ _ _ (insert_head_again s w m Hw Hm Hsize Hhead Hbp)). fold s'.
    erewrite bind_ok.
    2:{ rewrite (bind_ok _ _ _ _ _ (load_ok _ _ _ Hw Hm')). cbn [next with_bin_next].
        rewrite (bind_ok _ _ _ _ _ (is_free_at_used s s' w (next m) Hnext Hsame)).
        reflexivity. }
    erewrite bind_ok.
    2:{ rewrite (bind_ok _ _ _ _ _ (load_ok _ _ _ Hw Hm')). cbn [prev with_bin_next].
        rewrite (bind_ok _ _ _ _ _ (is_free_at_used s s' w (prev m) Hprev Hsame)).
        reflexivity. }
    unfold set_is_free. rewrite (update_ok w _ _ s' Hw Hm').
    unfold s'. unfold_state. rewrite insert_insert_eq.
    do 4 f_equal. destruct m; cbn in *; subst; reflexivity.
  - intros fuel. unfold bin_head, s'. unfold_state. rewrite Hhead. cbn [default].
    eapply walk_self_loop; [exact Hw|apply lookup_insert_eq|reflexivity].
  - intros q mn Hq Hnb Hmn Hlt He.
    unfold sfree. destruct (Z.eqb_spec q nullptr); [contradiction|].
    rewrite (bind_ok _ _ _ _ _ (load_ok _ _ _ Hnb Hmn)).
    destruct (Z.leb_spec MIN_KB_BLOCK (size mn)); [lia|].
    set (nb := GET_METADATA_FROM_PTR q) in *.
    assert (Hins : insert_block_to_bin nb s' = Fault Diverge); [|unfold bind; now rewrite Hins].
    unfold insert_block_to_bin.
    rewrite (bind_ok _ _ _ _ _ (load_ok _ _ _ Hnb Hmn)).
    erewrite bind_ok; [|apply get_bin_at; [lia|rewrite He; unfold s'; unfold_state; exact Hhead]].
    destruct (Z.eqb_spec w nullptr); [contradiction|].
    unfold walk_fuel. rewrite bind_gets.
    eapply insert_bin_loop_self_loop; [exact Hw|exact Hm'|reflexivity|exact Hnb|exact Hmn|].
    cbn. lia.
Qed.

(** X22. [sfree] does not look at [is_free]: called for a block that is free
    already, the head of its bucket with neighbours by address that are null
    or in use, it links the block into the bucket again, before itself, so
    that the block becomes its own [bin_next].  Nothing else changes, but the
    walk through that bucket never ends any more, and a later [sfree] of any
    larger block of the same bucket does not return. *)
Theorem sfree_of_a_free_block_ties_it_to_itself (s : state) (p : ptr) (m : MallocMetadata)
    (Hp : p <> nullptr /\ GET_METADATA_FROM_PTR p <> nullptr)
    (Hm : heap s !! GET_METADATA_FROM_PTR p = Some m)
    (Hfree : is_free m = true)
    (Hsize : 0 <= size m < MIN_KB_BLOCK)
    (Hhead : free_block_bin s !! Z.to_nat (GET_BIN_ENTRY (size m))
             = Some (GET_METADATA_FROM_PTR p))
    (Hbp : bin_prev m = nullptr)
    (Hnext : next m = nullptr \/
             next m <> GET_METADATA_FROM_PTR p /\
             exists mq, heap s !! next m = Some mq /\ is_free mq = false)
    (Hprev : prev m = nullptr \/
             prev m <> GET_METADATA_FROM_PTR p /\
             exists mq, heap s !! prev m = Some mq /\ is_free mq = false) :
  let w := GET_METADATA_FROM_PTR p in
  let s' := with_heap (<[w := with_bin_next w m]> (heap s)) s in
  sfree p s = Ok (tt, s') /\
  (forall fuel, walk bin_next fuel (heap s') (bin_head s' (Z.to_nat (GET_BIN_ENTRY (size m))))
                = None) /\
  (forall q mn, q <> nullptr -> GET_METADATA_FROM_PTR q <> nullptr ->
     heap s' !! GET_METADATA_FROM_PTR q = Some mn ->
     size m < size mn < MIN_KB_BLOCK ->
     GET_BIN_ENTRY (size mn) = GET_BIN_ENTRY (size m) ->
     sfree q s' = Fault Diverge).
Proof. exact (double_free_spec s p m Hp Hm Hfree Hsize Hhead Hbp Hnext Hprev). Qed.

Lemma sfree_of_a_free_block_witness :
  exists s',
    sfree 4144 freed_once = Ok (tt, s') /\
    heap s' !! 4096 = Some (mkMeta 16 true 4160 0 4096 0) /\
    sfree 4208 s' = Fault Diverge.
Proof.
  assert (Hp : 4144 <> nullptr /\ GET_METADATA_FROM_PTR 4144 <> nullptr)
    by (split; discriminate).
  assert (Hm : heap freed_once !! GET_METADATA_FROM_PTR 4144 = Some (mkMeta 16 true 4160 0 0 0))
    by (vm_compute; reflexivity).
  assert (Hsize : 0 <= size (mkMeta 16 true 4160 0 0 0) < MIN_KB_BLOCK)
    by (split; [discriminate|reflexivity]).
  assert (Hhead : free_block_bin freed_once
                    !! Z.to_nat (GET_BIN_ENTRY (size (mkMeta 16 true 4160 0 0 0)))
                  = Some (GET_METADATA_FROM_PTR 4144)) by (vm_compute; reflexivity).
  assert (Hnext : next (mkMeta 16 true 4160 0 0 0) = nullptr \/
                  next (mkMeta 16 true 4160 0 0 0) <> GET_METADATA_FROM_PTR 4144 /\
                  exists mq, heap freed_once !! next (mkMeta 16 true 4160 0 0 0) = Some mq /\
                             is_free mq = false).
  { right. split; [discriminate|]. eexists. split; vm_compute; reflexivity. }
  destruct (sfree_of_a_free_block_ties_it_to_itself freed_once 4144
              (mkMeta 16 true 4160 0 0 0) Hp Hm eq_refl Hsize Hhead eq_refl Hnext
              (or_introl eq_refl)) as (Hrun & _ & Hhang).
  eexists. split; [exact Hrun|]. split; [vm_compute; reflexivity|].
  apply (Hhang 4208 (mkMeta 104 false 0 4096 0 0)).
  - discriminate.
  - discriminate.
  - vm_compute. reflexivity.
  - vm_compute. split; reflexivity.
  - reflexivity.
Defined.

(** * The claims that rest on the lemmas above *)

(** ** C7: the size check *)

(** A copy of payload bytes leaves every list as it is. *)
Lemma chain_dll_with_mem ls f s : chain_dll ls (with_mem f s) = chain_dll ls s.
Proof. destruct ls; reflexivity. Qed.

Lemma bucket_dll_with_mem j f s : bucket_dll (with_mem f s) j = bucket_dll s j.
Proof. reflexivity. Qed.

(** [srealloc] of a mapped block to a size that is mapped as well: the new
    block is mapped and linked, the bytes are copied, the old block is
    unlinked and unmapped. *)
Lemma srealloc_mapped_spec (s : state) (oldp : ptr) (n : Z) (o : MallocMetadata)
    (a : Z) (rest : list Z) (A B : list ptr) :
  0 < n <= MAX_MALLOC_4_SIZE ->
  MIN_KB_BLOCK <= GET_SIZE_WITH_ALIGNMENT n ->
  oldp <> nullptr ->
  heap s !! GET_METADATA_FROM_PTR oldp = Some o ->
  MIN_KB_BLOCK <= size o ->
  chain_dll mmap_list s = Some (A ++ GET_METADATA_FROM_PTR oldp :: B) ->
  mmap_answers s = a :: rest ->
  0 < a ->
  heap s !! a = None ->
  exists s',
    srealloc oldp n s = Ok (GET_PTR_FROM_METADATA a, s') /\
    (exists m, heap s' !! a = Some m /\
               size m = GET_SIZE_WITH_ALIGNMENT n /\ is_free m = false) /\
    heap s' !! GET_METADATA_FROM_PTR oldp = None /\
    chain_dll mmap_list s' = Some (A ++ B ++ [a]).
Proof.
  intros Hn Hbig Hp Ho Hmapped Hdll Hans Ha Hfresh.
  set (old := GET_METADATA_FROM_PTR oldp) in *.
  set (k := GET_SIZE_WITH_ALIGNMENT n) in *.
  pose proof (aligned_le_max n Hn) as Hk. fold k in Hk.
  assert (Hidem : GET_SIZE_WITH_ALIGNMENT k = k) by (apply aligned_idempotent; lia).
  assert (Ha' : a <> MAP_FAILED /\ a <> nullptr) by (unfold MAP_FAILED, nullptr; lia).
  assert (Hold : old <> nullptr).
  { apply chain_dll_cseg in Hdll as (Hseg & _). eapply cseg_elem; [exact Hseg|in_list]. }
  assert (Hoa : old <> a) by congruence.
  destruct (smalloc_mmap_spec s k a rest _ Hk ltac:(rewrite Hidem; exact Hbig) Hans Ha' Hfresh Hdll)
    as (s1 & Hrun1 & Hha & Hdll1 & Hlast1 & Hframe1 & _).
  rewrite Hidem in Hha.
  assert (Ho1 : exists o1, heap s1 !! old = Some o1 /\ size o1 = size o).
  { destruct (decide (last (A ++ old :: B) = Some old)) as [El|El].
    - exists (with_next a o). split; [exact (Hlast1 old o El Ho)|reflexivity].
    - exists o. split; [|reflexivity]. now rewrite (Hframe1 old Hoa El). }
  destruct Ho1 as (o1 & Ho1 & Hsz1).
  assert (Hr : GET_PTR_FROM_METADATA a <> nullptr)
    by (unfold GET_PTR_FROM_METADATA, sizeof_metadata, nullptr; lia).
  set (s2 := with_mem (fun x => if in_range (GET_PTR_FROM_METADATA a) (MMIN (size o1) k) x
                                then mem s1 (x - GET_PTR_FROM_METADATA a + oldp)
                                else mem s1 x) s1).
  destruct (sfree_mmap_spec s2 oldp o1 A (B ++ [a]) Hp Ho1 ltac:(lia))
    as (s' & Hrun2 & Hgone & Hdll2 & _ & Hother2 & _).
  { unfold s2. rewrite chain_dll_with_mem. fold old. rewrite Hdll1.
    now rewrite <- app_assoc. }
  exists s'. split.
  { unfold srealloc. rewrite (guard_passes n Hn). fold k.
    destruct (Z.eqb_spec oldp nullptr); [contradiction|]. fold old.
    rewrite (bind_ok _ _ _ _ _ (load_ok _ _ _ Hold Ho)).
    destruct (Z.leb_spec MIN_KB_BLOCK (size o)); [|lia].
    rewrite (bind_ok _ _ _ _ _ Hrun1).
    destruct (Z.eqb_spec (GET_PTR_FROM_METADATA a) nullptr); [contradiction|].
    rewrite (bind_ok _ _ _ _ _ (load_ok _ _ _ Hold Ho1)).
    unfold memmove.
    destruct (Z.eqb_spec (GET_PTR_FROM_METADATA a) nullptr); [contradiction|].
    destruct (Z.eqb_spec oldp nullptr); [contradiction|]. cbn [orb].
    rewrite bind_modify. fold s2.
    rewrite (bind_ok _ _ _ _ _ Hrun2). reflexivity. }
  split.
  { specialize (Hother2 a ltac:(fold old; congruence)).
    change (heap s2) with (heap s1) in Hother2. rewrite Hha in Hother2.
    destruct (heap s' !! a) as [m|]; [|discriminate].
    exists m. split; [reflexivity|]. cbn in Hother2. unfold other_fields in Hother2.
    cbn in Hother2. split; congruence. }
  split; [exact Hgone|exact Hdll2].
Qed.

Lemma is_free_at_in_use p s :
  p = nullptr \/ (exists mq, heap s !! p = Some mq /\ is_free mq = false) ->
  is_free_at p s = Ok (false, s).
Proof.
  intros H. unfold is_free_at. destruct (Z.eqb_spec p nullptr) as [E|E]; [reflexivity|].
  destruct H as [H|(mq & Hmq & Hf)]; [contradiction|].
  rewrite (bind_ok _ _ _ _ _ (load_ok _ _ _ E Hmq)). now rewrite Hf.
Qed.

(** [srealloc] of a brk block between blocks in use to a size that is
    mapped: no neighbour can be merged, the block is not the last one, so a
    new block is mapped, the bytes are copied and the old block is freed. *)
Lemma srealloc_moved_spec (s : state) (oldp : ptr) (n : Z) (o : MallocMetadata)
    (a : Z) (rest : list Z) (l lb : list ptr) :
  0 < n <= MAX_MALLOC_4_SIZE ->
  MIN_KB_BLOCK <= GET_SIZE_WITH_ALIGNMENT n ->
  oldp <> nullptr /\ GET_METADATA_FROM_PTR oldp <> nullptr ->
  heap s !! GET_METADATA_FROM_PTR oldp = Some o ->
  0 <= size o < MIN_KB_BLOCK ->
  length (free_block_bin s) = Z.to_nat BIN_SIZE ->
  bucket_dll s (Z.to_nat (GET_BIN_ENTRY (size o))) = Some lb ->
  GET_METADATA_FROM_PTR oldp ∉ lb ->
  (next o <> nullptr /\ next o <> GET_METADATA_FROM_PTR oldp /\
   exists mq, heap s !! next o = Some mq /\ is_free mq = false) ->
  (prev o = nullptr \/
   prev o <> GET_METADATA_FROM_PTR oldp /\
   exists mq, heap s !! prev o = Some mq /\ is_free mq = false) ->
  chain_dll mmap_list s = Some l ->
  GET_METADATA_FROM_PTR oldp ∉ l ->
  mmap_answers s = a :: rest ->
  0 < a ->
  heap s !! a = None ->
  exists s',
    srealloc oldp n s = Ok (GET_PTR_FROM_METADATA a, s') /\
    (exists m, heap s' !! a = Some m /\
               size m = GET_SIZE_WITH_ALIGNMENT n /\ is_free m = false) /\
    (exists m', heap s' !! GET_METADATA_FROM_PTR oldp = Some m' /\
                addr_fields m' = (size o, true, next o, prev o)) /\
    GET_METADATA_FROM_PTR oldp ∈ bucket s' (Z.to_nat (GET_BIN_ENTRY (size o))).
Proof.
  intros Hn Hbig [Hp Hold] Ho Hsize Hlen Hdll Hnotin (Hnn & Hno & mn & Hmn & Hnf) Hprev
         Hmdll Hnl Hans Ha Hfresh.
  set (old := GET_METADATA_FROM_PTR oldp) in *.
  set (k := GET_SIZE_WITH_ALIGNMENT n) in *.
  set (j := Z.to_nat (GET_BIN_ENTRY (size o))) in *.
  pose proof (aligned_le_max n Hn) as Hk. fold k in Hk.
  assert (Hidem : GET_SIZE_WITH_ALIGNMENT k = k) by (apply aligned_idempotent; lia).
  assert (Ha' : a <> MAP_FAILED /\ a <> nullptr) by (unfold MAP_FAILED, nullptr; lia).
  assert (Hoa : old <> a) by congruence.
  destruct (smalloc_mmap_spec s k a rest _ Hk ltac:(rewrite Hidem; exact Hbig) Hans Ha' Hfresh
              Hmdll)
    as (s1 & Hrun1 & Hha & _ & Hlast1 & Hframe1 & _ & Hbin1 & _).
  rewrite Hidem in Hha.
  assert (Hkeep : forall x mx, heap s !! x = Some mx ->
            exists mx', heap s1 !! x = Some mx' /\ is_free mx' = is_free mx /\
                        bin_prev mx' = bin_prev mx /\ bin_next mx' = bin_next mx).
  { intros x mx Hx. destruct (decide (last l = Some x)) as [El|El].
    - exists (with_next a mx). split; [exact (Hlast1 x mx El Hx)|]. auto.
    - exists mx. split; [|auto]. rewrite (Hframe1 x ltac:(congruence) El). exact Hx. }
  assert (Ho1 : heap s1 !! old = Some o).
  { rewrite (Hframe1 old Hoa); [exact Ho|].
    intros El. apply Hnl. eapply last_elem; eauto. }
  assert (Hr : GET_PTR_FROM_METADATA a <> nullptr)
    by (unfold GET_PTR_FROM_METADATA, sizeof_metadata, nullptr; lia).
  set (s2 := with_mem (fun x => if in_range (GET_PTR_FROM_METADATA a) (MMIN k (size o)) x
                                then mem s1 (x - GET_PTR_FROM_METADATA a + oldp)
                                else mem s1 x) s1).
  assert (Hused : forall q, (q = nullptr \/ q <> old /\
                              exists mq, heap s !! q = Some mq /\ is_free mq = false) ->
                            q = nullptr \/ q <> old /\
                              exists mq, heap s2 !! q = Some mq /\ is_free mq = false).
  { intros q [Hq|(Hq & mq & Hmq & Hf)]; [now left|right]. split; [exact Hq|].
    destruct (Hkeep q mq Hmq) as (mq' & Hmq' & Hf' & _).
    exists mq'. split; [exact Hmq'|congruence]. }
  destruct (sfree_between_used_spec s2 oldp o lb (conj Hp Hold) Ho1 Hsize)
    as (s' & la & lb' & Hrun2 & _ & Hdll2 & _ & _ & Hm' & Hsame & _).
  { change (free_block_bin s2) with (free_block_bin s1). now rewrite Hbin1. }
  { change (bucket_dll s1 j = Some lb). apply bucket_dll_dseg in Hdll as (Hseg & Hnd).
    apply dseg_bucket_dll; [|exact Hnd].
    unfold bin_head in *. rewrite Hbin1.
    eapply dseg_agree; [exact Hseg|].
    intros x mx _ Hx. destruct (Hkeep x mx Hx) as (mx' & Hx' & _ & Hbp & Hbn). eauto. }
  { exact Hnotin. }
  { apply Hused. right. split; [exact Hno|eauto]. }
  { apply Hused. exact Hprev. }
  exists s'. split.
  { assert (Hpf : is_free_at (prev o) s = Ok (false, s)).
    { apply is_free_at_in_use. destruct Hprev as [?|(_ & H)]; auto. }
    assert (Hnf' : is_free_at (next o) s = Ok (false, s)) by (apply is_free_at_in_use; eauto).
    unfold srealloc. rewrite (guard_passes n Hn). fold k.
    destruct (Z.eqb_spec oldp nullptr); [contradiction|]. fold old.
    rewrite (bind_ok _ _ _ _ _ (load_ok _ _ _ Hold Ho)).
    destruct (Z.leb_spec MIN_KB_BLOCK (size o)); [lia|].
    destruct (Z.leb_spec k (size o)); [lia|].
    erewrite bind_ok.
    2:{ unfold can_merge_prev. rewrite (bind_ok _ _ _ _ _ (load_ok _ _ _ Hold Ho)).
        rewrite (bind_ok _ _ _ _ _ Hpf). reflexivity. }
    cbv iota.
    erewrite bind_ok.
    2:{ unfold can_merge_next. rewrite (bind_ok _ _ _ _ _ (load_ok _ _ _ Hold Ho)).
        rewrite (bind_ok _ _ _ _ _ Hnf'). reflexivity. }
    cbv iota.
    erewrite bind_ok.
    2:{ unfold can_merge_both. rewrite (bind_ok _ _ _ _ _ (load_ok _ _ _ Hold Ho)).
        rewrite (bind_ok _ _ _ _ _ Hpf). reflexivity. }
    cbv iota.
    destruct (Z.eqb_spec (next o) nullptr); [contradiction|].
    rewrite (bind_ok _ _ _ _ _ Hrun1).
    rewrite (bind_ok _ _ _ _ _ (load_ok _ _ _ Hold Ho1)).
    unfold memmove.
    destruct (Z.eqb_spec (GET_PTR_FROM_METADATA a) nullptr); [contradiction|].
    destruct (Z.eqb_spec oldp nullptr); [contradiction|]. cbn [orb].
    rewrite bind_modify. fold s2.
    rewrite (bind_ok _ _ _ _ _ Hrun2). reflexivity. }
  split.
  { specialize (Hsame a ltac:(fold old; congruence)).
    change (heap s2) with (heap s1) in Hsame. rewrite Hha in Hsame.
    destruct (heap s' !! a) as [m|]; [|discriminate].
    exists m. split; [reflexivity|]. cbn in Hsame. unfold addr_fields in Hsame.
    cbn in Hsame. split; congruence. }
  split; [exact Hm'|].
  subst j. rewrite (bucket_dll_bucket _ _ _ Hdll2). in_list.
Qed.

(** C7.  A request of 0 bytes or of more than 10^8 bytes makes [smalloc] and
    [srealloc] return null with the state as it was, in every state and for
    every old pointer.  The check reads the request as given, before
    rounding: 10^8 - 3 passes it, is rounded up to 10^8, and both functions
    then do exactly what they do for a request of 10^8 bytes.  And they go
    on to serve it.  Where the kernel grants a mapping at [a], [smalloc], and
    [srealloc] of the null pointer, map a block of 10^8 bytes there and
    return its payload; [srealloc] of a mapped block does the same and
    unmaps the old block; [srealloc] of a brk block between blocks in use
    does the same and frees the old block into its bucket.  Where the break
    can rise, [srealloc] of the last brk block (its predecessor in use)
    grows that block to 10^8 bytes in place. *)
Theorem C7_size_check_before_rounding (s : state) (oldp : ptr) :
  (forall n, n = 0 \/ MAX_MALLOC_4_SIZE < n ->
             smalloc n s = Ok (nullptr, s) /\ srealloc oldp n s = Ok (nullptr, s)) /\
  GET_SIZE_WITH_ALIGNMENT (MAX_MALLOC_4_SIZE - 3) = MAX_MALLOC_4_SIZE /\
  smalloc (MAX_MALLOC_4_SIZE - 3) s = smalloc MAX_MALLOC_4_SIZE s /\
  srealloc oldp (MAX_MALLOC_4_SIZE - 3) s = srealloc oldp MAX_MALLOC_4_SIZE s /\
  (forall a rest l,
     mmap_answers s = a :: rest -> 0 < a -> heap s !! a = None ->
     chain_dll mmap_list s = Some l ->
     (exists s',
        smalloc (MAX_MALLOC_4_SIZE - 3) s = Ok (GET_PTR_FROM_METADATA a, s') /\
        srealloc nullptr (MAX_MALLOC_4_SIZE - 3) s = Ok (GET_PTR_FROM_METADATA a, s') /\
        heap s' !! a = Some (mkMeta MAX_MALLOC_4_SIZE false nullptr
                                    (default nullptr (last l)) nullptr nullptr) /\
        chain_dll mmap_list s' = Some (l ++ [a])) /\
     (forall o A B,
        oldp <> nullptr ->
        heap s !! GET_METADATA_FROM_PTR oldp = Some o ->
        MIN_KB_BLOCK <= size o ->
        l = A ++ GET_METADATA_FROM_PTR oldp :: B ->
        exists s',
          srealloc oldp (MAX_MALLOC_4_SIZE - 3) s = Ok (GET_PTR_FROM_METADATA a, s') /\
          (exists m, heap s' !! a = Some m /\
                     size m = MAX_MALLOC_4_SIZE /\ is_free m = false) /\
          heap s' !! GET_METADATA_FROM_PTR oldp = None /\
          chain_dll mmap_list s' = Some (A ++ B ++ [a])) /\
     (forall o lb,
        oldp <> nullptr /\ GET_METADATA_FROM_PTR oldp <> nullptr ->
        heap s !! GET_METADATA_FROM_PTR oldp = Some o ->
        0 <= size o < MIN_KB_BLOCK ->
        length (free_block_bin s) = Z.to_nat BIN_SIZE ->
        bucket_dll s (Z.to_nat (GET_BIN_ENTRY (size o))) = Some lb ->
        GET_METADATA_FROM_PTR oldp ∉ lb ->
        (next o <> nullptr /\ next o <> GET_METADATA_FROM_PTR oldp /\
         exists mq, heap s !! next o = Some mq /\ is_free mq = false) ->
        (prev o = nullptr \/
         prev o <> GET_METADATA_FROM_PTR oldp /\
         exists mq, heap s !! prev o = Some mq /\ is_free mq = false) ->
        GET_METADATA_FROM_PTR oldp ∉ l ->
        exists s',
          srealloc oldp (MAX_MALLOC_4_SIZE - 3) s = Ok (GET_PTR_FROM_METADATA a, s') /\
          (exists m, heap s' !! a = Some m /\
                     size m = MAX_MALLOC_4_SIZE /\ is_free m = false) /\
          (exists m', heap s' !! GET_METADATA_FROM_PTR oldp = Some m' /\
                      addr_fields m' = (size o, true, next o, prev o)) /\
          GET_METADATA_FROM_PTR oldp ∈ bucket s' (Z.to_nat (GET_BIN_ENTRY (size o))))) /\
  (forall o,
     oldp <> nullptr /\ GET_METADATA_FROM_PTR oldp <> nullptr ->
     heap s !! GET_METADATA_FROM_PTR oldp = Some o ->
     0 <= size o < MIN_KB_BLOCK ->
     next o = nullptr ->
     (prev o = nullptr \/
      prev o <> nullptr /\ exists mp, heap s !! prev o = Some mp /\ is_free mp = false) ->
     0 <= brk s ->
     brk s + (MAX_MALLOC_4_SIZE - size o) <= brk_limit s ->
     srealloc oldp (MAX_MALLOC_4_SIZE - 3) s =
       Ok (oldp,
           with_heap (<[GET_METADATA_FROM_PTR oldp := with_size MAX_MALLOC_4_SIZE o]> (heap s))
             (with_brk (brk s + (MAX_MALLOC_4_SIZE - size o)) s))).
Proof.
  assert (Hn : 0 < MAX_MALLOC_4_SIZE - 3 <= MAX_MALLOC_4_SIZE) by (unfold MAX_MALLOC_4_SIZE; lia).
  assert (Hr : GET_SIZE_WITH_ALIGNMENT (MAX_MALLOC_4_SIZE - 3) = MAX_MALLOC_4_SIZE)
    by reflexivity.
  assert (Hbig : MIN_KB_BLOCK <= GET_SIZE_WITH_ALIGNMENT (MAX_MALLOC_4_SIZE - 3))
    by (rewrite Hr; vm_compute; discriminate).
  split.
  { intros n Hrej.
    assert (Hguard : (MAX_MALLOC_4_SIZE <? n) || (n =? 0) = true).
    { destruct Hrej as [->|Hrej]; [reflexivity|].
      apply orb_true_iff. left. now apply Z.ltb_lt. }
    split; [unfold smalloc|unfold srealloc]; now rewrite Hguard. }
  split; [exact Hr|].
  split; [reflexivity|].
  split.
  { unfold srealloc.
    change ((MAX_MALLOC_4_SIZE <? MAX_MALLOC_4_SIZE - 3) || (MAX_MALLOC_4_SIZE - 3 =? 0))
      with false.
    change ((MAX_MALLOC_4_SIZE <? MAX_MALLOC_4_SIZE) || (MAX_MALLOC_4_SIZE =? 0)) with false.
    cbv iota. rewrite Hr.
    change (GET_SIZE_WITH_ALIGNMENT MAX_MALLOC_4_SIZE) with MAX_MALLOC_4_SIZE.
    reflexivity. }
  split.
  { intros a rest l Hans Ha Hfresh Hdll.
    assert (Ha' : a <> MAP_FAILED /\ a <> nullptr) by (unfold MAP_FAILED, nullptr; lia).
    split; [|split].
    - destruct (smalloc_mmap_spec s _ a rest l Hn Hbig Hans Ha' Hfresh Hdll)
        as (s' & Hrun & Hha & Hdll' & _).
      rewrite Hr in Hha.
      exists s'. split; [exact Hrun|]. split; [|split; assumption].
      rewrite <- Hrun. reflexivity.
    - intros o A B Hp Ho Hmapped ->.
      destruct (srealloc_mapped_spec s oldp _ o a rest A B Hn Hbig Hp Ho Hmapped Hdll Hans Ha
                  Hfresh) as (s' & Hrun & Hm & Hgone & Hdll').
      rewrite Hr in Hm. eauto.
    - intros o lb Hp Ho Hsize Hlen Hb Hnotin Hnext Hprev Hnl.
      destruct (srealloc_moved_spec s oldp _ o a rest l lb Hn Hbig Hp Ho Hsize Hlen Hb Hnotin
                  Hnext Hprev Hdll Hnl Hans Ha Hfresh) as (s' & Hrun & Hm & Hm' & Hin).
      rewrite Hr in Hm. eauto. }
  intros o Hp Ho Hsize Hlast Hprev Hbrk Hroom.
  rewrite (srealloc_last_block_spec s oldp _ o Hn Hp Ho Hsize ltac:(rewrite Hr; unfold MIN_KB_BLOCK, KB, MAX_MALLOC_4_SIZE in *; lia) Hlast Hprev Hbrk).
  cbv zeta. rewrite Hr.
  destruct (Z.leb_spec (brk s + (MAX_MALLOC_4_SIZE - size o)) (brk_limit s)); [reflexivity|lia].
Qed.

(** The theorem at work: a request of 10^8 + 1 bytes is turned down; 10^8 - 3
    bytes are mapped at 1048576 on a fresh allocator; a mapped block at
    1048576 moves to 2097152; the first of two brk blocks moves to 1048576
    and is freed; the last of two brk blocks grows in place. *)
Lemma C7_size_check_witness :
  (smalloc (MAX_MALLOC_4_SIZE + 1) Scenario.mapping_granted
     = Ok (nullptr, Scenario.mapping_granted) /\
   srealloc 4144 (MAX_MALLOC_4_SIZE + 1) Scenario.mapping_granted
     = Ok (nullptr, Scenario.mapping_granted)) /\
  (exists s', smalloc (MAX_MALLOC_4_SIZE - 3) Scenario.mapping_granted = Ok (1048624, s') /\
              heap s' !! 1048576 = Some (mkMeta 100000000 false 0 0 0 0)) /\
  (exists s', srealloc 1048624 (MAX_MALLOC_4_SIZE - 3) one_mapped = Ok (2097200, s') /\
              heap s' !! 1048576 = None /\
              chain_dll mmap_list s' = Some [2097152]) /\
  (exists s', srealloc 4144 (MAX_MALLOC_4_SIZE - 3) two_in_use_and_a_mapping
                = Ok (1048624, s') /\
              4096 ∈ bucket s' 0) /\
  (exists s', srealloc 4208 (MAX_MALLOC_4_SIZE - 3) two_in_use_and_room = Ok (4208, s') /\
              heap s' !! 4160 = Some (mkMeta 100000000 false 0 4096 0 0) /\
              brk s' = 100004208).
Proof.
  split; [|split; [|split; [|split]]].
  - apply (proj1 (C7_size_check_before_rounding Scenario.mapping_granted 4144)).
    right. reflexivity.
  - destruct (C7_size_check_before_rounding Scenario.mapping_granted nullptr)
      as (_ & _ & _ & _ & H & _).
    destruct (H 1048576 [] [] eq_refl ltac:(lia) eq_refl eq_refl) as ((s' & H1 & _ & H2 & _) & _).
    exists s'. split; [exact H1|exact H2].
  - destruct (C7_size_check_before_rounding one_mapped 1048624) as (_ & _ & _ & _ & H & _).
    assert (Hans : mmap_answers one_mapped = [2097152]) by (vm_compute; reflexivity).
    assert (Hdll : chain_dll mmap_list one_mapped = Some [1048576])
      by (vm_compute; reflexivity).
    assert (Ho : heap one_mapped !! GET_METADATA_FROM_PTR 1048624
                 = Some (mkMeta 200000 false 0 0 0 0)) by (vm_compute; reflexivity).
    destruct (H 2097152 [] [1048576] Hans ltac:(lia) ltac:(vm_compute; reflexivity) Hdll)
      as (_ & Hmapped & _).
    destruct (Hmapped (mkMeta 200000 false 0 0 0 0) [] [] ltac:(discriminate) Ho
                ltac:(vm_compute; discriminate) eq_refl)
      as (s' & H1 & _ & H2 & H3).
    exists s'. split; [exact H1|]. split; [exact H2|exact H3].
  - destruct (C7_size_check_before_rounding two_in_use_and_a_mapping 4144)
      as (_ & _ & _ & _ & H & _).
    assert (Hans : mmap_answers two_in_use_and_a_mapping = [1048576])
      by (vm_compute; reflexivity).
    assert (Hdll : chain_dll mmap_list two_in_use_and_a_mapping = Some [])
      by (vm_compute; reflexivity).
    assert (Ho : heap two_in_use_and_a_mapping !! GET_METADATA_FROM_PTR 4144
                 = Some (mkMeta 16 false 4160 0 0 0)) by (vm_compute; reflexivity).
    destruct (H 1048576 [] [] Hans ltac:(lia) ltac:(vm_compute; reflexivity) Hdll)
      as (_ & _ & Hmoved).
    destruct (Hmoved (mkMeta 16 false 4160 0 0 0) [])
      as (s' & H1 & _ & _ & H2).
    + split; discriminate.
    + exact Ho.
    + vm_compute. split; [discriminate|reflexivity].
    + vm_compute. reflexivity.
    + vm_compute. reflexivity.
    + apply not_elem_of_nil.
    + split; [discriminate|]. split; [discriminate|].
      exists (mkMeta 16 false 0 4096 0 0). split; vm_compute; reflexivity.
    + left. reflexivity.
    + apply not_elem_of_nil.
    + exists s'. split; [exact H1|exact H2].
  - destruct (C7_size_check_before_rounding two_in_use_and_room 4208)
      as (_ & _ & _ & _ & _ & H).
    assert (Ho : heap two_in_use_and_room !! GET_METADATA_FROM_PTR 4208
                 = Some (mkMeta 16 false 0 4096 0 0)) by (vm_compute; reflexivity).
    eexists. split; [|split].
    + apply (H (mkMeta 16 false 0 4096 0 0)).
      * split; discriminate.
      * exact Ho.
      * vm_compute. split; [discriminate|reflexivity].
      * reflexivity.
      * right. split; [discriminate|].
        exists (mkMeta 16 false 4160 0 0 0). split; vm_compute; reflexivity.
      * vm_compute. discriminate.
      * vm_compute. discriminate.
    + vm_compute. reflexivity.
    + vm_compute. reflexivity.
Defined.

(** ** C9: free, then allocate the same size again, in general *)







